(** * Iron Dominion: the simulation engine, embedded and verified

    A shallow embedding of the hex-grid railway simulation: hex coordinate
    helpers (hex.ts), the terrain generator (terrain.ts), the technology
    tree (techTree.ts) and the network and economy engine (gameState.ts).

    Conventions of the embedding.
    - JavaScript numbers that the engine keeps integral (coordinates, funds,
      revenue, ids, calendar fields) are [Z]; fractional quantities (train
      speed, progress, elapsed time, growth rates, cost multipliers) are
      exact rationals [Q], with [Math.floor] as [Qfloor]. The rounding of
      binary64 arithmetic is outside this part of the model.
    - The gradient noise of the terrain generator is evaluated in IEEE
      binary64, as the source does, on Rocq's primitive floats; the seed,
      the grid size and the tile coordinates are integers.
    - A JavaScript [Map] or [Set] iterates in insertion order; both are
      association lists kept in that order (module [Js]).
    - [Math.random] is an oracle: a stream of rationals read through a
      cursor that every draw advances.
    - Mutation of the game state is explicit state passing: a mutating
      operation returns the new state next to its result. *)

From Stdlib Require Import ZArith QArith Qround List String Ascii Bool Lia.
From Stdlib Require Import Sorted Permutation FinFun.
From Stdlib Require Import DecimalString DecimalZ.
From Stdlib Require Import PrimFloat FloatOps SpecFloat Uint63.
Import ListNotations.

Set Warnings "-inexact-float".
Open Scope Z_scope.

(* ================================================================== *)
(** * Insertion-ordered maps and sets with string keys *)
(* ================================================================== *)

Module Js.

Section MapOps.
Context {V : Type}.

(** A [Map<string, V>]: the entries in insertion order, keys distinct. *)
Definition JsMap := list (string * V).

Fixpoint get (m : JsMap) (k : string) : option V :=
  match m with
  | [] => None
  | (k', v) :: rest => if String.eqb k' k then Some v else get rest k
  end.

Definition has (m : JsMap) (k : string) : bool :=
  match get m k with Some _ => true | None => false end.

(** [m.set(k, v)]: an existing key keeps its place, a new key goes last. *)
Fixpoint set (m : JsMap) (k : string) (v : V) : JsMap :=
  match m with
  | [] => [(k, v)]
  | (k', v') :: rest =>
      if String.eqb k' k then (k, v) :: rest else (k', v') :: set rest k v
  end.

Definition keys (m : JsMap) : list string := List.map fst m.
Definition values (m : JsMap) : list V := List.map snd m.
Definition size (m : JsMap) : Z := Z.of_nat (List.length m).

End MapOps.

Arguments JsMap V : clear implicits.

(** A [Set<string>]: the members in insertion order, without repeats. *)
Definition JsSet := list string.

Definition setHas (s : JsSet) (k : string) : bool :=
  existsb (String.eqb k) s.

Definition setAdd (s : JsSet) (k : string) : JsSet :=
  if setHas s k then s else s ++ [k].

(** [x < y] on exact numbers. *)
Definition Qltb (x y : Q) : bool := negb (Qle_bool y x).

(** [arr.findIndex(p)]: the first index whose element satisfies [p], or -1. *)
Fixpoint findIndexFrom {A : Type} (p : A -> bool) (l : list A) (i : Z) : Z :=
  match l with
  | [] => -1
  | x :: rest => if p x then i else findIndexFrom p rest (i + 1)
  end.

Definition findIndex {A : Type} (p : A -> bool) (l : list A) : Z :=
  findIndexFrom p l 0.

(** [arr.splice(i, 1)] for an index inside the array. *)
Definition removeAt {A : Type} (l : list A) (i : Z) : list A :=
  List.firstn (Z.to_nat i) l ++ List.skipn (S (Z.to_nat i)) l.

(** [arr[i]], [None] for undefined. *)
Definition index {A : Type} (l : list A) (i : Z) : option A :=
  if i <? 0 then None else List.nth_error l (Z.to_nat i).

End Js.

(* ================================================================== *)
(** * Hex coordinate helpers (hex.ts) *)
(* ================================================================== *)

Module Hex.

Record HexCoord := { q : Z; r : Z }.

Definition HEX_DIRECTIONS : list HexCoord :=
  [ {| q := 1; r := 0 |};     (* East *)
    {| q := 1; r := -1 |};    (* Northeast *)
    {| q := 0; r := -1 |};    (* Northwest *)
    {| q := -1; r := 0 |};    (* West *)
    {| q := -1; r := 1 |};    (* Southwest *)
    {| q := 0; r := 1 |} ].   (* Southeast *)

(** Template-literal conversion of an integer: decimal digits, a leading
    minus sign for negatives. *)
Definition numberToString (z : Z) : string :=
  NilZero.string_of_int (Z.to_int z).

(** [Number(s)] on the strings the engine parses (decimal integers);
    [None] stands for NaN. *)
Definition Number (s : string) : option Z :=
  option_map Z.of_int (NilZero.int_of_string s).

Definition comma : ascii := ","%char.

Definition hexKey (hex : HexCoord) : string :=
  (numberToString (q hex) ++ String comma (numberToString (r hex)))%string.

(** [s.split(sep)] for a one-character separator. *)
Fixpoint split (sep : ascii) (s : string) : list string :=
  match s with
  | EmptyString => [EmptyString]
  | String c rest =>
      if Ascii.eqb c sep then EmptyString :: split sep rest
      else match split sep rest with
           | [] => [String c EmptyString]
           | w :: ws => String c w :: ws
           end
  end.

(** [parseHexKey]: [None] when a component does not parse to a number
    (the source would build a coordinate holding NaN or undefined). *)
Definition parseHexKey (key : string) : option HexCoord :=
  match List.map Number (split comma key) with
  | Some q0 :: Some r0 :: _ => Some {| q := q0; r := r0 |}
  | _ => None
  end.

Definition hexNeighbors (hex : HexCoord) : list HexCoord :=
  List.map (fun d => {| q := q hex + q d; r := r hex + r d |}) HEX_DIRECTIONS.

(** The three absolute differences always sum to an even number, so the
    division by two is exact on integer coordinates. *)
Definition hexDistance (a b : HexCoord) : Z :=
  (Z.abs (q a - q b) + Z.abs (q a + r a - q b - r b) + Z.abs (r a - r b)) / 2.

End Hex.

(* ================================================================== *)
(** * Randomness *)
(* ================================================================== *)

Module Random.

(** The stream behind [Math.random]: draw number [c] is [rnd c]. *)
Definition Rand := nat -> Q.

(** [Math.random] returns a number in the half-open unit interval. *)
Definition unit_rnd (rnd : Rand) : Prop :=
  forall c, (0 <= rnd c)%Q /\ (rnd c < 1)%Q.

(** [Math.floor(Math.random() * n)] at cursor [c]. *)
Definition randomInt (rnd : Rand) (c : nat) (n : Z) : Z :=
  Qfloor (rnd c * inject_Z n).

(** Two streams for worked examples: every draw 0, every draw one half. *)
Definition zeroRnd : Rand := fun _ => 0%Q.
Definition halfRnd : Rand := fun _ => 0.5%Q.

End Random.

(* ================================================================== *)
(** * Terrain and map generation (terrain.ts) *)
(* ================================================================== *)

Module Terrain.
Import Js Hex Random.

Inductive TerrainType :=
| Plains | Forest | Hills | Mountains | River | Desert | Swamp | Coast | Water.

Definition terrainEqb (a b : TerrainType) : bool :=
  match a, b with
  | Plains, Plains | Forest, Forest | Hills, Hills | Mountains, Mountains
  | River, River | Desert, Desert | Swamp, Swamp | Coast, Coast
  | Water, Water => true
  | _, _ => false
  end.

(** [trackCostMultiplier] is [None] for the source's [Infinity]. *)
Record TerrainInfo := {
  type : TerrainType;
  trackCostMultiplier : option Q;
  speedModifier : Q;
  color : Z;
  label : string
}.

Definition TERRAIN_DATA (t : TerrainType) : TerrainInfo :=
  match t with
  | Plains => {| type := Plains; trackCostMultiplier := Some 1.0%Q; speedModifier := 1.0%Q; color := 0xC5B358; label := "Plains" |}
  | Forest => {| type := Forest; trackCostMultiplier := Some 1.5%Q; speedModifier := 0.8%Q; color := 0x2D5F3A; label := "Forest" |}
  | Hills => {| type := Hills; trackCostMultiplier := Some 2.0%Q; speedModifier := 0.6%Q; color := 0x8B7D4A; label := "Hills" |}
  | Mountains => {| type := Mountains; trackCostMultiplier := Some 4.0%Q; speedModifier := 0.4%Q; color := 0x7A7D85; label := "Mountains" |}
  | River => {| type := River; trackCostMultiplier := Some 3.0%Q; speedModifier := 1.0%Q; color := 0x4A6FA5; label := "River" |}
  | Desert => {| type := Desert; trackCostMultiplier := Some 1.2%Q; speedModifier := 0.9%Q; color := 0xD4A843; label := "Desert" |}
  | Swamp => {| type := Swamp; trackCostMultiplier := Some 2.5%Q; speedModifier := 0.5%Q; color := 0x4A6B4A; label := "Swamp" |}
  | Coast => {| type := Coast; trackCostMultiplier := Some 1.0%Q; speedModifier := 1.0%Q; color := 0x7EC8E3; label := "Coast" |}
  | Water => {| type := Water; trackCostMultiplier := None; speedModifier := 0%Q; color := 0x2A5298; label := "Water" |}
  end.

Record CityData := {
  hex : HexCoord;
  name : string;
  population : Z;
  demand : list (string * Z);
  supply : list (string * Z);
  hasStation : bool;
  growth : Q
}.

Record GameMap := {
  width : Z;
  height : Z;
  terrain : JsMap TerrainType;
  cities : list CityData;
  explored : JsSet;
  resources : JsMap string
}.

(** ** Binary64 helpers *)

(** [Math.floor] of a finite double, as an integer. *)
Definition floorZ (x : float) : Z :=
  match Prim2SF x with
  | S754_finite s m e =>
      let v := if s then Z.neg m else Z.pos m in
      if 0 <=? e then v * 2 ^ e else v / 2 ^ (- e)
  | _ => 0
  end.

(** The double that holds an integer (exact below 2^53). *)
Definition ofZ (z : Z) : float :=
  if z <? 0 then (- of_uint63 (Uint63.of_Z (- z)))%float
  else of_uint63 (Uint63.of_Z z).

(** ** class SimpleNoise *)

(** [p[i] = v] and [p[i]] on an array of numbers. The shuffle only uses
    indices inside the array; outside it [upd] changes nothing and [at_]
    reads 0 (the source would grow the array, or read undefined). *)
Definition upd (p : list Z) (i : Z) (v : Z) : list Z :=
  List.map (fun '(k, x) => if Z.of_nat k =? i then v else x)
           (List.combine (List.seq 0 (List.length p)) p).

Definition at_ (p : list Z) (i : Z) : Z :=
  if i <? 0 then 0 else List.nth (Z.to_nat i) p 0.

(** The shuffle loop of the constructor: [i] runs from 255 down to 1. The
    seed is a non-negative integer small enough for [s * 16807] to be exact
    in binary64, as the host passes. *)
Fixpoint shuffle (i : nat) (s : Z) (p : list Z) : list Z :=
  match i with
  | O => p
  | S i' =>
      let s' := Z.rem (s * 16807 + 0) 2147483647 in
      let j := Z.rem s' (Z.of_nat i + 1) in
      let pi := at_ p (Z.of_nat i) in
      let pj := at_ p j in
      shuffle i' s' (upd (upd p (Z.of_nat i) pj) j pi)
  end.

Record SimpleNoise := { perm : list Z }.

Definition newSimpleNoise (seed : Z) : SimpleNoise :=
  let p := List.map Z.of_nat (List.seq 0 256) in
  let p' := shuffle 255 seed p in
  {| perm := p' ++ p' |}.

Definition fade (t : float) : float := (t * t * t * (t * (t * 6 - 15) + 10))%float.

Definition lerp (a b t : float) : float := (a + t * (b - a))%float.

Definition grad (hash : Z) (x y : float) : float :=
  let h := Z.land hash 3 in
  let u := if h <? 2 then x else y in
  let v := if h <? 2 then y else x in
  let su := if Z.land h 1 =? 0 then u else (- u)%float in
  let sv := if Z.land h 2 =? 0 then v else (- v)%float in
  (su + sv)%float.

Definition noise2D (n : SimpleNoise) (x y : float) : float :=
  let X := Z.land (floorZ x) 255 in
  let Y := Z.land (floorZ y) 255 in
  let xf := (x - ofZ (floorZ x))%float in
  let yf := (y - ofZ (floorZ y))%float in
  let u := fade xf in
  let v := fade yf in
  let aa := at_ (perm n) (at_ (perm n) X + Y) in
  let ab := at_ (perm n) (at_ (perm n) X + Y + 1) in
  let ba := at_ (perm n) (at_ (perm n) (X + 1) + Y) in
  let bb := at_ (perm n) (at_ (perm n) (X + 1) + Y + 1) in
  lerp (lerp (grad aa xf yf) (grad ba (xf - 1) yf) u)
       (lerp (grad ab xf (yf - 1)) (grad bb (xf - 1) (yf - 1)) u)
       v.

(** The octave loop of [fbm], carrying value, amplitude, frequency and
    maxValue. *)
Fixpoint fbmLoop (n : SimpleNoise) (x y : float) (octaves : nat)
    (value amplitude frequency maxValue : float) : float :=
  match octaves with
  | O => (value / maxValue)%float
  | S k =>
      fbmLoop n x y k
        (value + noise2D n (x * frequency) (y * frequency) * amplitude)%float
        (amplitude * 0.5)%float
        (frequency * 2)%float
        (maxValue + amplitude)%float
  end.

Definition fbm (n : SimpleNoise) (x y : float) (octaves : nat) : float :=
  fbmLoop n x y octaves 0%float 1%float 1%float 0%float.

(** ** generateMap: the terrain pass *)

(** The threshold cascade on the final elevation and the moisture. *)
Definition classify (finalElevation moist : float) : TerrainType :=
  if (finalElevation <? -0.15)%float then Water
  else if (finalElevation <? -0.05)%float then Coast
  else if (0.45 <? finalElevation)%float then Mountains
  else if (0.3 <? finalElevation)%float then Hills
  else if (0.25 <? moist)%float then Forest
  else if (moist <? -0.2)%float then Desert
  else if (0.1 <? moist)%float && (finalElevation <? 0.05)%float then Swamp
  else Plains.

(** The terrain type of one tile, from the two noise fields and the
    island mask. *)
Definition tileType (noise moisture : SimpleNoise) (width height q r : Z)
  : TerrainType :=
  let centerQ := width / 2 in
  let centerR := height / 2 in
  let elevation := fbm noise (ofZ q * 0.08)%float (ofZ r * 0.08)%float 5 in
  let moist := fbm moisture (ofZ q * 0.06 + 50)%float (ofZ r * 0.06 + 50)%float 4 in
  let dx := ((ofZ q - ofZ centerQ) / (ofZ width * 0.45))%float in
  let dy := ((ofZ r - ofZ centerR) / (ofZ height * 0.45))%float in
  let distFromCenter := PrimFloat.sqrt (dx * dx + dy * dy)%float in
  let islandMask := (1 - distFromCenter * distFromCenter)%float in
  let finalElevation := (elevation * 0.6 + islandMask * 0.4)%float in
  classify finalElevation moist.

(** [0, 1, ..., n-1], the values of a counting loop. *)
Definition upto (n : Z) : list Z := List.map Z.of_nat (List.seq 0 (Z.to_nat n)).

(** The two nested loops that fill [terrain], row by row. *)
Definition baseTerrain (width height seed : Z) : JsMap TerrainType :=
  let noise := newSimpleNoise seed in
  let moisture := newSimpleNoise (seed + 1000) in
  List.fold_left
    (fun terrain r =>
       List.fold_left
         (fun terrain q =>
            set terrain (hexKey {| q := q; r := r |})
                (tileType noise moisture width height q r))
         (upto width) terrain)
    (upto height) [].

(** ** generateMap: rivers *)

Definition inBounds (width height : Z) (n : HexCoord) : bool :=
  (0 <=? q n) && (q n <? width) && (0 <=? r n) && (r n <? height).

(** The walk of one river, at most [steps] more tiles from [(q, r)].
    [None]: the source would read a field of undefined (an index outside
    the neighbour array). *)
Fixpoint riverWalk (rnd : Rand) (width height : Z) (steps : nat) (q r : Z)
    (terrain : JsMap TerrainType) (c : nat)
  : option (JsMap TerrainType * nat) :=
  match steps with
  | O => Some (terrain, c)
  | S steps' =>
      let rKey := hexKey {| q := q; r := r |} in
      match get terrain rKey with
      | Some Water => Some (terrain, c)
      | _ =>
          let terrain' := set terrain rKey River in
          let neighbors := List.filter (inBounds width height)
                                       (hexNeighbors {| q := q; r := r |}) in
          if (List.length neighbors =? 0)%nat then Some (terrain', c)
          else
            let i := randomInt rnd c (Z.of_nat (List.length neighbors)) in
            if i <? 0 then None
            else match List.nth_error neighbors (Z.to_nat i) with
                 | Some next => riverWalk rnd width height steps' (Hex.q next) (Hex.r next) terrain' (S c)
                 | None => None
                 end
      end
  end.

(** The loop over river starts: [n] starts are still to be tried. *)
Fixpoint riverLoop (rnd : Rand) (width height : Z) (n : nat)
    (terrain : JsMap TerrainType) (c : nat)
  : option (JsMap TerrainType * nat) :=
  match n with
  | O => Some (terrain, c)
  | S n' =>
      let q := randomInt rnd c width in
      let r := randomInt rnd (S c) height in
      let key := hexKey {| q := q; r := r |} in
      let c2 := S (S c) in
      match get terrain key with
      | Some Mountains | Some Hills =>
          match riverWalk rnd width height 20 q r terrain c2 with
          | Some (terrain', c') => riverLoop rnd width height n' terrain' c'
          | None => None
          end
      | _ => riverLoop rnd width height n' terrain c2
      end
  end.

Definition addRivers (rnd : Rand) (width height : Z)
    (terrain : JsMap TerrainType) (c : nat)
  : option (JsMap TerrainType * nat) :=
  let riverStarts := 3 + randomInt rnd c 3 in
  riverLoop rnd width height (Z.to_nat riverStarts) terrain (S c).

(** The [terrain] field of the map that [generateMap] returns. The field is
    complete after the river pass: city placement, resource scatter and the
    initial exploration that follow only read it. *)
Definition generateMap_terrain (width height seed : Z) (rnd : Rand)
  : option (JsMap TerrainType) :=
  option_map fst (addRivers rnd width height (baseTerrain width height seed) 0%nat).

End Terrain.

(* ================================================================== *)
(** * Technology tree and research (techTree.ts) *)
(* ================================================================== *)

Module TechTree.
Import Js.

Inductive Era := steam | diesel | electric | maglev.

Definition eraEqb (a b : Era) : bool :=
  match a, b with
  | steam, steam | diesel, diesel | electric, electric | maglev, maglev => true
  | _, _ => false
  end.

Inductive EffectType :=
| unlock_train | speed_bonus | capacity_bonus
| maintenance_reduction | revenue_bonus | unlock_track.

Definition effectTypeEqb (a b : EffectType) : bool :=
  match a, b with
  | unlock_train, unlock_train | speed_bonus, speed_bonus
  | capacity_bonus, capacity_bonus
  | maintenance_reduction, maintenance_reduction
  | revenue_bonus, revenue_bonus | unlock_track, unlock_track => true
  | _, _ => false
  end.

(** [value: string | number]: a train or track type name, or a percentage. *)
Inductive EffectValue :=
| Str (s : string)
| Num (n : Z).

Record TechEffect := { etype : EffectType; value : EffectValue }.

(** The presentation fields [icon] and [description] are left out. *)
Record Technology := {
  id : string;
  name : string;
  era : Era;
  cost : Z;
  prerequisites : list string;
  effects : list TechEffect
}.

Record ResearchState := {
  points : Q;
  pointsPerMonth : Z;
  unlocked : JsSet;
  currentResearch : option string;
  progress : Q
}.

Definition createResearchState : ResearchState :=
  {| points := 0; pointsPerMonth := 0; unlocked := ["basic_locomotive"%string];
     currentResearch := None; progress := 0 |}.

Definition TECH_TREE : list Technology :=
  [ (* Steam era *)
    {| id := "basic_locomotive"; name := "Basic Locomotive"; era := steam; cost := 0;
       prerequisites := [];
       effects := [ {| etype := unlock_train; value := Str "freight" |} ] |};
    {| id := "passenger_carriages"; name := "Passenger Carriages"; era := steam; cost := 500;
       prerequisites := ["basic_locomotive"];
       effects := [ {| etype := unlock_train; value := Str "passenger" |} ] |};
    {| id := "mail_coach"; name := "Mail Coach"; era := steam; cost := 400;
       prerequisites := ["basic_locomotive"];
       effects := [ {| etype := unlock_train; value := Str "mail" |} ] |};
    {| id := "improved_boiler"; name := "Improved Boiler"; era := steam; cost := 800;
       prerequisites := ["basic_locomotive"];
       effects := [ {| etype := speed_bonus; value := Num 15 |} ] |};
    (* Diesel era *)
    {| id := "diesel_engine"; name := "Diesel Engine"; era := diesel; cost := 1500;
       prerequisites := ["improved_boiler"];
       effects := [ {| etype := unlock_train; value := Str "mixed" |} ] |};
    {| id := "luxury_carriages"; name := "Luxury Carriages"; era := diesel; cost := 2000;
       prerequisites := ["diesel_engine"; "passenger_carriages"];
       effects := [ {| etype := unlock_train; value := Str "luxury" |} ] |};
    {| id := "reinforced_chassis"; name := "Reinforced Chassis"; era := diesel; cost := 1200;
       prerequisites := ["diesel_engine"];
       effects := [ {| etype := capacity_bonus; value := Num 25 |} ] |};
    {| id := "efficient_logistics"; name := "Efficient Logistics"; era := diesel; cost := 1800;
       prerequisites := ["diesel_engine"];
       effects := [ {| etype := maintenance_reduction; value := Num 20 |} ] |};
    (* Electric era *)
    {| id := "electric_motors"; name := "Electric Motors"; era := electric; cost := 3000;
       prerequisites := ["diesel_engine"];
       effects := [ {| etype := unlock_train; value := Str "express" |};
                    {| etype := unlock_track; value := Str "electrified" |} ] |};
    {| id := "signal_systems"; name := "Signal Systems"; era := electric; cost := 2500;
       prerequisites := ["electric_motors"];
       effects := [ {| etype := revenue_bonus; value := Num 20 |} ] |};
    {| id := "commuter_networks"; name := "Commuter Networks"; era := electric; cost := 2800;
       prerequisites := ["electric_motors"; "passenger_carriages"];
       effects := [ {| etype := unlock_train; value := Str "commuter" |} ] |};
    {| id := "high_speed_rails"; name := "High-Speed Rails"; era := electric; cost := 4000;
       prerequisites := ["electric_motors"; "reinforced_chassis"];
       effects := [ {| etype := speed_bonus; value := Num 30 |};
                    {| etype := unlock_track; value := Str "highspeed" |} ] |};
    (* Maglev era *)
    {| id := "maglev_technology"; name := "Maglev Technology"; era := maglev; cost := 6000;
       prerequisites := ["electric_motors"; "high_speed_rails"];
       effects := [ {| etype := unlock_train; value := Str "bullet" |} ] |};
    {| id := "hyperloop_prototype"; name := "Hyperloop Prototype"; era := maglev; cost := 10000;
       prerequisites := ["maglev_technology"];
       effects := [ {| etype := unlock_train; value := Str "hyperloop" |} ] |};
    {| id := "quantum_logistics"; name := "Quantum Logistics"; era := maglev; cost := 8000;
       prerequisites := ["maglev_technology"; "signal_systems"];
       effects := [ {| etype := maintenance_reduction; value := Num 30 |};
                    {| etype := revenue_bonus; value := Num 25 |} ] |};
    {| id := "neural_networks"; name := "Neural Networks"; era := maglev; cost := 7000;
       prerequisites := ["maglev_technology"];
       effects := [ {| etype := capacity_bonus; value := Num 40 |};
                    {| etype := speed_bonus; value := Num 20 |} ] |} ]%string.

Definition getTech (techId : string) : option Technology :=
  List.find (fun t => String.eqb (id t) techId) TECH_TREE.

Record ResearchCheck := { ok : bool; reason : option string }.

(** The loop over [tech.prerequisites]: the first one, in the order of that
    list, that is not unlocked. *)
Definition firstMissing (state : ResearchState) (prereqs : list string)
  : option string :=
  List.find (fun prereq => negb (setHas (unlocked state) prereq)) prereqs.

Definition canResearch (state : ResearchState) (techId : string) : ResearchCheck :=
  if setHas (unlocked state) techId then
    {| ok := false; reason := Some "Already researched"%string |}
  else
    match getTech techId with
    | None => {| ok := false; reason := Some "Unknown technology"%string |}
    | Some tech =>
        match firstMissing state (prerequisites tech) with
        | Some prereq =>
            let shown := match getTech prereq with
                         | Some prereqTech => name prereqTech
                         | None => prereq
                         end in
            {| ok := false; reason := Some ("Requires: " ++ shown)%string |}
        | None =>
            if Qltb (points state) (inject_Z (cost tech)) then
              {| ok := false;
                 reason := Some ("Need " ++ Hex.numberToString (cost tech) ++ " RP (have "
                                 ++ Hex.numberToString (Qfloor (points state)) ++ ")")%string |}
            else {| ok := true; reason := None |}
        end
    end.

Definition withPointsUnlocked (state : ResearchState) (p : Q) (u : JsSet)
  : ResearchState :=
  {| points := p; pointsPerMonth := pointsPerMonth state; unlocked := u;
     currentResearch := currentResearch state; progress := progress state |}.

Definition unlockTech (state : ResearchState) (techId : string)
  : ResearchState * bool :=
  if negb (ok (canResearch state techId)) then (state, false)
  else
    match getTech techId with
    | Some tech =>
        (withPointsUnlocked state (points state - inject_Z (cost tech))
                            (setAdd (unlocked state) techId), true)
    | None => (state, false)
    end.

(** [effect.value as string] and [effect.value as number]. *)
Definition asString (v : EffectValue) : string :=
  match v with Str s => s | Num n => Hex.numberToString n end.

Definition asNumber (v : EffectValue) : Z :=
  match v with Num n => n | Str _ => 0 end.

(** The effects of the unlocked technologies, in iteration order; unknown
    ids are skipped. All the aggregate functions scan this list. *)
Definition unlockedEffects (state : ResearchState) : list TechEffect :=
  List.flat_map
    (fun techId => match getTech techId with
                   | Some tech => effects tech
                   | None => []
                   end)
    (unlocked state).

Definition getUnlockedTrainTypes (state : ResearchState) : list string :=
  List.map (fun e => asString (value e))
    (List.filter (fun e => effectTypeEqb (etype e) unlock_train) (unlockedEffects state)).

Definition sumEffects (ty : EffectType) (state : ResearchState) : Z :=
  List.fold_left (fun bonus e => bonus + asNumber (value e))
    (List.filter (fun e => effectTypeEqb (etype e) ty) (unlockedEffects state)) 0.

Definition getSpeedBonus (state : ResearchState) : Z := sumEffects speed_bonus state.

Definition getCapacityBonus (state : ResearchState) : Z := sumEffects capacity_bonus state.

Definition getMaintenanceReduction (state : ResearchState) : Z :=
  Z.min (sumEffects maintenance_reduction state) 75.

Definition getRevenueBonus (state : ResearchState) : Z := sumEffects revenue_bonus state.

(** The string that the source uses for an era. *)
Definition eraName (e : Era) : string :=
  match e with
  | steam => "steam" | diesel => "diesel" | electric => "electric" | maglev => "maglev"
  end.

(** [getEraForTech]: the argument is any string; one that names no era
    selects nothing. *)
Definition getEraForTech (eraId : string) : list Technology :=
  List.filter (fun t => String.eqb (eraName (era t)) eraId) TECH_TREE.

End TechTree.

(* ================================================================== *)
(** * Game state and economy (gameState.ts) *)
(* ================================================================== *)

Module Engine.
Import Js Hex Random.

Module TrackSegment.
Inductive Grade := narrow | standard | double | electrified | highspeed.
Record t := { from : HexCoord; to : HexCoord; built : bool; type : Grade }.
End TrackSegment.

Module Station.
Inductive Kind := halt | station | junction | terminal.
Record t := {
  hex : HexCoord;
  name : string;
  type : Kind;
  platforms : Z;
  cityIndex : Z
}.
End Station.

Module Train.
Inductive Kind :=
| freight | passenger | mixed | luxury | mail | express | commuter | bullet | hyperloop.

Record t := {
  id : Z;
  name : string;
  type : Kind;
  route : list HexCoord;
  currentSegment : Z;
  progress : Q;
  speed : Q;
  capacity : Z;
  cargo : list (string * Z);
  revenue : Z;
  maintenanceCost : Z;
  color : Z
}.

(** The string that the source uses for a train type. *)
Definition typeName (k : Kind) : string :=
  match k with
  | freight => "freight" | passenger => "passenger" | mixed => "mixed"
  | luxury => "luxury" | mail => "mail" | express => "express"
  | commuter => "commuter" | bullet => "bullet" | hyperloop => "hyperloop"
  end.
End Train.

Inductive GameSpeed := Paused | Normal | Fast | Fastest.

(** The number behind a [GameSpeed]: 0, 1, 2 or 3. *)
Definition speedIndex (g : GameSpeed) : Z :=
  match g with Paused => 0 | Normal => 1 | Fast => 2 | Fastest => 3 end.

Module Tool.
Inductive t :=
| select | track | station | train | demolish | research | diplomacy | economy.
End Tool.

Inductive Severity := success | warning | danger | info.

(** A notification: its title and severity. The id (a module-wide counter),
    the icon, the text and the creation time are display data. *)
Record GameNotification := { title : string; severity : Severity }.

Record GameState := {
  map : Terrain.GameMap;
  tracks : JsMap TrackSegment.t;
  stations : JsMap Station.t;
  trains : list Train.t;
  funds : Z;
  monthlyIncome : Z;
  monthlyExpenses : Z;
  lastMonthIncome : Z;
  lastMonthExpenses : Z;
  totalRevenue : Z;
  month : Z;
  year : Z;
  era : TechTree.Era;
  speed : GameSpeed;
  selectedTool : Tool.t;
  selectedHex : option HexCoord;
  trackBuildStart : option HexCoord;
  nextTrainId : Z;
  research : TechTree.ResearchState;
  notifications : list GameNotification
}.

Module COSTS.
Definition trackPerHex : Z := 500.
Definition stationHalt : Z := 1000.
Definition stationBasic : Z := 3000.
Definition stationJunction : Z := 5000.
Definition stationTerminal : Z := 15000.
Definition trainFreight : Z := 5000.
Definition trainPassenger : Z := 8000.
Definition trainMixed : Z := 6000.
Definition trainLuxury : Z := 12000.
Definition trainMail : Z := 4000.
Definition trainExpress : Z := 15000.
Definition trainCommuter : Z := 10000.
Definition trainBullet : Z := 25000.
Definition trainHyperloop : Z := 50000.
Definition demolishTrack : Z := 100.
Definition demolishStation : Z := 500.
End COSTS.

Record TrainConfig := {
  cfgSpeed : Q;
  cfgCapacity : Z;
  cfgMaintenance : Z;
  cfgColor : Z
}.

Definition TRAIN_CONFIGS (k : Train.Kind) : TrainConfig :=
  match k with
  | Train.freight => {| cfgSpeed := 0.15; cfgCapacity := 100; cfgMaintenance := 50; cfgColor := 0x8B6914 |}
  | Train.passenger => {| cfgSpeed := 0.25; cfgCapacity := 60; cfgMaintenance := 80; cfgColor := 0x4A6FA5 |}
  | Train.mail => {| cfgSpeed := 0.30; cfgCapacity := 40; cfgMaintenance := 40; cfgColor := 0xB44A3E |}
  | Train.mixed => {| cfgSpeed := 0.20; cfgCapacity := 70; cfgMaintenance := 65; cfgColor := 0x7A7D85 |}
  | Train.luxury => {| cfgSpeed := 0.20; cfgCapacity := 30; cfgMaintenance := 120; cfgColor := 0xD4A843 |}
  | Train.express => {| cfgSpeed := 0.40; cfgCapacity := 80; cfgMaintenance := 150; cfgColor := 0x2E86C1 |}
  | Train.commuter => {| cfgSpeed := 0.35; cfgCapacity := 120; cfgMaintenance := 100; cfgColor := 0x27AE60 |}
  | Train.bullet => {| cfgSpeed := 0.55; cfgCapacity := 90; cfgMaintenance := 200; cfgColor := 0xE74C3C |}
  | Train.hyperloop => {| cfgSpeed := 0.80; cfgCapacity := 50; cfgMaintenance := 350; cfgColor := 0x9B59B6 |}
  end.

(** Era-based train maintenance ($/month); [None] would be a missing row. *)
Definition TRAIN_MAINTENANCE_BY_ERA (k : Train.Kind) (e : TechTree.Era) : option Z :=
  let row (a b c d : Z) :=
    match e with
    | TechTree.steam => a | TechTree.diesel => b
    | TechTree.electric => c | TechTree.maglev => d
    end in
  Some match k with
       | Train.freight => row 50 75 110 165
       | Train.passenger => row 80 120 180 270
       | Train.mail => row 40 60 90 135
       | Train.mixed => row 65 90 130 195
       | Train.luxury => row 120 180 270 405
       | Train.express => row 150 220 330 495
       | Train.commuter => row 100 150 220 330
       | Train.bullet => row 200 300 450 675
       | Train.hyperloop => row 350 520 780 1170
       end.

(** Era-based track maintenance ($/month per segment). *)
Definition TRACK_MAINTENANCE_BY_ERA (e : TechTree.Era) : Z :=
  match e with
  | TechTree.steam => 5 | TechTree.diesel => 10
  | TechTree.electric => 50 | TechTree.maglev => 250
  end.

Definition createGameState (m : Terrain.GameMap) : GameState :=
  {| map := m; tracks := []; stations := []; trains := [];
     funds := 50000; monthlyIncome := 0; monthlyExpenses := 0;
     lastMonthIncome := 0; lastMonthExpenses := 0; totalRevenue := 0;
     month := 0; year := 1840; era := TechTree.steam; speed := Normal;
     selectedTool := Tool.select; selectedHex := None; trackBuildStart := None;
     nextTrainId := 1; research := TechTree.createResearchState;
     notifications := [] |}.

(** ** Field updates *)

Definition set_map (s : GameState) (v : Terrain.GameMap) : GameState :=
  Build_GameState v (tracks s) (stations s) (trains s) (funds s) (monthlyIncome s) (monthlyExpenses s) (lastMonthIncome s) (lastMonthExpenses s) (totalRevenue s) (month s) (year s) (era s) (speed s) (selectedTool s) (selectedHex s) (trackBuildStart s) (nextTrainId s) (research s) (notifications s).
Definition set_tracks (s : GameState) (v : JsMap TrackSegment.t) : GameState :=
  Build_GameState (map s) v (stations s) (trains s) (funds s) (monthlyIncome s) (monthlyExpenses s) (lastMonthIncome s) (lastMonthExpenses s) (totalRevenue s) (month s) (year s) (era s) (speed s) (selectedTool s) (selectedHex s) (trackBuildStart s) (nextTrainId s) (research s) (notifications s).
Definition set_stations (s : GameState) (v : JsMap Station.t) : GameState :=
  Build_GameState (map s) (tracks s) v (trains s) (funds s) (monthlyIncome s) (monthlyExpenses s) (lastMonthIncome s) (lastMonthExpenses s) (totalRevenue s) (month s) (year s) (era s) (speed s) (selectedTool s) (selectedHex s) (trackBuildStart s) (nextTrainId s) (research s) (notifications s).
Definition set_trains (s : GameState) (v : list Train.t) : GameState :=
  Build_GameState (map s) (tracks s) (stations s) v (funds s) (monthlyIncome s) (monthlyExpenses s) (lastMonthIncome s) (lastMonthExpenses s) (totalRevenue s) (month s) (year s) (era s) (speed s) (selectedTool s) (selectedHex s) (trackBuildStart s) (nextTrainId s) (research s) (notifications s).
Definition set_funds (s : GameState) (v : Z) : GameState :=
  Build_GameState (map s) (tracks s) (stations s) (trains s) v (monthlyIncome s) (monthlyExpenses s) (lastMonthIncome s) (lastMonthExpenses s) (totalRevenue s) (month s) (year s) (era s) (speed s) (selectedTool s) (selectedHex s) (trackBuildStart s) (nextTrainId s) (research s) (notifications s).
Definition set_monthlyIncome (s : GameState) (v : Z) : GameState :=
  Build_GameState (map s) (tracks s) (stations s) (trains s) (funds s) v (monthlyExpenses s) (lastMonthIncome s) (lastMonthExpenses s) (totalRevenue s) (month s) (year s) (era s) (speed s) (selectedTool s) (selectedHex s) (trackBuildStart s) (nextTrainId s) (research s) (notifications s).
Definition set_monthlyExpenses (s : GameState) (v : Z) : GameState :=
  Build_GameState (map s) (tracks s) (stations s) (trains s) (funds s) (monthlyIncome s) v (lastMonthIncome s) (lastMonthExpenses s) (totalRevenue s) (month s) (year s) (era s) (speed s) (selectedTool s) (selectedHex s) (trackBuildStart s) (nextTrainId s) (research s) (notifications s).
Definition set_lastMonthIncome (s : GameState) (v : Z) : GameState :=
  Build_GameState (map s) (tracks s) (stations s) (trains s) (funds s) (monthlyIncome s) (monthlyExpenses s) v (lastMonthExpenses s) (totalRevenue s) (month s) (year s) (era s) (speed s) (selectedTool s) (selectedHex s) (trackBuildStart s) (nextTrainId s) (research s) (notifications s).
Definition set_lastMonthExpenses (s : GameState) (v : Z) : GameState :=
  Build_GameState (map s) (tracks s) (stations s) (trains s) (funds s) (monthlyIncome s) (monthlyExpenses s) (lastMonthIncome s) v (totalRevenue s) (month s) (year s) (era s) (speed s) (selectedTool s) (selectedHex s) (trackBuildStart s) (nextTrainId s) (research s) (notifications s).
Definition set_totalRevenue (s : GameState) (v : Z) : GameState :=
  Build_GameState (map s) (tracks s) (stations s) (trains s) (funds s) (monthlyIncome s) (monthlyExpenses s) (lastMonthIncome s) (lastMonthExpenses s) v (month s) (year s) (era s) (speed s) (selectedTool s) (selectedHex s) (trackBuildStart s) (nextTrainId s) (research s) (notifications s).
Definition set_month (s : GameState) (v : Z) : GameState :=
  Build_GameState (map s) (tracks s) (stations s) (trains s) (funds s) (monthlyIncome s) (monthlyExpenses s) (lastMonthIncome s) (lastMonthExpenses s) (totalRevenue s) v (year s) (era s) (speed s) (selectedTool s) (selectedHex s) (trackBuildStart s) (nextTrainId s) (research s) (notifications s).
Definition set_year (s : GameState) (v : Z) : GameState :=
  Build_GameState (map s) (tracks s) (stations s) (trains s) (funds s) (monthlyIncome s) (monthlyExpenses s) (lastMonthIncome s) (lastMonthExpenses s) (totalRevenue s) (month s) v (era s) (speed s) (selectedTool s) (selectedHex s) (trackBuildStart s) (nextTrainId s) (research s) (notifications s).
Definition set_era (s : GameState) (v : TechTree.Era) : GameState :=
  Build_GameState (map s) (tracks s) (stations s) (trains s) (funds s) (monthlyIncome s) (monthlyExpenses s) (lastMonthIncome s) (lastMonthExpenses s) (totalRevenue s) (month s) (year s) v (speed s) (selectedTool s) (selectedHex s) (trackBuildStart s) (nextTrainId s) (research s) (notifications s).
Definition set_nextTrainId (s : GameState) (v : Z) : GameState :=
  Build_GameState (map s) (tracks s) (stations s) (trains s) (funds s) (monthlyIncome s) (monthlyExpenses s) (lastMonthIncome s) (lastMonthExpenses s) (totalRevenue s) (month s) (year s) (era s) (speed s) (selectedTool s) (selectedHex s) (trackBuildStart s) v (research s) (notifications s).
Definition set_research (s : GameState) (v : TechTree.ResearchState) : GameState :=
  Build_GameState (map s) (tracks s) (stations s) (trains s) (funds s) (monthlyIncome s) (monthlyExpenses s) (lastMonthIncome s) (lastMonthExpenses s) (totalRevenue s) (month s) (year s) (era s) (speed s) (selectedTool s) (selectedHex s) (trackBuildStart s) (nextTrainId s) v (notifications s).
Definition set_notifications (s : GameState) (v : list GameNotification) : GameState :=
  Build_GameState (map s) (tracks s) (stations s) (trains s) (funds s) (monthlyIncome s) (monthlyExpenses s) (lastMonthIncome s) (lastMonthExpenses s) (totalRevenue s) (month s) (year s) (era s) (speed s) (selectedTool s) (selectedHex s) (trackBuildStart s) (nextTrainId s) (research s) v.

Definition set_explored (m : Terrain.GameMap) (v : JsSet) : Terrain.GameMap :=
  Terrain.Build_GameMap (Terrain.width m) (Terrain.height m) (Terrain.terrain m) (Terrain.cities m) v (Terrain.resources m).
Definition set_cities (m : Terrain.GameMap) (v : list Terrain.CityData) : Terrain.GameMap :=
  Terrain.Build_GameMap (Terrain.width m) (Terrain.height m) (Terrain.terrain m) v (Terrain.explored m) (Terrain.resources m).

(** ** Notifications *)

(** Push, then drop the oldest entries while more than five remain. *)
Fixpoint trimNotifications (fuel : nat) (l : list GameNotification)
  : list GameNotification :=
  match fuel with
  | O => l
  | S fuel' =>
      if (5 <? List.length l)%nat then trimNotifications fuel' (List.tl l) else l
  end.

Definition addNotification (state : GameState) (ttl : string) (sev : Severity)
  : GameState :=
  let pushed := notifications state ++ [ {| title := ttl; severity := sev |} ] in
  set_notifications state (trimNotifications (List.length pushed) pushed).

(** ** Fog of war *)

(** The offsets [-radius .. radius] of the two reveal loops. *)
Definition offsets (radius : Z) : list Z :=
  List.map (fun k => Z.of_nat k - radius) (List.seq 0 (Z.to_nat (2 * radius + 1))).

Definition revealAround (state : GameState) (center : HexCoord) (radius : Z)
  : GameState :=
  let explored' :=
    List.fold_left
      (fun ex dr =>
         List.fold_left
           (fun ex dq =>
              let h := {| q := q center + dq; r := r center + dr |} in
              if hexDistance center h <=? radius then setAdd ex (hexKey h) else ex)
           (offsets radius) ex)
      (offsets radius) (Terrain.explored (map state)) in
  set_map state (set_explored (map state) explored').

(** ** Track construction *)

Definition arrow : string := "->".

Definition trackKey (from to : HexCoord) : string :=
  let fk := hexKey from in
  let tk := hexKey to in
  if String.ltb fk tk then (fk ++ arrow ++ tk)%string else (tk ++ arrow ++ fk)%string.

Record BuildCheck := { ok : bool; cost : Z; reason : option string }.

Definition reject (c : Z) (why : string) : BuildCheck :=
  {| ok := false; cost := c; reason := Some why |}.

Definition accept (c : Z) : BuildCheck :=
  {| ok := true; cost := c; reason := None |}.

Definition canBuildTrack (state : GameState) (from to : HexCoord) : BuildCheck :=
  let dist := hexDistance from to in
  if negb (dist =? 1) then reject 0 "Must be adjacent hexes"
  else
    match get (Terrain.terrain (map state)) (hexKey to) with
    | None => reject 0 "Out of bounds"
    | Some toTerrain =>
        if Terrain.terrainEqb toTerrain Terrain.Water then reject 0 "Cannot build on water"
        else
          let key := trackKey from to in
          if has (tracks state) key then reject 0 "Track already exists"
          else
            match Terrain.trackCostMultiplier (Terrain.TERRAIN_DATA toTerrain) with
            | Some multiplier =>
                let cost := Qfloor (inject_Z COSTS.trackPerHex * multiplier) in
                if funds state <? cost then reject cost "Insufficient funds"
                else accept cost
            | None =>
                (* An infinite cost: only Water has one, and Water is
                   rejected above. *)
                reject 0 "Insufficient funds"
            end
    end.

Definition buildTrack (state : GameState) (from to : HexCoord) : GameState * bool :=
  let check := canBuildTrack state from to in
  if negb (ok check) then (state, false)
  else
    let key := trackKey from to in
    let segment := {| TrackSegment.from := from; TrackSegment.to := to;
                      TrackSegment.built := true;
                      TrackSegment.type := TrackSegment.standard |} in
    let state1 := set_tracks state (set (tracks state) key segment) in
    let state2 := set_funds state1 (funds state1 - cost check) in
    (revealAround state2 to 2, true).

(** ** Station construction *)

Definition cityAt (state : GameState) (key : string) : Z :=
  findIndex (fun c => String.eqb (hexKey (Terrain.hex c)) key)
            (Terrain.cities (map state)).

Definition canBuildStation (state : GameState) (hex : HexCoord) : BuildCheck :=
  let key := hexKey hex in
  if has (stations state) key then reject 0 "Station already here"
  else
    let buildable :=
      match get (Terrain.terrain (map state)) key with
      | None | Some Terrain.Water | Some Terrain.Mountains => false
      | Some _ => true
      end in
    if negb buildable then reject 0 "Cannot build station here"
    else
      let hasTrack :=
        List.existsb
          (fun t => String.eqb (hexKey (TrackSegment.from t)) key
                    || String.eqb (hexKey (TrackSegment.to t)) key)
          (values (tracks state)) in
      let cityIndex := cityAt state key in
      let cost := if 0 <=? cityIndex then COSTS.stationBasic else COSTS.stationHalt in
      if funds state <? cost then reject cost "Insufficient funds"
      else if (0 <? size (stations state)) && negb hasTrack then
        reject cost "Must connect to track network"
      else accept cost.

Definition markStation (c : Terrain.CityData) : Terrain.CityData :=
  Terrain.Build_CityData (Terrain.hex c) (Terrain.name c) (Terrain.population c)
    (Terrain.demand c) (Terrain.supply c) true (Terrain.growth c).

(** [arr[i] = f(arr[i])] for an index inside the array. *)
Definition updateAt {A : Type} (l : list A) (i : Z) (f : A -> A) : list A :=
  List.map (fun '(k, x) => if Z.of_nat k =? i then f x else x)
           (List.combine (List.seq 0 (List.length l)) l).

Definition buildStation (state : GameState) (hex : HexCoord) : GameState * bool :=
  let check := canBuildStation state hex in
  if negb (ok check) then (state, false)
  else
    let key := hexKey hex in
    let cityIndex := cityAt state key in
    let city := index (Terrain.cities (map state)) cityIndex in
    let station :=
      {| Station.hex := hex;
         Station.name :=
           match city with
           | Some c => Terrain.name c
           | None => ("Halt " ++ numberToString (size (stations state) + 1))%string
           end;
         Station.type := if 0 <=? cityIndex then Station.station else Station.halt;
         Station.platforms := if 0 <=? cityIndex then 2 else 1;
         Station.cityIndex := cityIndex |} in
    let state1 := set_stations state (set (stations state) key station) in
    let state2 := set_funds state1 (funds state1 - cost check) in
    let state3 :=
      if 0 <=? cityIndex then
        addNotification
          (set_map state2
             (set_cities (map state2)
                (updateAt (Terrain.cities (map state2)) cityIndex markStation)))
          "Station Built" success
      else state2 in
    (revealAround state3 hex 3, true).

(** ** Pathfinding along the track network *)

Definition neighborsOf (adj : JsMap JsSet) (k : string) : JsSet :=
  match get adj k with Some s => s | None => [] end.

(** One iteration of the loop that builds the adjacency map. *)
Definition addEdge (adj : JsMap JsSet) (track : TrackSegment.t) : JsMap JsSet :=
  let fk := hexKey (TrackSegment.from track) in
  let tk := hexKey (TrackSegment.to track) in
  let adj1 := if has adj fk then adj else set adj fk [] in
  let adj2 := if has adj1 tk then adj1 else set adj1 tk [] in
  let adj3 := set adj2 fk (setAdd (neighborsOf adj2 fk) tk) in
  set adj3 tk (setAdd (neighborsOf adj3 tk) fk).

Definition buildAdjacency (segments : list TrackSegment.t) : JsMap JsSet :=
  List.fold_left addEdge segments [].

(** The inner loop over the neighbours of [current]. *)
Fixpoint visit (current : string) (neighbors : list string)
    (cameFrom : JsMap string) (queue : list string)
  : JsMap string * list string :=
  match neighbors with
  | [] => (cameFrom, queue)
  | next :: rest =>
      if has cameFrom next then visit current rest cameFrom queue
      else visit current rest (set cameFrom next current) (queue ++ [next])
  end.

(** The reconstruction loop: [path] collects the hexes from the goal back
    to the start. The loop has no bound in the source; [fuel] bounds the
    number of pushes, and [None] stands for running out of it or for a
    node without an entry in [cameFrom]. *)
Fixpoint reconstruct (fuel : nat) (cameFrom : JsMap string) (node : string)
    (path : list HexCoord) : option (list HexCoord) :=
  if String.eqb node EmptyString then Some path
  else
    match fuel with
    | O => None
    | S fuel' =>
        match parseHexKey node, get cameFrom node with
        | Some h, Some parent => reconstruct fuel' cameFrom parent (path ++ [h])
        | _, _ => None
        end
    end.

(** The search loop. [None] is the source's null (the queue ran empty);
    running out of [fuel] is reported as [None] too, and
    [PathFacts.bfs_spec] shows that it does not happen. *)
Fixpoint bfs (fuel : nat) (adj : JsMap JsSet) (goalKey : string)
    (cameFrom : JsMap string) (queue : list string)
  : option (list HexCoord) :=
  match fuel with
  | O => None
  | S fuel' =>
      match queue with
      | [] => None
      | current :: queue' =>
          if String.eqb current goalKey then
            option_map (@List.rev HexCoord)
                       (reconstruct (List.length cameFrom) cameFrom goalKey [])
          else
            match get adj current with
            | None => bfs fuel' adj goalKey cameFrom queue'
            | Some neighbors =>
                let '(cameFrom', queue'') := visit current neighbors cameFrom queue' in
                bfs fuel' adj goalKey cameFrom' queue''
            end
      end
  end.

Definition findTrackPath (state : GameState) (from to : HexCoord)
  : option (list HexCoord) :=
  let startKey := hexKey from in
  let goalKey := hexKey to in
  if String.eqb startKey goalKey then Some [from]
  else
    let adj := buildAdjacency (values (tracks state)) in
    if negb (has adj startKey) then None
    else bfs (S (List.length adj)) adj goalKey (set [] startKey EmptyString) [startKey].

(** ** Train purchase and retirement *)

Definition set_route (t : Train.t) (v : list HexCoord) : Train.t :=
  Train.Build_t (Train.id t) (Train.name t) (Train.type t) v (Train.currentSegment t) (Train.progress t) (Train.speed t) (Train.capacity t) (Train.cargo t) (Train.revenue t) (Train.maintenanceCost t) (Train.color t).
Definition set_currentSegment (t : Train.t) (v : Z) : Train.t :=
  Train.Build_t (Train.id t) (Train.name t) (Train.type t) (Train.route t) v (Train.progress t) (Train.speed t) (Train.capacity t) (Train.cargo t) (Train.revenue t) (Train.maintenanceCost t) (Train.color t).
Definition set_progress (t : Train.t) (v : Q) : Train.t :=
  Train.Build_t (Train.id t) (Train.name t) (Train.type t) (Train.route t) (Train.currentSegment t) v (Train.speed t) (Train.capacity t) (Train.cargo t) (Train.revenue t) (Train.maintenanceCost t) (Train.color t).
Definition set_revenue (t : Train.t) (v : Z) : Train.t :=
  Train.Build_t (Train.id t) (Train.name t) (Train.type t) (Train.route t) (Train.currentSegment t) (Train.progress t) (Train.speed t) (Train.capacity t) (Train.cargo t) v (Train.maintenanceCost t) (Train.color t).

(** The purchase price table of [buyTrain]; it covers every train type. *)
Definition purchaseCost (k : Train.Kind) : option Z :=
  Some match k with
       | Train.freight => COSTS.trainFreight
       | Train.passenger => COSTS.trainPassenger
       | Train.mixed => COSTS.trainMixed
       | Train.luxury => COSTS.trainLuxury
       | Train.mail => COSTS.trainMail
       | Train.express => COSTS.trainExpress
       | Train.commuter => COSTS.trainCommuter
       | Train.bullet => COSTS.trainBullet
       | Train.hyperloop => COSTS.trainHyperloop
       end.

(** The price table of [removeTrain]: five entries only. *)
Definition legacyCost (k : Train.Kind) : option Z :=
  match k with
  | Train.freight => Some COSTS.trainFreight
  | Train.passenger => Some COSTS.trainPassenger
  | Train.mixed => Some COSTS.trainMixed
  | Train.luxury => Some COSTS.trainLuxury
  | Train.mail => Some COSTS.trainMail
  | _ => None
  end.

(** [table[key] ?? fallback]. *)
Definition orElse (o : option Z) (fallback : Z) : Z :=
  match o with Some v => v | None => fallback end.

(** The loop that joins the pairwise paths: the first leg whole, every
    later leg without its first hex. *)
Fixpoint resolveRoute (state : GameState) (first : bool)
    (routeStations : list HexCoord) (fullRoute : list HexCoord)
  : option (list HexCoord) :=
  match routeStations with
  | a :: ((b :: _) as rest) =>
      match findTrackPath state a b with
      | None => None
      | Some segment =>
          resolveRoute state false rest
            (fullRoute ++ (if first then segment else List.tl segment))
      end
  | _ => Some fullRoute
  end.

(** [s.charAt(0).toUpperCase() + s.slice(1)] on lower-case ASCII names. *)
Definition capitalize (s : string) : string :=
  match s with
  | EmptyString => EmptyString
  | String c rest =>
      let n := nat_of_ascii c in
      String (if ((97 <=? n) && (n <=? 122))%nat then ascii_of_nat (n - 32) else c) rest
  end.

Definition buyTrain (state : GameState) (type : Train.Kind)
    (routeStations : list HexCoord) : GameState * option Train.t :=
  let cost := orElse (purchaseCost type) 5000 in
  if funds state <? cost then (state, None)
  else if (List.length routeStations <? 2)%nat then (state, None)
  else
    let unlocked := TechTree.getUnlockedTrainTypes (research state) in
    if negb (List.existsb (String.eqb (Train.typeName type)) unlocked) then
      (addNotification state "Tech Required" danger, None)
    else
      match resolveRoute state true routeStations [] with
      | None => (addNotification state "No Track Path" danger, None)
      | Some fullRoute =>
          let config := TRAIN_CONFIGS type in
          let speedBonus := (1 + inject_Z (TechTree.getSpeedBonus (research state)) / 100)%Q in
          let capBonus := (1 + inject_Z (TechTree.getCapacityBonus (research state)) / 100)%Q in
          let state1 := set_nextTrainId state (nextTrainId state + 1) in
          let train :=
            {| Train.id := nextTrainId state;
               Train.name := (capitalize (Train.typeName type) ++ " "
                              ++ numberToString (nextTrainId state1 - 1))%string;
               Train.type := type;
               Train.route := fullRoute;
               Train.currentSegment := 0;
               Train.progress := 0;
               Train.speed := (cfgSpeed config * speedBonus)%Q;
               Train.capacity := Qfloor (inject_Z (cfgCapacity config) * capBonus);
               Train.cargo := [];
               Train.revenue := 0;
               Train.maintenanceCost := cfgMaintenance config;
               Train.color := cfgColor config |} in
          let state2 := set_trains state1 (trains state1 ++ [train]) in
          let state3 := set_funds state2 (funds state2 - cost) in
          (addNotification state3 "Train Purchased" success, Some train)
      end.

Definition removeTrain (state : GameState) (trainId : Z) : GameState * bool :=
  let idx := findIndex (fun t => Train.id t =? trainId) (trains state) in
  if idx =? -1 then (state, false)
  else
    match index (trains state) idx with
    | None => (state, false)
    | Some train =>
        let state1 := set_trains state (removeAt (trains state) idx) in
        let refund := Qfloor (inject_Z (orElse (legacyCost (Train.type train)) 5000) * 0.25) in
        let state2 := set_funds state1 (funds state1 + refund) in
        (addNotification state2 "Train Retired" warning, true)
    end.

(** ** Train movement *)

Definition typeMultiplier (k : Train.Kind) : Q :=
  match k with
  | Train.hyperloop => 5
  | Train.bullet => 4
  | Train.luxury => 3
  | Train.express => 2.5
  | Train.passenger => 2
  | Train.commuter => 1.5
  | _ => 1
  end.

(** [baseRevenue], the leg-completion revenue of a train. *)
Definition baseRevenue (rs : TechTree.ResearchState) (train : Train.t) : Z :=
  let routeLength := Z.of_nat (List.length (Train.route train)) in
  let revBonus := (1 + inject_Z (TechTree.getRevenueBonus rs) / 100)%Q in
  Qfloor (inject_Z routeLength * 100 * typeMultiplier (Train.type train) * revBonus).

(** One revenue credit: the train, the month and the running total. *)
Definition creditState (state : GameState) (amount : Z) : GameState :=
  set_totalRevenue (set_monthlyIncome state (monthlyIncome state + amount))
                   (totalRevenue state + amount).

Definition creditTrain (train : Train.t) (amount : Z) : Train.t :=
  set_revenue train (Train.revenue train + amount).

(** The body of the loop over the trains. The state carries the income
    accumulators; [None] stands for reading a route entry that does not
    exist (the source would fail on undefined). *)
Definition moveTrain (rnd : Rand) (gameSpeed : Q) (state : GameState) (c : nat)
    (train : Train.t) : option (GameState * nat * Train.t) :=
  if (List.length (Train.route train) <? 2)%nat then Some (state, c, train)
  else
    let train1 := set_progress train (Train.progress train + Train.speed train * gameSpeed)%Q in
    if Qle_bool 1 (Train.progress train1) then
      let train2 := set_currentSegment (set_progress train1 0) (Train.currentSegment train1 + 1) in
      let '(state3, train3) :=
        if Z.of_nat (List.length (Train.route train2)) - 1 <=? Train.currentSegment train2 then
          let train' := set_currentSegment (set_route train2 (List.rev (Train.route train2))) 0 in
          let amount := baseRevenue (research state) train' in
          (creditState state amount, creditTrain train' amount)
        else (state, train2) in
      match index (Train.route train3) (Train.currentSegment train3) with
      | None => None
      | Some currentHex =>
          match get (stations state3) (hexKey currentHex) with
          | Some station =>
              if 0 <=? Station.cityIndex station then
                let deliveryRevenue := randomInt rnd c 200 + 50 in
                Some (creditState state3 deliveryRevenue, S c,
                      creditTrain train3 deliveryRevenue)
              else Some (state3, c, train3)
          | None => Some (state3, c, train3)
          end
      end
    else Some (state, c, train1).

Fixpoint moveTrains (rnd : Rand) (gameSpeed : Q) (state : GameState) (c : nat)
    (ts : list Train.t) : option (GameState * nat * list Train.t) :=
  match ts with
  | [] => Some (state, c, [])
  | train :: rest =>
      match moveTrain rnd gameSpeed state c train with
      | None => None
      | Some (state1, c1, train') =>
          match moveTrains rnd gameSpeed state1 c1 rest with
          | None => None
          | Some (state2, c2, rest') => Some (state2, c2, train' :: rest')
          end
      end
  end.

Definition speedMultipliers : list Z := [0; 1; 3; 8].

Definition updateTrains (rnd : Rand) (state : GameState) (delta : Q) (c : nat)
  : option (GameState * nat) :=
  let gameSpeed :=
    (inject_Z (orElse (index speedMultipliers (speedIndex (speed state))) 0) * delta)%Q in
  match moveTrains rnd gameSpeed state c (trains state) with
  | None => None
  | Some (state', c', trains') => Some (set_trains state' trains', c')
  end.

(** ** Monthly settlement and time *)

Definition stationFee (s : Station.t) : Z :=
  match Station.type s with
  | Station.terminal => 200
  | Station.station => 100
  | _ => 30
  end.

Definition trainMaintenance (e : TechTree.Era) (train : Train.t) : Z :=
  orElse (TRAIN_MAINTENANCE_BY_ERA (Train.type train) e) (Train.maintenanceCost train).

(** This month's maintenance, after the research discount. *)
Definition monthlyMaintenance (state : GameState) : Z :=
  let maintReduction := (1 - inject_Z (TechTree.getMaintenanceReduction (research state)) / 100)%Q in
  let total0 := size (tracks state) * TRACK_MAINTENANCE_BY_ERA (era state) in
  let total1 := List.fold_left (fun acc s => acc + stationFee s) (values (stations state)) total0 in
  let total2 := List.fold_left (fun acc t => acc + trainMaintenance (era state) t) (trains state) total1 in
  Qfloor (inject_Z total2 * maintReduction).

Definition growCity (city : Terrain.CityData) : Terrain.CityData :=
  if Terrain.hasStation city then
    Terrain.Build_CityData (Terrain.hex city) (Terrain.name city)
      (Qfloor (inject_Z (Terrain.population city) * (1 + Terrain.growth city)))
      (Terrain.demand city) (Terrain.supply city) (Terrain.hasStation city)
      (Terrain.growth city)
  else city.

Definition addResearchPoints (rs : TechTree.ResearchState) (rp : Z)
  : TechTree.ResearchState :=
  TechTree.Build_ResearchState (TechTree.points rs + inject_Z rp)%Q rp
    (TechTree.unlocked rs) (TechTree.currentResearch rs) (TechTree.progress rs).

Definition updateEconomy (state : GameState) : GameState :=
  let totalMaintenance := monthlyMaintenance state in
  let state1 := set_monthlyExpenses state (monthlyExpenses state + totalMaintenance) in
  let rpFromStations := size (stations state1) * 10 in
  let rpFromIncome := Qfloor (inject_Z (monthlyIncome state1) * 0.02) in
  let rpGenerated := rpFromStations + rpFromIncome in
  let state2 := set_research state1 (addResearchPoints (research state1) rpGenerated) in
  let net := monthlyIncome state2 - monthlyExpenses state2 in
  let state3 := set_funds state2 (funds state2 + net) in
  let state4 := set_lastMonthIncome state3 (monthlyIncome state3) in
  let state5 := set_lastMonthExpenses state4 (monthlyExpenses state4) in
  let state6 := set_monthlyIncome state5 0 in
  let state7 := set_monthlyExpenses state6 0 in
  set_map state7
    (set_cities (map state7) (List.map growCity (Terrain.cities (map state7)))).

(** The calendar part of [advanceTime]: everything before the settlement. *)
Definition advanceCalendar (state : GameState) : GameState :=
  let state1 := set_month state (month state + 1) in
  if 12 <=? month state1 then
    let state2 := set_year (set_month state1 0) (year state1 + 1) in
    if (1900 <=? year state2) && TechTree.eraEqb (era state2) TechTree.steam then
      addNotification (set_era state2 TechTree.diesel) "New Era!" warning
    else if (1950 <=? year state2) && TechTree.eraEqb (era state2) TechTree.diesel then
      addNotification (set_era state2 TechTree.electric) "New Era!" warning
    else if (2000 <=? year state2) && TechTree.eraEqb (era state2) TechTree.electric then
      addNotification (set_era state2 TechTree.maglev) "New Era!" warning
    else state2
  else state1.

Definition advanceTime (state : GameState) : GameState :=
  updateEconomy (advanceCalendar state).

(** ** Display helpers *)

(** [getMonthName]: an array lookup, [None] (undefined) outside 0..11. *)
Definition getMonthName (monthIndex : Z) : option string :=
  index [ "Jan"; "Feb"; "Mar"; "Apr"; "May"; "Jun";
          "Jul"; "Aug"; "Sep"; "Oct"; "Nov"; "Dec" ]%string monthIndex.

Definition getEraLabel (e : TechTree.Era) : string :=
  match e with
  | TechTree.steam => "Steam Era"
  | TechTree.diesel => "Diesel Era"
  | TechTree.electric => "Electric Era"
  | TechTree.maglev => "Maglev Era"
  end.

End Engine.

(* ================================================================== *)
(** * Facts about the collections *)
(* ================================================================== *)

Module JsFacts.
Import Js.

Section MapFacts.
Context {V : Type}.
Implicit Types (m : JsMap V) (k : string) (v : V).

Lemma get_set_same m k v : get (set m k v) k = Some v.
Proof.
  induction m as [|[k' v'] rest IH]; simpl.
  - now rewrite String.eqb_refl.
  - destruct (String.eqb k' k) eqn:E; simpl.
    + now rewrite String.eqb_refl.
    + now rewrite E.
Qed.

Lemma get_set_other m k k' v : k <> k' -> get (set m k v) k' = get m k'.
Proof.
  intros Hne. induction m as [|[k0 v0] rest IH]; simpl.
  - destruct (String.eqb k k') eqn:E; [apply String.eqb_eq in E; contradiction | reflexivity].
  - destruct (String.eqb k0 k) eqn:E; simpl.
    + apply String.eqb_eq in E. subst k0.
      destruct (String.eqb k k') eqn:E'; [apply String.eqb_eq in E'; contradiction | reflexivity].
    + now rewrite IH.
Qed.

Lemma has_set_same m k v : has (set m k v) k = true.
Proof. unfold has. now rewrite get_set_same. Qed.

Lemma has_set_other m k k' v : k <> k' -> has (set m k v) k' = has m k'.
Proof. intros. unfold has. now rewrite get_set_other. Qed.

Lemma has_true_iff m k : has m k = true <-> exists v, get m k = Some v.
Proof.
  unfold has. destruct (get m k) as [v|]; split; intros H; try discriminate; eauto.
  now destruct H.
Qed.

Lemma has_false_iff m k : has m k = false <-> get m k = None.
Proof. unfold has. destruct (get m k); split; congruence. Qed.

Lemma get_In m k v : get m k = Some v -> In (k, v) m.
Proof.
  induction m as [|[k' v'] rest IH]; simpl; [discriminate|].
  destruct (String.eqb k' k) eqn:E.
  - apply String.eqb_eq in E. intros [= ->]. left. now subst.
  - intros H. right. auto.
Qed.

Lemma In_has m k v : In (k, v) m -> has m k = true.
Proof.
  induction m as [|[k' v'] rest IH]; simpl; [tauto|].
  unfold has in *. simpl. intros [[= -> ->]|H].
  - now rewrite String.eqb_refl.
  - destruct (String.eqb k' k); [reflexivity | auto].
Qed.

Lemma has_keys m k : has m k = true <-> In k (keys m).
Proof.
  split.
  - intros H. apply has_true_iff in H as [v H]. apply get_In in H.
    unfold keys. change k with (fst (k, v)). now apply in_map.
  - unfold keys. intros H. apply in_map_iff in H as [[k' v] [<- H]].
    eapply In_has; eauto.
Qed.

(** A new key grows the map by one entry; an old key keeps its size. *)
Lemma length_set m k v :
  List.length (set m k v) = if has m k then List.length m else S (List.length m).
Proof.
  induction m as [|[k' v'] rest IH]; simpl; [reflexivity|].
  unfold has in *. simpl. destruct (String.eqb k' k); simpl; [reflexivity|].
  rewrite IH. now destruct (get rest k).
Qed.

Lemma keys_set_new m k v : has m k = false -> keys (set m k v) = keys m ++ [k].
Proof.
  unfold has, keys. induction m as [|[k' v'] rest IH]; simpl; [reflexivity|].
  destruct (String.eqb k' k); [discriminate|]. intros H. simpl. now rewrite IH.
Qed.

Lemma keys_set_old m k v : has m k = true -> keys (set m k v) = keys m.
Proof.
  unfold has, keys. induction m as [|[k' v'] rest IH]; simpl; [discriminate|].
  destruct (String.eqb k' k) eqn:E; simpl.
  - apply String.eqb_eq in E. now subst.
  - intros H. now rewrite IH.
Qed.

End MapFacts.

Lemma setHas_In s k : setHas s k = true <-> In k s.
Proof.
  unfold setHas. rewrite existsb_exists. split.
  - intros [x [Hin E]]. apply String.eqb_eq in E. now subst.
  - intros H. exists k. split; [assumption | apply String.eqb_refl].
Qed.

Lemma setAdd_In s k x : In x (setAdd s k) <-> In x s \/ x = k.
Proof.
  unfold setAdd. destruct (setHas s k) eqn:E.
  - apply setHas_In in E. split; [tauto | intros [H | ->]; assumption].
  - rewrite in_app_iff. simpl. split; intros [H | H]; auto.
    + destruct H as [H|[]]; auto.
Qed.

End JsFacts.

(* ================================================================== *)
(** * Facts about the random source *)
(* ================================================================== *)

Module RandomFacts.
Import Random.

Lemma zeroRnd_unit : unit_rnd zeroRnd.
Proof. intros c. split; [discriminate | reflexivity]. Qed.

Lemma halfRnd_unit : unit_rnd halfRnd.
Proof. intros c. split; [discriminate | reflexivity]. Qed.

(** A draw scaled to [n] and floored is an index below [n]. *)
Lemma randomInt_range rnd c n :
  unit_rnd rnd -> 0 < n -> 0 <= randomInt rnd c n < n.
Proof.
  intros Hrnd Hn. destruct (Hrnd c) as [H0 H1]. unfold randomInt. split.
  - change 0 with (Qfloor 0). apply Qfloor_resp_le.
    apply Qmult_le_0_compat; [assumption|]. change 0%Q with (inject_Z 0).
    rewrite <- Zle_Qle. lia.
  - rewrite Zlt_Qlt. apply Qle_lt_trans with (rnd c * inject_Z n)%Q; [apply Qfloor_le|].
    apply Qlt_le_trans with (1 * inject_Z n)%Q.
    + apply Qmult_lt_compat_r; [|assumption]. change 0%Q with (inject_Z 0).
      now rewrite <- Zlt_Qlt.
    + rewrite Qmult_1_l. apply Qle_refl.
Qed.

End RandomFacts.

(* ================================================================== *)
(** * Facts about hex keys *)
(* ================================================================== *)

Module HexFacts.
Import Js Hex.

Fixpoint contains (c : ascii) (s : string) : bool :=
  match s with
  | EmptyString => false
  | String a rest => Ascii.eqb a c || contains c rest
  end.

Lemma uint_no_comma d : contains comma (NilEmpty.string_of_uint d) = false.
Proof. induction d; simpl; auto. Qed.

Lemma numberToString_no_comma z : contains comma (numberToString z) = false.
Proof.
  unfold numberToString. destruct (Z.to_int z) as [d|d]; simpl.
  - destruct d; simpl; auto using uint_no_comma.
  - destruct d; simpl; auto using uint_no_comma.
Qed.

Lemma Number_numberToString z : Number (numberToString z) = Some z.
Proof.
  unfold Number, numberToString.
  rewrite NilZero.isi.
  - simpl. now rewrite DecimalZ.of_to.
  - destruct z; simpl; try discriminate.
    intros [= H]. now apply DecimalPos.Unsigned.to_uint_nonnil in H.
  - destruct z; simpl; try discriminate.
    intros [= H]. now apply DecimalPos.Unsigned.to_uint_nonnil in H.
Qed.

Lemma split_no_comma s : contains comma s = false -> split comma s = [s].
Proof.
  induction s as [|a s IH]; simpl; [reflexivity|].
  intros H. apply orb_false_iff in H as [Ha Hs].
  rewrite Ha, (IH Hs). reflexivity.
Qed.

Lemma split_at_comma s1 s2 :
  contains comma s1 = false ->
  split comma (s1 ++ String comma s2) = s1 :: split comma s2.
Proof.
  induction s1 as [|a s1 IH]; simpl.
  - intros _. reflexivity.
  - intros H. apply orb_false_iff in H as [Ha Hs].
    rewrite Ha, (IH Hs). reflexivity.
Qed.

(** Parsing a key gives back the hex it was printed from. *)
Lemma parseHexKey_hexKey h : parseHexKey (hexKey h) = Some h.
Proof.
  unfold parseHexKey, hexKey.
  rewrite split_at_comma by apply numberToString_no_comma.
  rewrite split_no_comma by apply numberToString_no_comma.
  simpl. rewrite !Number_numberToString. now destruct h.
Qed.

Lemma hexKey_inj a b : hexKey a = hexKey b -> a = b.
Proof.
  intros H. pose proof (parseHexKey_hexKey a) as Ha.
  rewrite H, parseHexKey_hexKey in Ha. congruence.
Qed.

Lemma hexKey_eqb a b : String.eqb (hexKey a) (hexKey b) = true <-> a = b.
Proof.
  rewrite String.eqb_eq. split; [apply hexKey_inj | now intros ->].
Qed.

Lemma hexKey_nonempty h : hexKey h <> EmptyString.
Proof.
  intros H. pose proof (parseHexKey_hexKey h) as P. rewrite H in P. discriminate.
Qed.

(** The sum under the division of [hexDistance] is even. *)
Lemma abs_sum_even x y : exists k, Z.abs x + Z.abs (x + y) + Z.abs y = 2 * k.
Proof.
  destruct (Z.abs_spec x) as [[? ->]|[? ->]],
           (Z.abs_spec (x + y)) as [[? ->]|[? ->]],
           (Z.abs_spec y) as [[? ->]|[? ->]].
  all: first [ exists (x + y); lia | exists y; lia | exists x; lia
             | exists (- x); lia | exists (- y); lia | exists (- x - y); lia
             | exists 0; lia ].
Qed.

Lemma hexDistance_exact a b :
  2 * hexDistance a b =
  Z.abs (q a - q b) + Z.abs (q a + r a - q b - r b) + Z.abs (r a - r b).
Proof.
  unfold hexDistance.
  replace (q a + r a - q b - r b) with ((q a - q b) + (r a - r b)) by lia.
  destruct (abs_sum_even (q a - q b) (r a - r b)) as [k ->].
  rewrite (Z.mul_comm 2 k), Z.div_mul by lia. lia.
Qed.

Lemma hexDistance_sym a b : hexDistance a b = hexDistance b a.
Proof. pose proof (hexDistance_exact a b). pose proof (hexDistance_exact b a). lia. Qed.

End HexFacts.

(* ================================================================== *)
(** * Settlement, time and train retirement *)
(* ================================================================== *)

Module EconomyFacts.
Import Js Hex Engine.

(** The position of an era on the chain steam, diesel, electric, maglev. *)
Definition eraRank (e : TechTree.Era) : Z :=
  match e with
  | TechTree.steam => 0 | TechTree.diesel => 1
  | TechTree.electric => 2 | TechTree.maglev => 3
  end.

(** [n] months of simulated time. *)
Fixpoint advanceMonths (n : nat) (s : GameState) : GameState :=
  match n with
  | O => s
  | S n' => advanceMonths n' (advanceTime s)
  end.

Lemma findIndexFrom_first {A : Type} (p : A -> bool) (l : list A) (i : nat) (x : A) (base : Z) :
  nth_error l i = Some x -> p x = true ->
  (forall j y, (j < i)%nat -> nth_error l j = Some y -> p y = false) ->
  findIndexFrom p l base = base + Z.of_nat i.
Proof.
  revert i base. induction l as [|a l IH]; intros [|i] base Hn Hp Hfirst; simpl in *;
    try discriminate.
  - injection Hn as ->. rewrite Hp. lia.
  - assert (Ha : p a = false) by (apply (Hfirst 0%nat); [lia | reflexivity]).
    rewrite Ha, (IH i (base + 1)); auto; [lia|].
    intros j y Hj Hy. apply (Hfirst (S j) y); [lia | exact Hy].
Qed.

Lemma index_of_nat {A : Type} (l : list A) (i : nat) :
  index l (Z.of_nat i) = nth_error l i.
Proof.
  unfold index. destruct (Z.ltb_spec (Z.of_nat i) 0); [lia|]. now rewrite Nat2Z.id.
Qed.

Lemma funds_addNotification s ttl sev : funds (addNotification s ttl sev) = funds s.
Proof. reflexivity. Qed.

Lemma trains_addNotification s ttl sev : trains (addNotification s ttl sev) = trains s.
Proof. reflexivity. Qed.

Lemma era_updateEconomy s : era (updateEconomy s) = era s.
Proof. reflexivity. Qed.

Lemma year_updateEconomy s : year (updateEconomy s) = year s.
Proof. reflexivity. Qed.

(** One call moves the era by at most one place, and never backwards. *)
Lemma advanceCalendar_rank s :
  eraRank (era s) <= eraRank (era (advanceCalendar s)) <= eraRank (era s) + 1.
Proof.
  unfold advanceCalendar. cbn [month set_month].
  destruct (12 <=? month s + 1); [|simpl; lia].
  cbn [era year set_year set_month].
  destruct (era s) eqn:He; cbn [TechTree.eraEqb andb];
    rewrite ?andb_false_r, ?andb_true_r;
    repeat match goal with |- context [if ?b then _ else _] => destruct b end;
    simpl; rewrite ?He; simpl; lia.
Qed.

Lemma advanceMonths_rank n s : eraRank (era s) <= eraRank (era (advanceMonths n s)).
Proof.
  revert s. induction n as [|n IH]; intros s; simpl; [lia|].
  specialize (IH (advanceTime s)).
  assert (E : era (advanceTime s) = era (advanceCalendar s)) by reflexivity.
  rewrite E in IH. pose proof (advanceCalendar_rank s). lia.
Qed.

(** The settlement ends with both monthly accumulators at 0. *)
Lemma updateEconomy_resets s :
  monthlyIncome (updateEconomy s) = 0 /\ monthlyExpenses (updateEconomy s) = 0.
Proof. split; reflexivity. Qed.

(** C5. Every call of updateEconomy leaves both monthly accumulators at
    exactly 0; lastMonthIncome and lastMonthExpenses hold the values the
    accumulators had just before the reset, the expenses with this month's
    maintenance included; and funds change, in that one step, by exactly
    that income minus those expenses. *)
Theorem updateEconomy_settles (s : GameState) :
  monthlyIncome (updateEconomy s) = 0 /\
  monthlyExpenses (updateEconomy s) = 0 /\
  lastMonthIncome (updateEconomy s) = monthlyIncome s /\
  lastMonthExpenses (updateEconomy s) = monthlyExpenses s + monthlyMaintenance s /\
  funds (updateEconomy s) =
    funds s + (monthlyIncome s - (monthlyExpenses s + monthlyMaintenance s)) /\
  funds (updateEconomy s) - funds s =
    lastMonthIncome (updateEconomy s) - lastMonthExpenses (updateEconomy s).
Proof.
  unfold updateEconomy; cbn -[monthlyMaintenance Qfloor].
  repeat split; lia.
Qed.

(** C6. An advanceTime call changes the era only on a month-to-year
    wraparound, by one step of steam, diesel, electric, maglev: steam
    becomes diesel only in a year from 1900 on, diesel becomes electric
    only from 1950 on, electric becomes maglev only from 2000 on. The era
    moves at most one place per call and never backwards, over any number
    of months, and every call, wraparound or not, ends with the monthly
    settlement updateEconomy. *)
Theorem advanceTime_era (s : GameState) :
  advanceTime s = updateEconomy (advanceCalendar s) /\
  monthlyIncome (advanceTime s) = 0 /\
  monthlyExpenses (advanceTime s) = 0 /\
  (era (advanceTime s) = era s \/
   (12 <= month s + 1 /\ year (advanceTime s) = year s + 1 /\
    ((era s = TechTree.steam /\ era (advanceTime s) = TechTree.diesel /\
      1900 <= year (advanceTime s)) \/
     (era s = TechTree.diesel /\ era (advanceTime s) = TechTree.electric /\
      1950 <= year (advanceTime s)) \/
     (era s = TechTree.electric /\ era (advanceTime s) = TechTree.maglev /\
      2000 <= year (advanceTime s))))) /\
  eraRank (era s) <= eraRank (era (advanceTime s)) <= eraRank (era s) + 1 /\
  (forall n, eraRank (era s) <= eraRank (era (advanceMonths n s))).
Proof.
  split; [reflexivity|].
  pose proof (updateEconomy_resets (advanceCalendar s)) as [H1 H2].
  split; [exact H1|].
  split; [exact H2|].
  clear H1 H2.
  split; [|split; [unfold advanceTime; rewrite era_updateEconomy; apply advanceCalendar_rank
                  | intros n; apply advanceMonths_rank]].
  unfold advanceTime. rewrite era_updateEconomy, year_updateEconomy.
  unfold advanceCalendar. cbn [month set_month].
  destruct (12 <=? month s + 1) eqn:Hwrap; [|left; reflexivity].
  apply Z.leb_le in Hwrap.
  cbn [era year set_year set_month].
  destruct (era s) eqn:He; cbn [TechTree.eraEqb andb];
    rewrite ?andb_false_r, ?andb_true_r.
  - destruct (1900 <=? year s + 1) eqn:Hy; [|left; cbn; congruence].
    apply Z.leb_le in Hy. right. cbn. auto 10.
  - destruct (1950 <=? year s + 1) eqn:Hy; [|left; cbn; congruence].
    apply Z.leb_le in Hy. right. cbn. auto 10.
  - destruct (2000 <=? year s + 1) eqn:Hy; [|left; cbn; congruence].
    apply Z.leb_le in Hy. right. cbn. auto 10.
  - left. cbn. congruence.
Qed.

(** C4. Retiring an existing train removes it from the train list and
    refunds exactly floor(0.25 * legacyCost), the legacy cost taken from a
    table that holds only freight, passenger, mixed, luxury and mail; a
    train of type express, commuter, bullet or hyperloop falls back to the
    base 5000, so its refund is 1250. *)
Theorem removeTrain_refund (s : GameState) (i : nat) (t : Train.t) :
  nth_error (trains s) i = Some t ->
  (forall j t', (j < i)%nat -> nth_error (trains s) j = Some t' ->
                Train.id t' <> Train.id t) ->
  snd (removeTrain s (Train.id t)) = true /\
  trains (fst (removeTrain s (Train.id t))) =
    List.firstn i (trains s) ++ List.skipn (S i) (trains s) /\
  funds (fst (removeTrain s (Train.id t))) =
    funds s + Qfloor (0.25 * inject_Z (orElse (legacyCost (Train.type t)) 5000)) /\
  (forall k, legacyCost k <> None <->
             In k [Train.freight; Train.passenger; Train.mixed; Train.luxury; Train.mail]) /\
  (In (Train.type t) [Train.express; Train.commuter; Train.bullet; Train.hyperloop] ->
   funds (fst (removeTrain s (Train.id t))) = funds s + 1250).
Proof.
  intros Hnth Hfirst.
  assert (Hidx : findIndex (fun t0 => Train.id t0 =? Train.id t) (trains s) = Z.of_nat i).
  { unfold findIndex. rewrite (findIndexFrom_first _ _ i t 0 Hnth); [lia | apply Z.eqb_refl |].
    intros j y Hj Hy. apply Z.eqb_neq. eauto. }
  unfold removeTrain. rewrite Hidx.
  destruct (Z.eqb_spec (Z.of_nat i) (-1)); [lia|].
  rewrite index_of_nat, Hnth.
  cbn [fst snd]. rewrite funds_addNotification, trains_addNotification.
  cbn [funds trains set_funds set_trains]. unfold removeAt. rewrite Nat2Z.id.
  split; [reflexivity|]. split; [reflexivity|]. split.
  - f_equal. apply Qfloor_comp. ring.
  - split.
    + intros k. destruct k; simpl; split; intros H; try congruence; try tauto;
        try (exfalso; apply H; reflexivity);
        repeat (destruct H as [H|H]; try discriminate); try contradiction.
    + intros Hin. f_equal.
      simpl in Hin. destruct Hin as [H|[H|[H|[H|[]]]]]; rewrite <- H; reflexivity.
Qed.

(** A state with one express train, retired for a refund of 1250. *)
Definition retireExample : GameState :=
  set_trains (createGameState (Terrain.Build_GameMap 1 1 [] [] [] []))
    [ Train.Build_t 1 "Express 1" Train.express [] 0 0 0.4 80 [] 0 150 0x2E86C1 ].

Lemma removeTrain_refund_witness :
  funds (fst (removeTrain retireExample 1)) = 50000 + 1250.
Proof.
  refine (proj2 (proj2 (proj2 (proj2
    (removeTrain_refund retireExample 0
       (Train.Build_t 1 "Express 1" Train.express [] 0 0 0.4 80 [] 0 150 0x2E86C1)
       eq_refl _)))) _).
  - intros j t' Hj. inversion Hj.
  - simpl. auto.
Defined.

End EconomyFacts.

(* ================================================================== *)
(** * Research checks *)
(* ================================================================== *)

Module TechTreeFacts.
Import Js TechTree.

Lemma Qltb_lt x y : Qltb x y = true <-> (x < y)%Q.
Proof.
  unfold Qltb. rewrite negb_true_iff. split.
  - intros H. apply Qnot_le_lt. intros Hle. apply Qle_bool_iff in Hle. congruence.
  - intros H. destruct (Qle_bool y x) eqn:E; [|reflexivity].
    apply Qle_bool_iff in E. exfalso. exact (Qlt_not_le _ _ H E).
Qed.

(** [firstMissing] is the first prerequisite, in the order of the list,
    that is not unlocked. *)
Lemma firstMissing_split state l1 p l2 :
  (forall x, In x l1 -> setHas (unlocked state) x = true) ->
  setHas (unlocked state) p = false ->
  firstMissing state (l1 ++ p :: l2) = Some p.
Proof.
  unfold firstMissing. induction l1 as [|a l1 IH]; simpl; intros Hl1 Hp.
  - now rewrite Hp.
  - rewrite (Hl1 a) by auto. simpl. apply IH; auto.
Qed.

Lemma firstMissing_none state prereqs :
  firstMissing state prereqs = None <->
  (forall x, In x prereqs -> setHas (unlocked state) x = true).
Proof.
  unfold firstMissing. split.
  - intros H x Hin. pose proof (find_none _ _ H x Hin) as Hx.
    now apply negb_false_iff in Hx.
  - intros H. induction prereqs as [|a l IH]; simpl; [reflexivity|].
    rewrite (H a) by (simpl; auto). simpl. apply IH. intros x Hx. apply H. simpl; auto.
Qed.

Lemma firstMissing_some state prereqs p :
  firstMissing state prereqs = Some p ->
  In p prereqs /\ setHas (unlocked state) p = false.
Proof.
  unfold firstMissing. intros H. apply find_some in H as [Hin Hp].
  now apply negb_true_iff in Hp.
Qed.

(** The name shown for a prerequisite: its display name, or the bare id
    when the catalog does not know it. *)
Definition shownName (prereq : string) : string :=
  match getTech prereq with
  | Some prereqTech => name prereqTech
  | None => prereq
  end.

(** The reading of the claim: the first technology of the catalog, in
    catalog order, that is a prerequisite of [tech] and is not unlocked. *)
Definition firstMissingByCatalog (state : ResearchState) (tech : Technology)
  : option Technology :=
  List.find
    (fun t => List.existsb (String.eqb (id t)) (prerequisites tech)
              && negb (setHas (unlocked state) (id t)))
    TECH_TREE.

(** C3, amended. canResearch returns ok=false exactly when the id is
    already unlocked, the id is unknown, some prerequisite is not in the
    unlocked set, or the points are below the cost. With prerequisites
    missing, the reason names the first missing one in the order of the
    technology's own prerequisites list, by its display name; with all
    prerequisites met and too few points, the reason reports the cost
    against the floored current points. *)
Theorem canResearch_cases (state : ResearchState) (techId : string) :
  (ok (canResearch state techId) = false <->
   setHas (unlocked state) techId = true \/
   getTech techId = None \/
   exists tech, getTech techId = Some tech /\
     ((exists p, In p (prerequisites tech) /\ setHas (unlocked state) p = false) \/
      (points state < inject_Z (cost tech))%Q)) /\
  (forall tech l1 p l2,
     setHas (unlocked state) techId = false ->
     getTech techId = Some tech ->
     prerequisites tech = l1 ++ p :: l2 ->
     (forall x, In x l1 -> setHas (unlocked state) x = true) ->
     setHas (unlocked state) p = false ->
     canResearch state techId =
       {| ok := false; reason := Some ("Requires: " ++ shownName p)%string |}) /\
  (forall tech,
     setHas (unlocked state) techId = false ->
     getTech techId = Some tech ->
     (forall x, In x (prerequisites tech) -> setHas (unlocked state) x = true) ->
     (points state < inject_Z (cost tech))%Q ->
     canResearch state techId =
       {| ok := false;
          reason := Some ("Need " ++ Hex.numberToString (cost tech) ++ " RP (have "
                          ++ Hex.numberToString (Qfloor (points state)) ++ ")")%string |}).
Proof.
  split; [|split].
  - unfold canResearch.
    destruct (setHas (unlocked state) techId) eqn:Hu; [simpl; tauto|].
    destruct (getTech techId) as [tech|] eqn:Ht; [|simpl; tauto].
    destruct (firstMissing state (prerequisites tech)) as [p|] eqn:Hm.
    + simpl. split; [|reflexivity]. intros _. right; right.
      exists tech. split; [reflexivity|]. left. exists p.
      now apply firstMissing_some.
    + destruct (Qltb (points state) (inject_Z (cost tech))) eqn:Hp; simpl.
      * split; [|reflexivity]. intros _. right; right. exists tech.
        split; [reflexivity|]. right. now apply Qltb_lt.
      * split; [discriminate|].
        intros [H|[H|[tech' [[= <-] [[p [Hin Hp']]|Hlt]]]]]; try discriminate.
        -- rewrite (proj1 (firstMissing_none _ _) Hm p Hin) in Hp'. discriminate.
        -- apply Qltb_lt in Hlt. congruence.
  - intros tech l1 p l2 Hu Ht Hsplit Hl1 Hp.
    unfold canResearch. rewrite Hu, Ht, Hsplit, (firstMissing_split _ _ _ _ Hl1 Hp).
    reflexivity.
  - intros tech Hu Ht Hall Hlt.
    unfold canResearch. rewrite Hu, Ht, (proj2 (firstMissing_none _ _) Hall).
    apply Qltb_lt in Hlt. rewrite Hlt. reflexivity.
Qed.

(** With nothing but the baseline unlocked, luxury carriages report their
    first listed prerequisite, the diesel engine. *)
Lemma canResearch_cases_witness :
  canResearch createResearchState "luxury_carriages" =
    {| ok := false; reason := Some "Requires: Diesel Engine"%string |}.
Proof.
  refine (proj1 (proj2 (canResearch_cases createResearchState "luxury_carriages"))
            (Build_Technology "luxury_carriages" "Luxury Carriages" diesel 2000
               ["diesel_engine"; "passenger_carriages"]%string
               [ {| etype := unlock_train; value := Str "luxury" |} ])
            [] "diesel_engine"%string ["passenger_carriages"%string] _ _ _ _ _).
  - reflexivity.
  - reflexivity.
  - reflexivity.
  - intros x [].
  - reflexivity.
Defined.

(** C3 as stated fails: for luxury carriages with only the baseline
    unlocked, the first missing prerequisite in catalog order is Passenger
    Carriages, and the reported reason names Diesel Engine. *)
Lemma canResearch_not_catalog_order :
  match getTech "luxury_carriages" with
  | Some tech => option_map name (firstMissingByCatalog createResearchState tech)
  | None => None
  end = Some "Passenger Carriages"%string /\
  reason (canResearch createResearchState "luxury_carriages")
  = Some "Requires: Diesel Engine"%string /\
  reason (canResearch createResearchState "luxury_carriages")
  <> Some "Requires: Passenger Carriages"%string.
Proof.
  split; [reflexivity|]. split; [reflexivity|]. discriminate.
Qed.

End TechTreeFacts.

(* ================================================================== *)
(** * Track and station construction *)
(* ================================================================== *)

Module ConstructionFacts.
Import Js Hex Engine JsFacts HexFacts.

Lemma ltb_antisym a b : String.ltb a b = true -> String.ltb b a = false.
Proof.
  unfold String.ltb. rewrite (String.compare_antisym a b).
  destruct (String.compare b a); simpl; congruence.
Qed.

Lemma ltb_total a b : String.ltb a b = false -> String.ltb b a = false -> a = b.
Proof.
  unfold String.ltb. rewrite (String.compare_antisym a b).
  destruct (String.compare b a) eqn:E; simpl; try congruence.
  intros _ _. apply String.compare_eq_iff in E. now subst.
Qed.

(** The key of a segment does not depend on its direction. *)
Lemma trackKey_sym a b : trackKey a b = trackKey b a.
Proof.
  unfold trackKey.
  destruct (String.ltb (hexKey a) (hexKey b)) eqn:E1.
  - now rewrite (ltb_antisym _ _ E1).
  - destruct (String.ltb (hexKey b) (hexKey a)) eqn:E2; [reflexivity|].
    now rewrite (ltb_total _ _ E1 E2).
Qed.

Lemma tracks_revealAround s c rad : tracks (revealAround s c rad) = tracks s.
Proof. reflexivity. Qed.

Lemma funds_revealAround s c rad : funds (revealAround s c rad) = funds s.
Proof. reflexivity. Qed.

Lemma terrain_revealAround s c rad :
  Terrain.terrain (map (revealAround s c rad)) = Terrain.terrain (map s).
Proof. reflexivity. Qed.

(** A failed check leaves the state as it was. *)
Lemma buildTrack_rejected s a b :
  ok (canBuildTrack s a b) = false -> buildTrack s a b = (s, false).
Proof. unfold buildTrack. now intros ->. Qed.

(** The state after a successful build, observed field by field. *)
Lemma buildTrack_accepted s a b c :
  canBuildTrack s a b = accept c ->
  snd (buildTrack s a b) = true /\
  funds (fst (buildTrack s a b)) = funds s - c /\
  has (tracks (fst (buildTrack s a b))) (trackKey a b) = true /\
  Terrain.terrain (map (fst (buildTrack s a b))) = Terrain.terrain (map s).
Proof.
  intros H. unfold buildTrack. rewrite H. cbn [ok accept negb fst snd cost].
  rewrite funds_revealAround, tracks_revealAround, terrain_revealAround.
  cbn [funds tracks map set_funds set_tracks].
  rewrite has_set_same. auto.
Qed.

(** Only Water has an infinite cost multiplier, so the branch of
    [canBuildTrack] for it is never taken: Water is refused before. *)
Lemma infinite_cost_only_water t :
  Terrain.trackCostMultiplier (Terrain.TERRAIN_DATA t) = None <-> t = Terrain.Water.
Proof. destruct t; simpl; split; congruence. Qed.

(** Water is refused whatever the funds. *)
Lemma canBuildTrack_water s a b :
  get (Terrain.terrain (map s)) (hexKey b) = Some Terrain.Water ->
  ok (canBuildTrack s a b) = false.
Proof.
  intros H. unfold canBuildTrack. destruct (negb (hexDistance a b =? 1)); [reflexivity|].
  rewrite H. reflexivity.
Qed.

(** C7, amended. With funds 50000, a standard track onto a Plains
    destination costs floor(500 * 1.0) = 500 and leaves 49500. A second
    buildTrack on the same pair fails and leaves the funds at 49500: in the
    same direction with the reason Track already exists; in the opposite
    direction with that reason when the first source hex is on the map and
    not Water, with Cannot build on water when it is Water, and with Out of
    bounds when it is off the map. For every funds level, canBuildTrack
    with a Water destination is not ok. *)
Theorem buildTrack_twice (s : GameState) (from to : HexCoord) :
  (funds s = 50000 ->
   hexDistance from to = 1 ->
   get (Terrain.terrain (map s)) (hexKey to) = Some Terrain.Plains ->
   has (tracks s) (trackKey from to) = false ->
   let s1 := fst (buildTrack s from to) in
   canBuildTrack s from to = accept 500 /\
   snd (buildTrack s from to) = true /\
   funds s1 = 49500 /\
   canBuildTrack s1 from to = reject 0 "Track already exists" /\
   buildTrack s1 from to = (s1, false) /\
   ok (canBuildTrack s1 to from) = false /\
   buildTrack s1 to from = (s1, false) /\
   (forall t, get (Terrain.terrain (map s)) (hexKey from) = Some t ->
              t <> Terrain.Water ->
              canBuildTrack s1 to from = reject 0 "Track already exists") /\
   (get (Terrain.terrain (map s)) (hexKey from) = Some Terrain.Water ->
    canBuildTrack s1 to from = reject 0 "Cannot build on water") /\
   (get (Terrain.terrain (map s)) (hexKey from) = None ->
    canBuildTrack s1 to from = reject 0 "Out of bounds")) /\
  (forall s' a b,
     get (Terrain.terrain (map s')) (hexKey b) = Some Terrain.Water ->
     ok (canBuildTrack s' a b) = false).
Proof.
  split; [|intros s' a b; apply canBuildTrack_water].
  intros Hfunds Hdist Hterrain Hnew s1.
  assert (Hcheck : canBuildTrack s from to = accept 500).
  { unfold canBuildTrack. rewrite Hdist, Hterrain, Hnew, Hfunds. reflexivity. }
  destruct (buildTrack_accepted _ _ _ _ Hcheck) as (Hok & Hf & Hhas & Hterr).
  fold s1 in Hf, Hhas, Hterr.
  assert (Hsame : canBuildTrack s1 from to = reject 0 "Track already exists").
  { unfold canBuildTrack. rewrite Hdist, Hterr, Hterrain, Hhas. reflexivity. }
  assert (Hdist' : hexDistance to from = 1) by (now rewrite hexDistance_sym).
  assert (Hhas' : has (tracks s1) (trackKey to from) = true)
    by (now rewrite trackKey_sym).
  assert (Hrev : ok (canBuildTrack s1 to from) = false).
  { unfold canBuildTrack. rewrite Hdist', Hterr, Hhas'. cbn [negb Z.eqb].
    destruct (get (Terrain.terrain (map s)) (hexKey from)) as [t|]; [|reflexivity].
    destruct (Terrain.terrainEqb t Terrain.Water); reflexivity. }
  repeat split; auto.
  - lia.
  - apply buildTrack_rejected. now rewrite Hsame.
  - now apply buildTrack_rejected.
  - intros t Ht Hnw. unfold canBuildTrack. rewrite Hdist', Hterr, Ht, Hhas'.
    destruct t; try reflexivity. contradiction.
  - intros Ht. unfold canBuildTrack. rewrite Hdist', Hterr, Ht. reflexivity.
  - intros Ht. unfold canBuildTrack. rewrite Hdist', Hterr, Ht. reflexivity.
Qed.

(** Three tiles in a row: Water, Plains, Plains. *)
Definition shoreMap : Terrain.GameMap :=
  {| Terrain.width := 3; Terrain.height := 1;
     Terrain.terrain := [ ("0,0", Terrain.Water); ("1,0", Terrain.Plains);
                          ("2,0", Terrain.Plains) ]%string;
     Terrain.cities := []; Terrain.explored := []; Terrain.resources := [] |}.

Definition shore : GameState := createGameState shoreMap.

Lemma buildTrack_twice_witness :
  funds (fst (buildTrack shore {| q := 1; r := 0 |} {| q := 2; r := 0 |})) = 49500 /\
  canBuildTrack (fst (buildTrack shore {| q := 1; r := 0 |} {| q := 2; r := 0 |}))
                {| q := 2; r := 0 |} {| q := 1; r := 0 |}
  = reject 0 "Track already exists".
Proof.
  pose proof (proj1 (buildTrack_twice shore {| q := 1; r := 0 |} {| q := 2; r := 0 |})
                eq_refl eq_refl eq_refl eq_refl) as H.
  cbv zeta in H.
  destruct H as (_ & _ & Hf & _ & _ & _ & _ & Hrev & _).
  split; [exact Hf|].
  apply (Hrev Terrain.Plains); [reflexivity | discriminate].
Defined.

(** C7 as stated fails: a track built from a Water hex onto Plains is
    accepted (only the destination is checked); the second build of the
    same pair in the opposite direction is refused with Cannot build on
    water, not with Track already exists. *)
Lemma buildTrack_reverse_over_water :
  funds shore = 50000 /\
  canBuildTrack shore {| q := 0; r := 0 |} {| q := 1; r := 0 |} = accept 500 /\
  funds (fst (buildTrack shore {| q := 0; r := 0 |} {| q := 1; r := 0 |})) = 49500 /\
  trackKey {| q := 1; r := 0 |} {| q := 0; r := 0 |}
  = trackKey {| q := 0; r := 0 |} {| q := 1; r := 0 |} /\
  reason (canBuildTrack (fst (buildTrack shore {| q := 0; r := 0 |} {| q := 1; r := 0 |}))
                        {| q := 1; r := 0 |} {| q := 0; r := 0 |})
  = Some "Cannot build on water"%string /\
  reason (canBuildTrack (fst (buildTrack shore {| q := 0; r := 0 |} {| q := 1; r := 0 |}))
                        {| q := 1; r := 0 |} {| q := 0; r := 0 |})
  <> Some "Track already exists"%string.
Proof.
  repeat split; try reflexivity. vm_compute. discriminate.
Qed.

(** C8. With no station on the map, canBuildStation never fails for lack
    of track connectivity (its answer does not depend on the tracks at
    all); with at least one station, a hex that is an endpoint of no track
    segment is always refused. *)
Theorem canBuildStation_connectivity (s : GameState) (hex : HexCoord) :
  (size (stations s) = 0 ->
   reason (canBuildStation s hex) <> Some "Must connect to track network"%string /\
   forall tr, canBuildStation (set_tracks s tr) hex = canBuildStation s hex) /\
  (0 < size (stations s) ->
   (forall t, In t (values (tracks s)) ->
              TrackSegment.from t <> hex /\ TrackSegment.to t <> hex) ->
   ok (canBuildStation s hex) = false).
Proof.
  split.
  - intros Hsize. unfold canBuildStation. cbn [stations map funds set_tracks tracks].
    unfold cityAt. cbn [map set_tracks].
    rewrite Hsize. cbn [Z.ltb Z.compare andb].
    destruct (has (stations s) (hexKey hex)); [split; [discriminate | reflexivity]|].
    destruct (negb _); [split; [discriminate | reflexivity]|].
    destruct (funds s <? _); split; try discriminate; reflexivity.
  - intros Hsize Hfree. unfold canBuildStation.
    destruct (has (stations s) (hexKey hex)); [reflexivity|].
    destruct (negb _); [reflexivity|].
    destruct (funds s <? _); [reflexivity|].
    assert (Hno : List.existsb
                    (fun t => String.eqb (hexKey (TrackSegment.from t)) (hexKey hex)
                              || String.eqb (hexKey (TrackSegment.to t)) (hexKey hex))
                    (values (tracks s)) = false).
    { apply not_true_is_false. intros H. apply existsb_exists in H as [t [Hin Ht]].
      destruct (Hfree t Hin) as [Hf Ht'].
      apply orb_true_iff in Ht as [E|E]; apply hexKey_eqb in E; contradiction. }
    rewrite Hno. apply Z.ltb_lt in Hsize. rewrite Hsize. reflexivity.
Qed.

(** A map with one station and no track: a second station is refused. *)
Definition oneStation : GameState :=
  fst (buildStation shore {| q := 1; r := 0 |}).

Lemma canBuildStation_connectivity_witness :
  ok (canBuildStation oneStation {| q := 2; r := 0 |}) = false.
Proof.
  refine (proj2 (canBuildStation_connectivity oneStation {| q := 2; r := 0 |}) _ _).
  - reflexivity.
  - intros t [].
Defined.

End ConstructionFacts.

(* ================================================================== *)
(** * Train movement and revenue *)
(* ================================================================== *)

Module TrainFacts.
Import Js Hex Random Engine JsFacts RandomFacts.

(** The game speed that [updateTrains] derives from the state and the
    elapsed time. *)
Definition gameSpeedOf (s : GameState) (delta : Q) : Q :=
  (inject_Z (orElse (index speedMultipliers (speedIndex (speed s))) 0) * delta)%Q.

(** The train moves this tick: it has a route, and its progress reaches 1. *)
Definition crosses (gs : Q) (t : Train.t) : bool :=
  (2 <=? List.length (Train.route t))%nat
  && Qle_bool 1 (Train.progress t + Train.speed t * gs).

(** The crossing takes the train past the last edge of its route. *)
Definition completesLeg (gs : Q) (t : Train.t) : bool :=
  crosses gs t
  && (Z.of_nat (List.length (Train.route t)) - 1 <=? Train.currentSegment t + 1).

(** The invariant of a train on a route: position and speed. *)
Definition trainInv (t : Train.t) : Prop :=
  (0 <= Train.progress t)%Q /\ (Train.progress t < 1)%Q /\
  0 <= Train.currentSegment t <= Z.of_nat (List.length (Train.route t)) - 2 /\
  (0 <= Train.speed t)%Q.

Definition routed (t : Train.t) : Prop := (2 <= List.length (Train.route t))%nat.

(** What one tick does to one train, and to the accumulators with it. *)
Record Moved (rnd : Rand) (gs : Q) (s : GameState) (c : nat) (t : Train.t)
    (s' : GameState) (c' : nat) (t' : Train.t) (bonus : Z) : Prop := {
  mv_bonus : (bonus = 0 /\ c' = c) \/
             (crosses gs t = true /\ bonus = randomInt rnd c 200 + 50 /\ c' = S c);
  mv_revenue : Train.revenue t' =
               Train.revenue t
               + (if completesLeg gs t then baseRevenue (research s) t else 0) + bonus;
  mv_income : monthlyIncome s' =
              monthlyIncome s
              + (if completesLeg gs t then baseRevenue (research s) t else 0) + bonus;
  mv_total : totalRevenue s' =
             totalRevenue s
             + (if completesLeg gs t then baseRevenue (research s) t else 0) + bonus;
  mv_route : Train.route t' =
             if completesLeg gs t then List.rev (Train.route t) else Train.route t;
  mv_segment : Train.currentSegment t' =
               if completesLeg gs t then 0
               else if crosses gs t then Train.currentSegment t + 1
               else Train.currentSegment t;
  mv_progress : Train.progress t' =
                if crosses gs t then 0%Q
                else if (2 <=? List.length (Train.route t))%nat
                     then (Train.progress t + Train.speed t * gs)%Q
                     else Train.progress t;
  mv_speed : Train.speed t' = Train.speed t;
  mv_type : Train.type t' = Train.type t;
  mv_research : research s' = research s;
  mv_stations : stations s' = stations s;
  mv_speedLevel : speed s' = speed s
}.

Arguments mv_bonus {rnd gs s c t s' c' t' bonus} _.
Arguments mv_revenue {rnd gs s c t s' c' t' bonus} _.
Arguments mv_income {rnd gs s c t s' c' t' bonus} _.
Arguments mv_total {rnd gs s c t s' c' t' bonus} _.
Arguments mv_route {rnd gs s c t s' c' t' bonus} _.
Arguments mv_segment {rnd gs s c t s' c' t' bonus} _.
Arguments mv_progress {rnd gs s c t s' c' t' bonus} _.
Arguments mv_speed {rnd gs s c t s' c' t' bonus} _.
Arguments mv_type {rnd gs s c t s' c' t' bonus} _.
Arguments mv_research {rnd gs s c t s' c' t' bonus} _.
Arguments mv_stations {rnd gs s c t s' c' t' bonus} _.
Arguments mv_speedLevel {rnd gs s c t s' c' t' bonus} _.

Lemma leb_ltb_nat a b : (a <=? b)%nat = negb (b <? a)%nat.
Proof.
  destruct (Nat.leb_spec a b), (Nat.ltb_spec b a); simpl; try reflexivity; lia.
Qed.

(** Every result of the loop body is a move as described by [Moved]. *)
Lemma moveTrain_moved rnd gs s c t s' c' t' :
  moveTrain rnd gs s c t = Some (s', c', t') ->
  exists bonus, Moved rnd gs s c t s' c' t' bonus.
Proof.
  unfold moveTrain.
  destruct (List.length (Train.route t) <? 2)%nat eqn:Hlen.
  { intros [= <- <- <-]. exists 0. constructor; unfold completesLeg, crosses;
      rewrite ?(leb_ltb_nat 2), ?Hlen; cbn; auto; lia. }
  cbn [Train.progress Train.route Train.currentSegment Train.speed set_progress set_currentSegment].
  destruct (Qle_bool 1 (Train.progress t + Train.speed t * gs)) eqn:Hcross.
  2:{ intros [= <- <- <-]. exists 0. constructor; unfold completesLeg, crosses;
        rewrite ?(leb_ltb_nat 2), ?Hlen, ?Hcross; cbn; auto; lia. }
  destruct (Z.of_nat (List.length (Train.route t)) - 1 <=? Train.currentSegment t + 1) eqn:Hleg.
  - (* the last edge: reverse, reset, credit *)
    match goal with
    | |- context [baseRevenue ?rs ?tr] =>
        assert (Hamount : baseRevenue rs tr = baseRevenue (research s) t)
    end.
    { unfold baseRevenue. cbn. now rewrite length_rev. }
    rewrite Hamount.
    destruct (index _ _) as [currentHex|]; [|discriminate].
    cbn [stations creditState set_totalRevenue set_monthlyIncome].
    destruct (get (stations s) (hexKey currentHex)) as [st|];
      [destruct (0 <=? Station.cityIndex st)|];
      intros [= <- <- <-];
      [exists (randomInt rnd c 200 + 50) | exists 0 | exists 0];
      (constructor; unfold completesLeg, crosses;
       rewrite ?(leb_ltb_nat 2), ?Hlen, ?Hcross, ?Hleg; cbn; auto; try lia).
  - (* an inner edge *)
    destruct (index _ _) as [currentHex|]; [|discriminate].
    destruct (get (stations s) (hexKey currentHex)) as [st|];
      [destruct (0 <=? Station.cityIndex st)|];
      intros [= <- <- <-];
      [exists (randomInt rnd c 200 + 50) | exists 0 | exists 0];
      (constructor; unfold completesLeg, crosses;
       rewrite ?(leb_ltb_nat 2), ?Hlen, ?Hcross, ?Hleg; cbn; auto; try lia).
Qed.

(** With its segment inside the route, the loop body returns. *)
Lemma moveTrain_total rnd gs s c t :
  (routed t -> 0 <= Train.currentSegment t <= Z.of_nat (List.length (Train.route t)) - 2) ->
  exists s' c' t', moveTrain rnd gs s c t = Some (s', c', t').
Proof.
  intros Hseg. unfold moveTrain.
  destruct (Nat.ltb_spec (List.length (Train.route t)) 2) as [Hlen|Hlen]; [eauto|].
  specialize (Hseg Hlen).
  cbn [Train.progress Train.route Train.currentSegment Train.speed set_progress set_currentSegment].
  destruct (Qle_bool 1 (Train.progress t + Train.speed t * gs)); [|eauto].
  destruct (Z.leb_spec (Z.of_nat (List.length (Train.route t)) - 1) (Train.currentSegment t + 1))
    as [Hleg|Hleg].
  - cbn [Train.route Train.currentSegment set_route set_currentSegment creditTrain set_revenue].
    destruct (List.rev (Train.route t)) as [|h l] eqn:Hrev.
    { apply (f_equal (@List.length _)) in Hrev. rewrite length_rev in Hrev. simpl in Hrev. lia. }
    cbn [index Z.ltb Z.compare Z.to_nat nth_error].
    destruct (get _ _) as [st|]; [destruct (0 <=? Station.cityIndex st)|]; eauto.
  - cbn [Train.route Train.currentSegment set_route set_currentSegment set_progress].
    unfold index. destruct (Z.ltb_spec (Train.currentSegment t + 1) 0); [lia|].
    destruct (nth_error (Train.route t) (Z.to_nat (Train.currentSegment t + 1))) eqn:Hn.
    + destruct (get _ _) as [st|]; [destruct (0 <=? Station.cityIndex st)|]; eauto.
    + apply nth_error_None in Hn. lia.
Qed.

(** A move keeps the invariant, when time does not run backwards. *)
Lemma Moved_inv rnd gs s c t s' c' t' bonus :
  Moved rnd gs s c t s' c' t' bonus ->
  (0 <= gs)%Q -> routed t -> trainInv t ->
  trainInv t' /\ List.length (Train.route t') = List.length (Train.route t).
Proof.
  intros M Hgs Hrouted (Hp0 & Hp1 & Hseg & Hspeed).
  assert (Hlen : List.length (Train.route t') = List.length (Train.route t)).
  { rewrite (mv_route M). destruct (completesLeg gs t); [apply length_rev | reflexivity]. }
  split; [|exact Hlen]. unfold trainInv. rewrite Hlen.
  rewrite (mv_speed M), (mv_progress M),
          (mv_segment M).
  unfold routed in Hrouted. unfold completesLeg, crosses.
  destruct (Nat.leb_spec 2 (List.length (Train.route t))) as [_|]; [|lia].
  cbn [andb].
  destruct (Qle_bool 1 (Train.progress t + Train.speed t * gs)) eqn:Hcross; cbn [andb].
  - destruct (Z.leb_spec (Z.of_nat (List.length (Train.route t)) - 1) (Train.currentSegment t + 1)).
    + repeat split; try assumption; try lia; try apply Qle_refl; reflexivity.
    + repeat split; try assumption; try lia; try apply Qle_refl; reflexivity.
  - repeat split; try assumption; try lia.
    + apply Qle_trans with (Train.progress t + 0)%Q.
      * rewrite Qplus_0_r. exact Hp0.
      * apply Qplus_le_r. apply Qmult_le_0_compat; assumption.
    + apply Qnot_le_lt. intros Hle. apply Qle_bool_iff in Hle. congruence.
Qed.

(** A move advances the train by at most one segment: it stays on its
    segment, moves to the next one, or turns round at the end of the route;
    and a crossing resets the progress to exactly 0. *)
Definition oneSegment (gs : Q) (t t' : Train.t) : Prop :=
  (Train.currentSegment t' = Train.currentSegment t /\
   Train.route t' = Train.route t /\
   Train.progress t' = (Train.progress t + Train.speed t * gs)%Q) \/
  (Train.progress t' = 0%Q /\
   Train.currentSegment t' = Train.currentSegment t + 1 /\
   Train.route t' = Train.route t) \/
  (Train.progress t' = 0%Q /\
   Train.currentSegment t' = 0 /\
   Z.of_nat (List.length (Train.route t)) - 1 <= Train.currentSegment t + 1 /\
   Train.route t' = List.rev (Train.route t)).

Lemma Moved_oneSegment rnd gs s c t s' c' t' bonus :
  Moved rnd gs s c t s' c' t' bonus -> routed t -> oneSegment gs t t'.
Proof.
  intros M Hrouted. unfold oneSegment.
  rewrite (mv_route M), (mv_progress M),
          (mv_segment M).
  unfold routed in Hrouted. unfold completesLeg, crosses.
  destruct (Nat.leb_spec 2 (List.length (Train.route t))) as [_|]; [|lia].
  cbn [andb].
  destruct (Qle_bool 1 (Train.progress t + Train.speed t * gs)); cbn [andb]; [|auto].
  destruct (Z.leb_spec (Z.of_nat (List.length (Train.route t)) - 1) (Train.currentSegment t + 1));
    auto 10.
Qed.

Definition sumRevenue (ts : list Train.t) : Z :=
  List.fold_right (fun t acc => Train.revenue t + acc) 0 ts.

(** The loop over the trains: each train is moved once, in a state that
    holds the research, stations and speed of the initial one, and the
    accumulators grow by what the trains earned. *)
Lemma moveTrains_spec rnd gs ts :
  forall s c s' c' ts',
    moveTrains rnd gs s c ts = Some (s', c', ts') ->
    List.length ts' = List.length ts /\
    research s' = research s /\ stations s' = stations s /\ speed s' = speed s /\
    monthlyIncome s' - monthlyIncome s = sumRevenue ts' - sumRevenue ts /\
    totalRevenue s' - totalRevenue s = sumRevenue ts' - sumRevenue ts /\
    forall i t, nth_error ts i = Some t ->
      exists si ci si' ci' t' bonus,
        nth_error ts' i = Some t' /\ research si = research s /\
        Moved rnd gs si ci t si' ci' t' bonus.
Proof.
  induction ts as [|t0 rest IH]; intros s c s' c' ts'; simpl.
  - intros [= <- <- <-]. repeat split; try reflexivity; try (simpl; lia).
    intros [|i] t; discriminate.
  - destruct (moveTrain rnd gs s c t0) as [[[s1 c1] t0']|] eqn:H0; [|discriminate].
    destruct (moveTrains rnd gs s1 c1 rest) as [[[s2 c2] rest']|] eqn:Hrest; [|discriminate].
    intros [= <- <- <-].
    destruct (moveTrain_moved _ _ _ _ _ _ _ _ H0) as [bonus M].
    destruct (IH _ _ _ _ _ Hrest) as (Hl & Hr & Hst & Hsp & Hinc & Htot & Hnth).
    pose proof (mv_research M) as Mr.
    pose proof (mv_stations M) as Mst.
    pose proof (mv_speedLevel M) as Msp.
    pose proof (mv_income M) as Mi.
    pose proof (mv_total M) as Mt.
    pose proof (mv_revenue M) as Mrev.
    simpl.
    split; [congruence|]. split; [congruence|]. split; [congruence|].
    split; [congruence|]. split; [lia|]. split; [lia|].
    intros [|i] t Hi; simpl in Hi |- *.
    + injection Hi as <-. exists s, c, s1, c1, t0', bonus.
      split; [reflexivity|]. split; [reflexivity | exact M].
    + destruct (Hnth i t Hi) as (si & ci & si' & ci' & t' & b & H1 & H2 & H3).
      exists si, ci, si', ci', t', b.
      split; [exact H1|]. split; [congruence | exact H3].
Qed.

Lemma moveTrains_total rnd gs ts :
  forall s c,
    (forall t, In t ts -> routed t ->
               0 <= Train.currentSegment t <= Z.of_nat (List.length (Train.route t)) - 2) ->
    exists s' c' ts', moveTrains rnd gs s c ts = Some (s', c', ts').
Proof.
  induction ts as [|t0 rest IH]; intros s c Hall; simpl; [eauto|].
  destruct (moveTrain_total rnd gs s c t0) as (s1 & c1 & t0' & H0).
  { apply Hall. simpl; auto. }
  rewrite H0.
  destruct (IH s1 c1) as (s2 & c2 & rest' & Hrest).
  { intros t Hin. apply Hall. simpl; auto. }
  rewrite Hrest. eauto.
Qed.

(** A delivery bonus lies between 50 and 249. *)
Lemma delivery_bounds rnd c :
  unit_rnd rnd -> 50 <= randomInt rnd c 200 + 50 <= 249.
Proof.
  intros Hrnd. pose proof (randomInt_range rnd c 200 Hrnd ltac:(lia)). lia.
Qed.

(** ** One call of updateTrains *)

Lemma updateTrains_at rnd s delta c s1 c1 :
  updateTrains rnd s delta c = Some (s1, c1) ->
  List.length (trains s1) = List.length (trains s) /\
  research s1 = research s /\ stations s1 = stations s /\ speed s1 = speed s /\
  monthlyIncome s1 - monthlyIncome s = sumRevenue (trains s1) - sumRevenue (trains s) /\
  totalRevenue s1 - totalRevenue s = sumRevenue (trains s1) - sumRevenue (trains s) /\
  forall i t, nth_error (trains s) i = Some t ->
    exists si ci si' ci' t1 bonus,
      nth_error (trains s1) i = Some t1 /\ research si = research s /\
      Moved rnd (gameSpeedOf s delta) si ci t si' ci' t1 bonus.
Proof.
  unfold updateTrains. fold (gameSpeedOf s delta).
  destruct (moveTrains rnd (gameSpeedOf s delta) s c (trains s)) as [[[s' c'] ts']|] eqn:H;
    [|discriminate].
  intros [= <- <-]. cbn [trains research stations speed monthlyIncome totalRevenue set_trains].
  exact (moveTrains_spec _ _ _ _ _ _ _ _ H).
Qed.

Lemma baseRevenue_same rs t t' :
  List.length (Train.route t') = List.length (Train.route t) ->
  Train.type t' = Train.type t ->
  baseRevenue rs t' = baseRevenue rs t.
Proof. unfold baseRevenue. now intros -> ->. Qed.

Lemma Moved_length rnd gs s c t s' c' t' bonus :
  Moved rnd gs s c t s' c' t' bonus ->
  List.length (Train.route t') = List.length (Train.route t).
Proof.
  intros M. rewrite (mv_route M).
  destruct (completesLeg gs t); [apply length_rev | reflexivity].
Qed.

(** ** Runs of updateTrains *)

(** The calls [updateTrains(state, delta)] for the elapsed times of
    [deltas], one after the other. *)
Fixpoint runTrains (rnd : Rand) (deltas : list Q) (s : GameState) (c : nat)
  : option (GameState * nat) :=
  match deltas with
  | [] => Some (s, c)
  | d :: rest =>
      match updateTrains rnd s d c with
      | None => None
      | Some (s', c') => runTrains rnd rest s' c'
      end
  end.

(** The number of legs that train number [i] completes during the run. *)
Fixpoint legsCompleted (rnd : Rand) (deltas : list Q) (s : GameState) (c : nat)
    (i : nat) : Z :=
  match deltas with
  | [] => 0
  | d :: rest =>
      match updateTrains rnd s d c with
      | None => 0
      | Some (s', c') =>
          (match nth_error (trains s) i with
           | Some t => if completesLeg (gameSpeedOf s d) t then 1 else 0
           | None => 0
           end)
          + legsCompleted rnd rest s' c' i
      end
  end.

Definition sumZ (l : list Z) : Z := List.fold_right Z.add 0 l.

Lemma runTrains_revenue rnd (Hrnd : unit_rnd rnd) deltas :
  forall s c s' c' i t,
    runTrains rnd deltas s c = Some (s', c') ->
    nth_error (trains s) i = Some t ->
    exists t' bonuses,
      nth_error (trains s') i = Some t' /\
      Forall (fun b => 50 <= b <= 249) bonuses /\
      Train.revenue t' =
        Train.revenue t
        + legsCompleted rnd deltas s c i * baseRevenue (research s) t
        + sumZ bonuses /\
      Train.route t' =
        (if Z.even (legsCompleted rnd deltas s c i) then Train.route t
         else List.rev (Train.route t)) /\
      Train.type t' = Train.type t /\
      research s' = research s.
Proof.
  induction deltas as [|d rest IH]; intros s c s' c' i t; simpl.
  - intros [= <- <-] Ht. exists t, []. repeat split; auto. simpl. lia.
  - destruct (updateTrains rnd s d c) as [[s1 c1]|] eqn:H1; [|discriminate].
    intros Hrun Ht. rewrite Ht.
    destruct (updateTrains_at _ _ _ _ _ _ H1) as (_ & Hr1 & _ & _ & _ & _ & Hat).
    destruct (Hat i t Ht) as (si & ci & si' & ci' & t1 & bonus & Ht1 & Hrsi & M).
    destruct (IH _ _ _ _ _ _ Hrun Ht1) as (t' & bonuses & Ht' & Hb & Hrev & Hroute & Hty & Hr).
    pose proof (mv_revenue M) as Mrev.
    pose proof (mv_route M) as Mroute.
    pose proof (mv_type M) as Mty.
    pose proof (mv_bonus M) as Mb.
    rewrite Hrsi in Mrev.
    rewrite Hr1, (baseRevenue_same _ t t1 (Moved_length _ _ _ _ _ _ _ _ _ M) Mty) in Hrev.
    set (legs := legsCompleted rnd rest s1 c1 i) in *.
    set (base := baseRevenue (research s) t) in *.
    assert (Hroute' : Train.route t' =
              if Z.even ((if completesLeg (gameSpeedOf s d) t then 1 else 0) + legs)
              then Train.route t else List.rev (Train.route t)).
    { rewrite Hroute, Mroute. destruct (completesLeg (gameSpeedOf s d) t).
      - rewrite Z.add_1_l, Z.even_succ, <- Z.negb_even.
        destruct (Z.even legs); simpl; [reflexivity | apply rev_involutive].
      - reflexivity. }
    destruct Mb as [[Hb0 _]|(_ & Hb1 & _)].
    + exists t', bonuses. repeat split; auto; try congruence.
      rewrite Hrev, Mrev, Hb0. destruct (completesLeg (gameSpeedOf s d) t); lia.
    + exists t', (bonus :: bonuses). repeat split; auto; try congruence.
      * constructor; [|assumption]. rewrite Hb1. now apply delivery_bounds.
      * rewrite Hrev, Mrev. simpl. destruct (completesLeg (gameSpeedOf s d) t); lia.
Qed.

(** ** Purchase *)

Lemma catalog_effects_nonneg :
  forall tech, In tech TechTree.TECH_TREE ->
  forall e, In e (TechTree.effects tech) -> 0 <= TechTree.asNumber (TechTree.value e).
Proof.
  assert (H : forallb (fun tech => forallb (fun e => 0 <=? TechTree.asNumber (TechTree.value e))
                                           (TechTree.effects tech))
                      TechTree.TECH_TREE = true) by reflexivity.
  intros tech Hin e He.
  rewrite forallb_forall in H. specialize (H tech Hin).
  rewrite forallb_forall in H. apply Z.leb_le. exact (H e He).
Qed.

Lemma unlockedEffects_nonneg rs e :
  In e (TechTree.unlockedEffects rs) -> 0 <= TechTree.asNumber (TechTree.value e).
Proof.
  unfold TechTree.unlockedEffects. intros H.
  apply in_flat_map in H as [techId [_ He]].
  destruct (TechTree.getTech techId) as [tech|] eqn:Ht; [|destruct He].
  unfold TechTree.getTech in Ht. apply find_some in Ht as [Hin _].
  eapply catalog_effects_nonneg; eauto.
Qed.

Lemma fold_bonus_nonneg (l : list TechTree.TechEffect) (acc : Z) :
  (forall e, In e l -> 0 <= TechTree.asNumber (TechTree.value e)) ->
  0 <= acc ->
  0 <= List.fold_left (fun bonus e => bonus + TechTree.asNumber (TechTree.value e)) l acc.
Proof.
  revert acc. induction l as [|e l IH]; intros acc Hall Hacc; simpl; [assumption|].
  apply IH.
  - intros e' He'. apply Hall. simpl; auto.
  - specialize (Hall e (or_introl eq_refl)). lia.
Qed.

Lemma sumEffects_nonneg ty rs : 0 <= TechTree.sumEffects ty rs.
Proof.
  unfold TechTree.sumEffects. apply fold_bonus_nonneg; [|lia].
  intros e He. apply filter_In in He as [He _]. now apply (unlockedEffects_nonneg rs).
Qed.

Lemma bonusFactor_nonneg b : 0 <= b -> (0 <= 1 + inject_Z b / 100)%Q.
Proof.
  intros Hb. apply Qle_trans with (1 + 0)%Q; [discriminate|].
  apply Qplus_le_r. unfold Qdiv. apply Qmult_le_0_compat; [|discriminate].
  change 0%Q with (inject_Z 0). now rewrite <- Zle_Qle.
Qed.

Lemma cfgSpeed_nonneg k : (0 <= cfgSpeed (TRAIN_CONFIGS k))%Q.
Proof. destruct k; discriminate. Qed.

(** The train that buyTrain returns starts at the head of its route with
    no progress, and joins the end of the train list. *)
Lemma buyTrain_initial s type routeStations s' t :
  buyTrain s type routeStations = (s', Some t) ->
  Train.progress t = 0%Q /\ Train.currentSegment t = 0 /\ Train.revenue t = 0 /\
  (0 <= Train.speed t)%Q /\ trains s' = trains s ++ [t].
Proof.
  unfold buyTrain.
  destruct (funds s <? _); [discriminate|].
  destruct (List.length routeStations <? 2)%nat; [discriminate|].
  destruct (negb _); [discriminate|].
  destruct (resolveRoute s true routeStations []) as [fullRoute|]; [|discriminate].
  intros [= <- <-]. cbn.
  repeat split.
  apply Qmult_le_0_compat; [apply cfgSpeed_nonneg|].
  apply bonusFactor_nonneg. apply (sumEffects_nonneg TechTree.speed_bonus).
Qed.

Lemma gameSpeedOf_nonneg s delta : (0 <= delta)%Q -> (0 <= gameSpeedOf s delta)%Q.
Proof.
  intros H. unfold gameSpeedOf. apply Qmult_le_0_compat; [|assumption].
  destruct (speed s); discriminate.
Qed.

(** ** The position invariant and the revenue of a run *)

(** C10. For every train on a route of length at least 2, updateTrains
    keeps the progress in [0, 1) and currentSegment in [0, route.length - 2]
    (the position that buyTrain sets up: progress 0, segment 0); and one
    call advances a train by at most one segment however large
    speed * multiplier * delta is, since a crossing resets the progress to
    exactly 0 and drops the overshoot. Elapsed time and train speed are
    non-negative. *)
Theorem updateTrains_invariant (rnd : Rand) (s : GameState) (delta : Q) (c : nat) :
  ((0 <= delta)%Q ->
   (forall t, In t (trains s) -> routed t -> trainInv t) ->
   exists s' c',
     updateTrains rnd s delta c = Some (s', c') /\
     List.length (trains s') = List.length (trains s) /\
     forall i t, nth_error (trains s) i = Some t -> routed t ->
       exists t', nth_error (trains s') i = Some t' /\
                  routed t' /\ trainInv t' /\
                  oneSegment (gameSpeedOf s delta) t t') /\
  (forall type routeStations s' t,
     buyTrain s type routeStations = (s', Some t) ->
     trains s' = trains s ++ [t] /\
     Train.progress t = 0%Q /\ Train.currentSegment t = 0 /\
     (routed t -> trainInv t)).
Proof.
  split.
  - intros Hdelta Hinv.
    destruct (moveTrains_total rnd (gameSpeedOf s delta) (trains s) s c) as (s1 & c1 & ts1 & Hmv).
    { intros t Hin Hr. apply (Hinv t Hin Hr). }
    assert (Hup : updateTrains rnd s delta c = Some (set_trains s1 ts1, c1)).
    { unfold updateTrains. fold (gameSpeedOf s delta). now rewrite Hmv. }
    exists (set_trains s1 ts1), c1. split; [exact Hup|].
    destruct (updateTrains_at _ _ _ _ _ _ Hup) as (Hlen & _ & _ & _ & _ & _ & Hat).
    split; [exact Hlen|].
    intros i t Ht Hr.
    destruct (Hat i t Ht) as (si & ci & si' & ci' & t1 & bonus & Ht1 & _ & M).
    exists t1. split; [exact Ht1|].
    destruct (Moved_inv _ _ _ _ _ _ _ _ _ M (gameSpeedOf_nonneg s delta Hdelta) Hr
                        (Hinv t (nth_error_In _ _ Ht) Hr)) as [Hi Hl].
    split; [unfold routed in *; lia|]. split; [exact Hi|].
    exact (Moved_oneSegment _ _ _ _ _ _ _ _ _ M Hr).
  - intros type routeStations s' t Hbuy.
    destruct (buyTrain_initial _ _ _ _ _ Hbuy) as (Hp & Hs & _ & Hsp & Htr).
    split; [exact Htr|]. split; [exact Hp|]. split; [exact Hs|].
    intros Hr. unfold trainInv, routed in *. rewrite Hp, Hs.
    repeat split; try assumption; try lia; try apply Qle_refl.
Qed.

(** C2. When the crossing of a train on a route of length at least 2
    reaches the last edge, updateTrains reverses the route, resets
    currentSegment to 0 and credits
    floor(routeLength * 100 * typeMultiplier * (1 + revenueBonus / 100)),
    with typeMultiplier 5 for hyperloop, 4 for bullet, 3 for luxury, 2.5
    for express, 2 for passenger, 1.5 for commuter and 1 otherwise. Every
    credit goes to the train's revenue, the month's income and the total
    revenue alike. Over any run of updateTrains calls the train's revenue
    grows by the number of completed legs times that amount plus delivery
    bonuses, each between 50 and 249: after n full traversals (2n legs,
    the route back in its first direction) by 2n times the amount plus the
    bonuses. *)
Theorem updateTrains_revenue (rnd : Rand) (s : GameState) (i : nat) (t : Train.t) :
  unit_rnd rnd ->
  nth_error (trains s) i = Some t ->
  routed t ->
  (baseRevenue (research s) t =
     Qfloor (inject_Z (Z.of_nat (List.length (Train.route t))) * 100
             * typeMultiplier (Train.type t)
             * (1 + inject_Z (TechTree.getRevenueBonus (research s)) / 100)) /\
   List.map typeMultiplier
     [Train.hyperloop; Train.bullet; Train.luxury; Train.express; Train.passenger;
      Train.commuter; Train.freight; Train.mixed; Train.mail]
   = [5; 4; 3; 2.5; 2; 1.5; 1; 1; 1]%Q) /\
  (forall delta c s1 c1,
     updateTrains rnd s delta c = Some (s1, c1) ->
     monthlyIncome s1 - monthlyIncome s = sumRevenue (trains s1) - sumRevenue (trains s) /\
     totalRevenue s1 - totalRevenue s = sumRevenue (trains s1) - sumRevenue (trains s) /\
     exists t1 bonus,
       nth_error (trains s1) i = Some t1 /\
       (bonus = 0 \/ 50 <= bonus <= 249) /\
       (completesLeg (gameSpeedOf s delta) t = true ->
        Train.route t1 = List.rev (Train.route t) /\
        Train.currentSegment t1 = 0 /\
        Train.revenue t1 = Train.revenue t + baseRevenue (research s) t + bonus) /\
       (completesLeg (gameSpeedOf s delta) t = false ->
        Train.route t1 = Train.route t /\
        Train.revenue t1 = Train.revenue t + bonus)) /\
  (forall deltas c s' c',
     runTrains rnd deltas s c = Some (s', c') ->
     exists t' bonuses,
       nth_error (trains s') i = Some t' /\
       Forall (fun b => 50 <= b <= 249) bonuses /\
       Train.revenue t' =
         Train.revenue t
         + legsCompleted rnd deltas s c i * baseRevenue (research s) t
         + sumZ bonuses /\
       forall n, legsCompleted rnd deltas s c i = 2 * n ->
         Train.route t' = Train.route t /\
         Train.revenue t' =
           Train.revenue t + 2 * n * baseRevenue (research s) t + sumZ bonuses).
Proof.
  intros Hrnd Ht Hrouted. split; [split; reflexivity|]. split.
  - intros delta c s1 c1 Hup.
    destruct (updateTrains_at _ _ _ _ _ _ Hup) as (_ & _ & _ & _ & Hinc & Htot & Hat).
    split; [exact Hinc|]. split; [exact Htot|].
    destruct (Hat i t Ht) as (si & ci & si' & ci' & t1 & bonus & Ht1 & Hrs & M).
    exists t1, bonus. split; [exact Ht1|].
    pose proof (mv_revenue M) as Mrev. rewrite Hrs in Mrev.
    pose proof (mv_route M) as Mroute.
    pose proof (mv_segment M) as Mseg.
    split.
    { destruct (mv_bonus M) as [[H0 _]|(_ & H1 & _)]; [now left|].
      right. rewrite H1. now apply delivery_bounds. }
    split; intros Hleg; rewrite Hleg in *; repeat split; auto; lia.
  - intros deltas c s' c' Hrun.
    destruct (runTrains_revenue rnd Hrnd deltas _ _ _ _ _ _ Hrun Ht)
      as (t' & bonuses & Ht' & Hb & Hrev & Hroute & _ & _).
    exists t', bonuses. split; [exact Ht'|]. split; [exact Hb|]. split; [exact Hrev|].
    intros n Hn. rewrite Hn in *. split; [|exact Hrev].
    rewrite Hroute. replace (Z.even (2 * n)) with true; [reflexivity|].
    symmetry. rewrite Z.even_mul. reflexivity.
Qed.

(** ** A worked example *)

(** A freight train on a three-hex line. *)
Definition lineTrain : Train.t :=
  {| Train.id := 1; Train.name := "Freight 1"; Train.type := Train.freight;
     Train.route := [ {| q := 0; r := 0 |}; {| q := 1; r := 0 |}; {| q := 2; r := 0 |} ];
     Train.currentSegment := 0; Train.progress := 0; Train.speed := 0.15;
     Train.capacity := 100; Train.cargo := []; Train.revenue := 0;
     Train.maintenanceCost := 50; Train.color := 0x8B6914 |}.

Definition lineState : GameState :=
  set_trains (createGameState (Terrain.Build_GameMap 3 1 [] [] [] [])) [lineTrain].

Lemma lineTrain_inv : forall t, In t (trains lineState) -> routed t -> trainInv t.
Proof.
  intros t [<-|[]] _. unfold trainInv. simpl.
  repeat split; try discriminate; try reflexivity; try lia.
Qed.

Lemma updateTrains_invariant_witness :
  exists s' c',
    updateTrains halfRnd lineState 10 0 = Some (s', c') /\
    List.length (trains s') = List.length (trains lineState) /\
    forall i t, nth_error (trains lineState) i = Some t -> routed t ->
      exists t', nth_error (trains s') i = Some t' /\
                 routed t' /\ trainInv t' /\
                 oneSegment (gameSpeedOf lineState 10) t t'.
Proof.
  refine (proj1 (updateTrains_invariant halfRnd lineState 10 0) _ lineTrain_inv).
  discriminate.
Defined.

(** Two ticks of ten seconds take the train over both edges of its route:
    one leg, worth 300. *)
Lemma updateTrains_revenue_witness :
  match runTrains halfRnd [10%Q; 10%Q] lineState 0 with
  | Some (s', _) =>
      exists t' bonuses,
        nth_error (trains s') 0 = Some t' /\
        Forall (fun b => 50 <= b <= 249) bonuses /\
        Train.revenue t' = 0 + 1 * 300 + sumZ bonuses
  | None => False
  end.
Proof.
  destruct (runTrains halfRnd [10%Q; 10%Q] lineState 0) as [[s' c']|] eqn:Hrun.
  - destruct (proj2 (proj2 (updateTrains_revenue halfRnd lineState 0 lineTrain
                              halfRnd_unit eq_refl (Nat.le_succ_diag_r 2)))
                [10%Q; 10%Q] 0%nat s' c' Hrun) as (t' & bonuses & H1 & H2 & H3 & _).
    exists t', bonuses. split; [exact H1|]. split; [exact H2|]. exact H3.
  - vm_compute in Hrun. discriminate.
Defined.

End TrainFacts.

(* ================================================================== *)
(** * Terrain generation *)
(* ================================================================== *)

Module TerrainFacts.
Import Js Hex Random Terrain JsFacts HexFacts RandomFacts.

Lemma upto_In n x : In x (upto n) <-> 0 <= x < n.
Proof.
  unfold upto. rewrite in_map_iff. split.
  - intros [k [<- Hk]]. apply in_seq in Hk. lia.
  - intros H. exists (Z.to_nat x). split; [lia|]. apply in_seq. lia.
Qed.

(** A loop of [set] calls keeps the keys it starts with and holds the key
    of every iteration. *)
Lemma fold_set_has {A V : Type} (key : A -> string) (val : A -> V) (l : list A) :
  forall (m : JsMap V) k,
    has m k = true \/ (exists x, In x l /\ key x = k) ->
    has (List.fold_left (fun m x => set m (key x) (val x)) l m) k = true.
Proof.
  induction l as [|a l IH]; intros m k H; simpl.
  - destruct H as [H|[x [[] _]]]. exact H.
  - apply IH. destruct H as [H|[x [[->|Hin] Hk]]].
    + left. destruct (String.eqb_spec (key a) k) as [->|Hne].
      * apply has_set_same.
      * now rewrite has_set_other.
    + left. rewrite <- Hk. apply has_set_same.
    + right. eauto.
Qed.

Lemma fold_rows_has {V : Type} (row : JsMap V -> Z -> JsMap V) (rows : list Z) :
  (forall m r k, has m k = true -> has (row m r) k = true) ->
  forall (m : JsMap V) k,
    has m k = true \/ (exists r, In r rows /\ forall m', has (row m' r) k = true) ->
    has (List.fold_left row rows m) k = true.
Proof.
  intros Hmono. induction rows as [|a rows IH]; intros m k H; simpl.
  - destruct H as [H|[x [[] _]]]. exact H.
  - apply IH. destruct H as [H|[x [[->|Hin] Hk]]]; [left; auto | left; auto | right; eauto].
Qed.

(** The classification pass gives every tile of the grid a terrain type. *)
Lemma baseTerrain_has width height seed n :
  inBounds width height n = true ->
  has (baseTerrain width height seed) (hexKey n) = true.
Proof.
  unfold inBounds. rewrite !andb_true_iff, !Z.leb_le, !Z.ltb_lt.
  intros [[[Hq0 Hq1] Hr0] Hr1].
  unfold baseTerrain.
  apply (fold_rows_has
           (fun terrain r0 =>
              List.fold_left
                (fun terrain q0 =>
                   set terrain (hexKey {| q := q0; r := r0 |})
                       (tileType (newSimpleNoise seed) (newSimpleNoise (seed + 1000))
                                 width height q0 r0))
                (upto width) terrain)).
  - intros m r0 k Hk.
    apply (fold_set_has (fun q0 => hexKey {| q := q0; r := r0 |})
                        (fun q0 => tileType _ _ width height q0 r0)).
    now left.
  - right. exists (r n). split; [apply upto_In; lia|].
    intros m'.
    apply (fold_set_has (fun q0 => hexKey {| q := q0; r := r n |})
                        (fun q0 => tileType _ _ width height q0 (r n))).
    right. exists (q n). split; [apply upto_In; lia|]. now destruct n.
Qed.

(** [m] is [base] with rivers drawn over some of its tiles. *)
Definition riversOver (base m : JsMap TerrainType) : Prop :=
  keys m = keys base /\
  forall k, get m k = get base k \/ get m k = Some River.

Lemma riversOver_refl base : riversOver base base.
Proof. split; auto. Qed.

Lemma riversOver_has base m k : riversOver base m -> has m k = has base k.
Proof.
  intros [Hk _].
  destruct (has m k) eqn:E1, (has base k) eqn:E2; try reflexivity.
  - apply has_keys in E1. rewrite Hk in E1. apply has_keys in E1. congruence.
  - apply has_keys in E2. rewrite <- Hk in E2. apply has_keys in E2. congruence.
Qed.

Lemma riversOver_set base m k :
  riversOver base m -> has m k = true -> riversOver base (set m k River).
Proof.
  intros [Hk Hg] Hhas. split.
  - now rewrite keys_set_old.
  - intros k'. destruct (String.eqb_spec k k') as [<-|Hne].
    + right. apply get_set_same.
    + rewrite get_set_other by exact Hne. apply Hg.
Qed.

Section Rivers.
Variables (width height seed : Z).
Let base := baseTerrain width height seed.

(** One river only turns tiles of the grid into River. *)
Lemma riverWalk_riversOver rnd steps :
  forall q0 r0 terrain c terrain' c',
    riversOver base terrain ->
    has terrain (hexKey {| q := q0; r := r0 |}) = true ->
    riverWalk rnd width height steps q0 r0 terrain c = Some (terrain', c') ->
    riversOver base terrain'.
Proof.
  induction steps as [|steps IH]; intros q0 r0 terrain c terrain' c' Hov Hhas;
    cbn [riverWalk].
  - now intros [= <- <-].
  - assert (Hset : riversOver base (set terrain (hexKey {| q := q0; r := r0 |}) River))
      by (now apply riversOver_set).
    assert (Hgo :
      (if (List.length (List.filter (inBounds width height) (hexNeighbors {| q := q0; r := r0 |})) =? 0)%nat
       then Some (set terrain (hexKey {| q := q0; r := r0 |}) River, c)
       else
         if randomInt rnd c (Z.of_nat (List.length (List.filter (inBounds width height) (hexNeighbors {| q := q0; r := r0 |})))) <? 0
         then None
         else
           match nth_error (List.filter (inBounds width height) (hexNeighbors {| q := q0; r := r0 |}))
                   (Z.to_nat (randomInt rnd c (Z.of_nat (List.length (List.filter (inBounds width height) (hexNeighbors {| q := q0; r := r0 |}))))))
           with
           | Some next =>
               riverWalk rnd width height steps (q next) (r next)
                 (set terrain (hexKey {| q := q0; r := r0 |}) River) (S c)
           | None => None
           end) = Some (terrain', c') -> riversOver base terrain').
    { destruct (_ =? 0)%nat; [now intros [= <- <-]|].
      destruct (_ <? 0); [discriminate|].
      destruct (nth_error _ _) as [next|] eqn:Hnext; [|discriminate].
      apply nth_error_In in Hnext. apply filter_In in Hnext as [_ Hin].
      apply IH; [exact Hset|].
      rewrite (riversOver_has base _ _ Hset).
      replace {| q := q next; r := r next |} with next by (now destruct next).
      now apply baseTerrain_has. }
    destruct (get terrain (hexKey {| q := q0; r := r0 |})) as [[]|]; try exact Hgo.
    now intros [= <- <-].
Qed.

Lemma riverLoop_riversOver rnd n :
  forall terrain c terrain' c',
    riversOver base terrain ->
    riverLoop rnd width height n terrain c = Some (terrain', c') ->
    riversOver base terrain'.
Proof.
  induction n as [|n IH]; intros terrain c terrain' c' Hov; cbn [riverLoop].
  - now intros [= <- <-].
  - set (key := hexKey {| q := randomInt rnd c width; r := randomInt rnd (S c) height |}).
    assert (Hwalk :
      match riverWalk rnd width height 20 (randomInt rnd c width) (randomInt rnd (S c) height)
              terrain (S (S c)) with
      | Some (terrain1, c1) => riverLoop rnd width height n terrain1 c1
      | None => None
      end = Some (terrain', c') ->
      has terrain key = true -> riversOver base terrain').
    { destruct (riverWalk _ _ _ _ _ _ _ _) as [[terrain1 c1]|] eqn:Hw; [|discriminate].
      intros Hloop Hhas. eapply IH; [|exact Hloop].
      eapply riverWalk_riversOver; eauto. }
    destruct (get terrain key) as [t|] eqn:Hget.
    + assert (Hhas : has terrain key = true) by (unfold has; now rewrite Hget).
      destruct t; try (intros H; now apply (IH _ _ _ _ Hov H)); intros H; now apply Hwalk.
    + intros H; now apply (IH _ _ _ _ Hov H).
Qed.

(** With draws from the unit interval the river pass runs to its end. *)
Lemma riverWalk_total rnd steps :
  unit_rnd rnd ->
  forall q0 r0 terrain c,
    exists terrain' c', riverWalk rnd width height steps q0 r0 terrain c = Some (terrain', c').
Proof.
  intros Hrnd. induction steps as [|steps IH]; intros q0 r0 terrain c;
    cbn [riverWalk]; [eauto|].
  assert (Hgo : exists terrain' c',
      (if (List.length (List.filter (inBounds width height) (hexNeighbors {| q := q0; r := r0 |})) =? 0)%nat
       then Some (set terrain (hexKey {| q := q0; r := r0 |}) River, c)
       else
         if randomInt rnd c (Z.of_nat (List.length (List.filter (inBounds width height) (hexNeighbors {| q := q0; r := r0 |})))) <? 0
         then None
         else
           match nth_error (List.filter (inBounds width height) (hexNeighbors {| q := q0; r := r0 |}))
                   (Z.to_nat (randomInt rnd c (Z.of_nat (List.length (List.filter (inBounds width height) (hexNeighbors {| q := q0; r := r0 |}))))))
           with
           | Some next =>
               riverWalk rnd width height steps (q next) (r next)
                 (set terrain (hexKey {| q := q0; r := r0 |}) River) (S c)
           | None => None
           end) = Some (terrain', c')).
  { set (neighbors := List.filter (inBounds width height) (hexNeighbors {| q := q0; r := r0 |})).
    destruct (Nat.eqb_spec (List.length neighbors) 0) as [|Hne]; [eauto|].
    destruct (randomInt_range rnd c (Z.of_nat (List.length neighbors)) Hrnd ltac:(lia)) as [Hlo Hhi].
    destruct (Z.ltb_spec (randomInt rnd c (Z.of_nat (List.length neighbors))) 0); [lia|].
    destruct (nth_error neighbors _) as [next|] eqn:Hnext; [apply IH|].
    apply nth_error_None in Hnext. lia. }
  destruct (get terrain (hexKey {| q := q0; r := r0 |})) as [[]|]; eauto.
Qed.

Lemma riverLoop_total rnd n :
  unit_rnd rnd ->
  forall terrain c,
    exists terrain' c', riverLoop rnd width height n terrain c = Some (terrain', c').
Proof.
  intros Hrnd. induction n as [|n IH]; intros terrain c; cbn [riverLoop]; [eauto|].
  destruct (riverWalk_total rnd 20 Hrnd (randomInt rnd c width) (randomInt rnd (S c) height)
                            terrain (S (S c))) as (t1 & c1 & Hw).
  rewrite Hw.
  destruct (get terrain _) as [[]|]; auto.
Qed.

Lemma generateMap_terrain_riversOver rnd m :
  generateMap_terrain width height seed rnd = Some m -> riversOver base m.
Proof.
  unfold generateMap_terrain, addRivers.
  destruct (riverLoop _ _ _ _ _ _) as [[terrain' c']|] eqn:H; [|discriminate].
  intros [= <-]. eapply riverLoop_riversOver; [apply riversOver_refl | exact H].
Qed.

Lemma generateMap_terrain_total rnd :
  unit_rnd rnd -> exists m, generateMap_terrain width height seed rnd = Some m.
Proof.
  intros Hrnd. unfold generateMap_terrain, addRivers.
  destruct (riverLoop_total rnd (Z.to_nat (3 + randomInt rnd 0 3)) Hrnd base 1%nat)
    as (t & c & H).
  fold base. rewrite H. cbn [option_map fst]. eauto.
Qed.

End Rivers.

(** C1, amended. For every seed, width and height, the classification pass
    of generateMap is a function of the seed alone, and two calls return
    terrain mappings over the same hex keys in which every hex holds either
    its classified terrain type or River: the two runs agree on every hex
    that the unseeded river pass leaves alone in both. *)
Theorem generateMap_terrain_up_to_rivers (width height seed : Z) (rnd1 rnd2 : Rand) :
  unit_rnd rnd1 -> unit_rnd rnd2 ->
  exists m1 m2,
    generateMap_terrain width height seed rnd1 = Some m1 /\
    generateMap_terrain width height seed rnd2 = Some m2 /\
    keys m1 = keys m2 /\
    forall k,
      (get m1 k = get (baseTerrain width height seed) k \/ get m1 k = Some River) /\
      (get m2 k = get (baseTerrain width height seed) k \/ get m2 k = Some River) /\
      (get m1 k = get m2 k \/ get m1 k = Some River \/ get m2 k = Some River).
Proof.
  intros H1 H2.
  destruct (generateMap_terrain_total width height seed rnd1 H1) as [m1 E1].
  destruct (generateMap_terrain_total width height seed rnd2 H2) as [m2 E2].
  destruct (generateMap_terrain_riversOver _ _ _ _ _ E1) as [K1 G1].
  destruct (generateMap_terrain_riversOver _ _ _ _ _ E2) as [K2 G2].
  exists m1, m2. split; [exact E1|]. split; [exact E2|]. split; [congruence|].
  intros k. split; [apply G1|]. split; [apply G2|].
  destruct (G1 k) as [A|A], (G2 k) as [B|B]; auto. left. congruence.
Qed.

Lemma generateMap_terrain_up_to_rivers_witness :
  exists m1 m2,
    generateMap_terrain 2 1 42 zeroRnd = Some m1 /\
    generateMap_terrain 2 1 42 halfRnd = Some m2 /\
    keys m1 = keys m2 /\
    forall k,
      (get m1 k = get (baseTerrain 2 1 42) k \/ get m1 k = Some River) /\
      (get m2 k = get (baseTerrain 2 1 42) k \/ get m2 k = Some River) /\
      (get m1 k = get m2 k \/ get m1 k = Some River \/ get m2 k = Some River).
Proof.
  exact (generateMap_terrain_up_to_rivers 2 1 42 zeroRnd halfRnd zeroRnd_unit halfRnd_unit).
Defined.

(** C1 as stated fails: on a 2 x 1 map with seed 42 the classification
    gives Coast and Hills; a run whose river starts all fall on the Coast
    tile returns that map, and a run whose first start falls on the Hills
    tile returns River on both tiles. *)
Lemma generateMap_terrain_not_deterministic :
  generateMap_terrain 2 1 42 zeroRnd
  = Some [ ("0,0", Coast); ("1,0", Hills) ]%string /\
  generateMap_terrain 2 1 42 halfRnd
  = Some [ ("0,0", River); ("1,0", River) ]%string /\
  generateMap_terrain 2 1 42 zeroRnd <> generateMap_terrain 2 1 42 halfRnd.
Proof.
  assert (E1 : generateMap_terrain 2 1 42 zeroRnd
               = Some [ ("0,0", Coast); ("1,0", Hills) ]%string)
    by (vm_compute; reflexivity).
  assert (E2 : generateMap_terrain 2 1 42 halfRnd
               = Some [ ("0,0", River); ("1,0", River) ]%string)
    by (vm_compute; reflexivity).
  split; [exact E1|]. split; [exact E2|]. rewrite E1, E2. discriminate.
Qed.

End TerrainFacts.

(* ================================================================== *)
(** * Pathfinding *)
(* ================================================================== *)

Module PathFacts.
Import Js Hex Engine JsFacts HexFacts.

(** ** The adjacency map *)

Lemma neighborsOf_set adj k v a :
  neighborsOf (set adj k v) a = if String.eqb k a then v else neighborsOf adj a.
Proof.
  unfold neighborsOf. destruct (String.eqb_spec k a) as [->|Hne].
  - now rewrite get_set_same.
  - now rewrite get_set_other.
Qed.

Lemma has_set {V : Type} (m : JsMap V) k v a :
  has (set m k v) a = String.eqb k a || has m a.
Proof.
  destruct (String.eqb_spec k a) as [->|Hne]; simpl.
  - apply has_set_same.
  - now apply has_set_other.
Qed.

Lemma neighborsOf_absent adj a : has adj a = false -> neighborsOf adj a = [].
Proof. unfold has, neighborsOf. now destruct (get adj a). Qed.

(** The two keys of a segment. *)
Definition fromKey (t : TrackSegment.t) : string := hexKey (TrackSegment.from t).
Definition toKey (t : TrackSegment.t) : string := hexKey (TrackSegment.to t).

Lemma addEdge_neighbors adj t a b :
  In b (neighborsOf (addEdge adj t) a) <->
  In b (neighborsOf adj a) \/ (a = fromKey t /\ b = toKey t) \/ (a = toKey t /\ b = fromKey t).
Proof.
  unfold addEdge. fold (fromKey t) (toKey t).
  set (fk := fromKey t). set (tk := toKey t).
  set (adj1 := if has adj fk then adj else set adj fk []).
  set (adj2 := if has adj1 tk then adj1 else set adj1 tk []).
  assert (N1 : forall x, neighborsOf adj1 x = neighborsOf adj x).
  { intros x. subst adj1. destruct (has adj fk) eqn:E; [reflexivity|].
    rewrite neighborsOf_set. destruct (String.eqb_spec fk x) as [<-|]; [|reflexivity].
    now rewrite neighborsOf_absent. }
  assert (N2 : forall x, neighborsOf adj2 x = neighborsOf adj x).
  { intros x. subst adj2. destruct (has adj1 tk) eqn:E; [apply N1|].
    rewrite neighborsOf_set. destruct (String.eqb_spec tk x) as [<-|]; [|apply N1].
    rewrite <- N1. now rewrite neighborsOf_absent. }
  rewrite !neighborsOf_set.
  destruct (String.eqb_spec tk a) as [<-|Hta]; destruct (String.eqb_spec fk tk) as [Hft|Hft].
  - rewrite setAdd_In, setAdd_In, N2. rewrite <- Hft. tauto.
  - rewrite setAdd_In, N2. intuition congruence.
  - destruct (String.eqb_spec fk a) as [<-|Hfa].
    + rewrite setAdd_In, N2. intuition congruence.
    + rewrite N2. intuition congruence.
  - destruct (String.eqb_spec fk a) as [<-|Hfa].
    + rewrite setAdd_In, N2. intuition congruence.
    + rewrite N2. intuition congruence.
Qed.

Lemma addEdge_has adj t a :
  has (addEdge adj t) a = true <->
  has adj a = true \/ a = fromKey t \/ a = toKey t.
Proof.
  unfold addEdge. fold (fromKey t) (toKey t).
  set (fk := fromKey t). set (tk := toKey t).
  set (adj1 := if has adj fk then adj else set adj fk []).
  set (adj2 := if has adj1 tk then adj1 else set adj1 tk []).
  assert (H1 : has adj1 a = true <-> has adj a = true \/ a = fk).
  { subst adj1. destruct (has adj fk) eqn:E.
    - split; [auto | intros [H| ->]; auto].
    - rewrite has_set, orb_true_iff, String.eqb_eq. intuition congruence. }
  assert (H2 : has adj2 a = true <-> has adj a = true \/ a = fk \/ a = tk).
  { subst adj2. destruct (has adj1 tk) eqn:E.
    - rewrite H1. split; [tauto|]. intros [H|[H|H]]; auto.
      subst a. apply H1. now rewrite E.
    - rewrite has_set, orb_true_iff, String.eqb_eq, H1. intuition congruence. }
  rewrite !has_set, !orb_true_iff, !String.eqb_eq, H2. intuition congruence.
Qed.

(** Two keys are joined by one of the segments. *)
Definition joined (segments : list TrackSegment.t) (a b : string) : Prop :=
  exists t, In t segments /\
            ((a = fromKey t /\ b = toKey t) \/ (a = toKey t /\ b = fromKey t)).

(** A key is an endpoint of one of the segments. *)
Definition endpoint (segments : list TrackSegment.t) (a : string) : Prop :=
  exists t, In t segments /\ (a = fromKey t \/ a = toKey t).

Lemma fold_addEdge segments :
  forall adj,
    (forall a b,
       In b (neighborsOf (List.fold_left addEdge segments adj) a) <->
       In b (neighborsOf adj a) \/ joined segments a b) /\
    (forall a,
       has (List.fold_left addEdge segments adj) a = true <->
       has adj a = true \/ endpoint segments a).
Proof.
  induction segments as [|t rest IH]; intros adj; simpl.
  - split; intros; split; auto.
    + intros [H|[t [[] _]]]. exact H.
    + intros [H|[t [[] _]]]. exact H.
  - destruct (IH (addEdge adj t)) as [IHn IHh]. split.
    + intros a b. rewrite IHn, addEdge_neighbors. unfold joined. split.
      * intros [[H|H]|[t' [Hin H]]]; auto.
        -- right. exists t. simpl; auto.
        -- right. exists t'. simpl; auto.
      * intros [H|[t' [[<-|Hin] H]]]; auto. right. exists t'. auto.
    + intros a. rewrite IHh, addEdge_has. unfold endpoint. split.
      * intros [[H|H]|[t' [Hin H]]]; auto.
        -- right. exists t. simpl; auto.
        -- right. exists t'. simpl; auto.
      * intros [H|[t' [[<-|Hin] H]]]; auto. right. exists t'. auto.
Qed.

(** The adjacency map lists, for every endpoint, the keys joined to it. *)
Lemma buildAdjacency_neighbors segments a b :
  In b (neighborsOf (buildAdjacency segments) a) <-> joined segments a b.
Proof.
  unfold buildAdjacency. rewrite (proj1 (fold_addEdge segments [])). simpl. tauto.
Qed.

Lemma buildAdjacency_has segments a :
  has (buildAdjacency segments) a = true <-> endpoint segments a.
Proof.
  unfold buildAdjacency. rewrite (proj2 (fold_addEdge segments [])).
  unfold has. simpl. intuition discriminate.
Qed.

Lemma HexCoord_eq_dec (a b : HexCoord) : {a = b} + {a <> b}.
Proof. decide equality; apply Z.eq_dec. Qed.

(** ** The search loop *)

Section Search.
Variables (adj : JsMap JsSet) (start goal : string).

(** The edges that the search follows. *)
Definition E (a b : string) : Prop := In b (neighborsOf adj a).

Hypothesis Hnodes : forall v, has adj v = true -> exists h, v = hexKey h.
Hypothesis Hclosed : forall a b, E a b -> has adj b = true.
Hypothesis Hstart : has adj start = true.

(** [walk a p b]: [p] lists the keys of a walk from [a] to [b], both ends
    included. *)
Inductive walk : string -> list string -> string -> Prop :=
| walk_one a : walk a [a] a
| walk_step a b p c : E a b -> walk b p c -> walk a (a :: p) c.

Lemma walk_snoc a p b c : walk a p b -> E b c -> walk a (p ++ [c]) c.
Proof.
  induction 1 as [a|a b' p b HE Hw IH]; intros Hbc; simpl.
  - apply walk_step with c; [exact Hbc | apply walk_one].
  - apply walk_step with b'; auto.
Qed.

(** The depth [d] of a key is its distance from the start in the tree that
    [cameFrom] records. The invariant of the outer loop: *)
Record Inv (d : string -> nat) (cf : JsMap string) (queue : list string) : Prop := {
  inv_start : get cf start = Some EmptyString /\ d start = 0%nat;
  inv_parent : forall v p, get cf v = Some p -> v <> start ->
                 has cf p = true /\ E p v /\ d v = S (d p);
  inv_nodes : forall v, has cf v = true -> has adj v = true;
  inv_done : forall v, has cf v = true ->
               In v queue \/
               (v <> goal /\ forall u, E v u -> has cf u = true /\ (d u <= S (d v))%nat);
  inv_queue : forall v, In v queue -> has cf v = true;
  inv_sorted : StronglySorted (fun x y => (d x <= d y)%nat) queue;
  inv_near : forall x v, In x queue -> has cf v = true -> (d v <= S (d x))%nat;
  inv_depth : forall v, has cf v = true -> (d v < List.length cf)%nat;
  inv_nodup : NoDup (keys cf)
}.

Arguments inv_start {d cf queue} _.
Arguments inv_parent {d cf queue} _.
Arguments inv_nodes {d cf queue} _.
Arguments inv_done {d cf queue} _.
Arguments inv_queue {d cf queue} _.
Arguments inv_sorted {d cf queue} _.
Arguments inv_near {d cf queue} _.
Arguments inv_depth {d cf queue} _.
Arguments inv_nodup {d cf queue} _.

(** The invariant of the inner loop, while the neighbours [remaining] of
    the dequeued key [c] are still to be looked at. *)
Record VInv (c : string) (d : string -> nat) (cf : JsMap string)
    (queue remaining : list string) : Prop := {
  v_start : get cf start = Some EmptyString /\ d start = 0%nat;
  v_parent : forall v p, get cf v = Some p -> v <> start ->
               has cf p = true /\ E p v /\ d v = S (d p);
  v_nodes : forall v, has cf v = true -> has adj v = true;
  v_cur : has cf c = true /\ c <> goal;
  v_rem : forall u, In u remaining -> E c u;
  v_done : forall v, has cf v = true ->
             v = c \/ In v queue \/
             (v <> goal /\ forall u, E v u -> has cf u = true /\ (d u <= S (d v))%nat);
  v_cur_nb : forall u, E c u ->
               In u remaining \/ (has cf u = true /\ (d u <= S (d c))%nat);
  v_queue : forall v, In v queue -> has cf v = true;
  v_sorted : StronglySorted (fun x y => (d x <= d y)%nat) queue;
  v_lo : forall x, In x queue -> (d c <= d x)%nat;
  v_near : forall v, has cf v = true -> (d v <= S (d c))%nat;
  v_depth : forall v, has cf v = true -> (d v < List.length cf)%nat;
  v_nodup : NoDup (keys cf)
}.

Arguments v_start {c d cf queue remaining} _.
Arguments v_parent {c d cf queue remaining} _.
Arguments v_nodes {c d cf queue remaining} _.
Arguments v_cur {c d cf queue remaining} _.
Arguments v_rem {c d cf queue remaining} _.
Arguments v_done {c d cf queue remaining} _.
Arguments v_cur_nb {c d cf queue remaining} _.
Arguments v_queue {c d cf queue remaining} _.
Arguments v_sorted {c d cf queue remaining} _.
Arguments v_lo {c d cf queue remaining} _.
Arguments v_near {c d cf queue remaining} _.
Arguments v_depth {c d cf queue remaining} _.
Arguments v_nodup {c d cf queue remaining} _.

Lemma Inv_dequeue d cf c queue ns :
  Inv d cf (c :: queue) -> c <> goal -> get adj c = Some ns ->
  VInv c d cf queue ns.
Proof.
  intros I Hc Hns.
  pose proof (inv_sorted I) as Hs. inversion Hs as [|? ? Hs' Hall]; subst.
  assert (Hnb : neighborsOf adj c = ns) by (unfold neighborsOf; now rewrite Hns).
  constructor.
  - apply I.
  - apply I.
  - apply I.
  - split; [apply (inv_queue I); simpl; auto | exact Hc].
  - intros u Hu. unfold E. now rewrite Hnb.
  - intros v Hv. destruct (inv_done I v Hv) as [[->|Hin]|H]; auto.
  - intros u Hu. left. unfold E in Hu. now rewrite Hnb in Hu.
  - intros v Hv. apply (inv_queue I). simpl; auto.
  - exact Hs'.
  - intros x Hx. rewrite Forall_forall in Hall. now apply Hall.
  - intros v Hv. apply (inv_near I c v); simpl; auto.
  - apply I.
  - apply I.
Qed.

Lemma VInv_finish c d cf queue : VInv c d cf queue [] -> Inv d cf queue.
Proof.
  intros V. constructor; try apply V.
  - intros v Hv. destruct (v_done V v Hv) as [->|[H|H]]; auto.
    right. split; [apply V|]. intros u Hu.
    destruct (v_cur_nb V u Hu) as [[]|H]. exact H.
  - intros x v Hx Hv. pose proof (v_lo V x Hx). pose proof (v_near V v Hv). lia.
Qed.

(** The depth function after [next] is discovered at depth [n]. *)
Definition deeper (d : string -> nat) (next : string) (n : nat) : string -> nat :=
  fun x => if String.eqb x next then n else d x.

Lemma deeper_same d next n : deeper d next n next = n.
Proof. unfold deeper. now rewrite String.eqb_refl. Qed.

Lemma deeper_other d next n x : x <> next -> deeper d next n x = d x.
Proof.
  intros H. unfold deeper. destruct (String.eqb_spec x next); [contradiction | reflexivity].
Qed.

Lemma sorted_ext (d d' : string -> nat) l :
  (forall x, In x l -> d' x = d x) ->
  StronglySorted (fun x y => (d x <= d y)%nat) l ->
  StronglySorted (fun x y => (d' x <= d' y)%nat) l.
Proof.
  induction l as [|a l IH]; intros Heq Hs; [constructor|].
  inversion Hs as [|? ? Hs' Hall]; subst. constructor.
  - apply IH; [intros x Hx; apply Heq; simpl; auto | exact Hs'].
  - rewrite Forall_forall in *. intros x Hx.
    rewrite (Heq a), (Heq x) by (simpl; auto). now apply Hall.
Qed.

Lemma sorted_snoc {A : Type} (R : A -> A -> Prop) l a :
  StronglySorted R l -> (forall x, In x l -> R x a) -> StronglySorted R (l ++ [a]).
Proof.
  induction l as [|b l IH]; intros Hs Hall; simpl.
  - constructor; constructor.
  - inversion Hs as [|? ? Hs' Hb]; subst. constructor.
    + apply IH; [exact Hs' | intros x Hx; apply Hall; simpl; auto].
    + rewrite Forall_forall in *. intros x Hx. apply in_app_iff in Hx as [Hx|[<-|[]]].
      * now apply Hb.
      * apply Hall. simpl; auto.
Qed.

Lemma VInv_skip c d cf queue next rest :
  VInv c d cf queue (next :: rest) -> has cf next = true ->
  VInv c d cf queue rest.
Proof.
  intros V Hn. constructor; try apply V.
  - intros u Hu. apply (v_rem V). simpl; auto.
  - intros u Hu. destruct (v_cur_nb V u Hu) as [[<-|H]|H]; auto.
    right. split; [exact Hn | now apply (v_near V)].
Qed.

Lemma VInv_push c d cf queue next rest :
  VInv c d cf queue (next :: rest) -> has cf next = false ->
  VInv c (deeper d next (S (d c))) (set cf next c) (queue ++ [next]) rest.
Proof.
  intros V Hn.
  set (d' := deeper d next (S (d c))).
  assert (Hold : forall v, has cf v = true -> v <> next) by (intros v Hv ->; congruence).
  assert (Hd : forall v, has cf v = true -> d' v = d v)
    by (intros v Hv; apply deeper_other; auto).
  assert (Hdn : d' next = S (d c)) by apply deeper_same.
  destruct (v_cur V) as [Hc Hcg].
  assert (Hstart' : has cf start = true)
    by (unfold has; now rewrite (proj1 (v_start V))).
  assert (Hhas : forall v, has (set cf next c) v = true <-> v = next \/ has cf v = true).
  { intros v. rewrite has_set, orb_true_iff, String.eqb_eq. intuition. }
  assert (Hcn : E c next) by (apply (v_rem V); simpl; auto).
  constructor.
  - split.
    + rewrite get_set_other by (apply not_eq_sym; auto). apply V.
    + rewrite Hd by exact Hstart'. apply V.
  - intros v p Hget Hvs. destruct (String.eqb_spec next v) as [<-|Hne].
    + rewrite get_set_same in Hget. injection Hget as <-.
      rewrite Hdn, (Hd c Hc). repeat split; auto. apply Hhas. auto.
    + rewrite get_set_other in Hget by exact Hne.
      destruct (v_parent V v p Hget Hvs) as (Hp & Hpv & Hdv).
      assert (Hv : has cf v = true) by (unfold has; now rewrite Hget).
      rewrite (Hd v Hv), (Hd p Hp). repeat split; auto. apply Hhas. auto.
  - intros v Hv. apply Hhas in Hv as [->|Hv].
    + now apply (Hclosed c).
    + now apply (v_nodes V).
  - split; [apply Hhas; auto | exact Hcg].
  - intros u Hu. apply (v_rem V). simpl; auto.
  - intros v Hv. apply Hhas in Hv as [->|Hv].
    + right; left. apply in_app_iff. simpl; auto.
    + destruct (v_done V v Hv) as [->|[H|[Hg H]]]; auto.
      * right; left. apply in_app_iff. auto.
      * right; right. split; [exact Hg|]. intros u Hu.
        destruct (H u Hu) as [Hu1 Hu2].
        rewrite (Hd u Hu1), (Hd v Hv). split; [apply Hhas; auto | exact Hu2].
  - intros u Hu. destruct (v_cur_nb V u Hu) as [[<-|H]|[H1 H2]]; auto.
    + right. rewrite Hdn, (Hd c Hc). split; [apply Hhas; auto | lia].
    + right. rewrite (Hd u H1), (Hd c Hc). split; [apply Hhas; auto | exact H2].
  - intros v Hv. apply Hhas. apply in_app_iff in Hv as [Hv|[<-|[]]]; auto.
    right. now apply (v_queue V).
  - apply sorted_snoc.
    + apply (sorted_ext d); [|apply V].
      intros x Hx. apply Hd. now apply (v_queue V).
    + intros x Hx. cbv beta. rewrite Hdn, (Hd x) by (now apply (v_queue V)).
      apply (v_near V). now apply (v_queue V).
  - intros x Hx. rewrite (Hd c Hc). apply in_app_iff in Hx as [Hx|[<-|[]]].
    + rewrite (Hd x) by (now apply (v_queue V)). now apply (v_lo V).
    + rewrite Hdn. lia.
  - intros v Hv. rewrite (Hd c Hc). apply Hhas in Hv as [->|Hv].
    + rewrite Hdn. lia.
    + rewrite (Hd v Hv). now apply (v_near V).
  - intros v Hv. rewrite length_set, Hn. apply Hhas in Hv as [->|Hv].
    + rewrite Hdn. pose proof (v_depth V c Hc). lia.
    + rewrite (Hd v Hv). pose proof (v_depth V v Hv). lia.
  - rewrite keys_set_new by exact Hn.
    apply NoDup_app; [apply V | constructor; [intros [] | constructor] |].
    intros x Hx [<-|[]]. apply has_keys in Hx. congruence.
Qed.

(** The inner loop re-establishes the outer invariant, and every key it
    adds to [cameFrom] it also adds to the queue. *)
Lemma visit_inv c remaining :
  forall d cf queue,
    VInv c d cf queue remaining ->
    exists d',
      Inv d' (fst (visit c remaining cf queue)) (snd (visit c remaining cf queue)) /\
      (List.length (fst (visit c remaining cf queue)) + List.length queue
       = List.length cf + List.length (snd (visit c remaining cf queue)))%nat.
Proof.
  induction remaining as [|next rest IH]; intros d cf queue V; simpl.
  - exists d. split; [now apply VInv_finish with c | lia].
  - destruct (has cf next) eqn:Hn.
    + apply (IH d). now apply VInv_skip with next.
    + destruct (IH _ _ _ (VInv_push _ _ _ _ _ _ V Hn)) as (d' & I & Hlen).
      exists d'. split; [exact I|].
      rewrite length_set, Hn, length_app in Hlen. simpl in Hlen. lia.
Qed.

Lemma node_hex d cf queue v :
  Inv d cf queue -> has cf v = true -> exists h, v = hexKey h.
Proof. intros I Hv. apply Hnodes. now apply (inv_nodes I). Qed.

(** The reconstruction loop returns the hexes from [v] back to the start:
    read backwards they spell a walk from the start to [v], one key per
    level of depth. *)
Lemma reconstruct_chain d cf queue :
  Inv d cf queue ->
  forall n v fuel acc,
    has cf v = true -> d v = n -> (n < fuel)%nat ->
    exists hs,
      reconstruct fuel cf v acc = Some (acc ++ hs) /\
      List.length hs = S n /\
      walk start (List.rev (List.map hexKey hs)) v.
Proof.
  intros I. induction n as [|n IH]; intros v fuel acc Hv Hd Hfuel.
  - destruct fuel as [|fuel]; [lia|].
    destruct (node_hex _ _ _ v I Hv) as [h ->].
    apply has_true_iff in Hv as [p Hp].
    destruct (String.eqb_spec (hexKey h) start) as [Hs|Hs].
    + rewrite Hs in *. rewrite (proj1 (inv_start I)) in Hp. injection Hp as <-.
      exists [h]. cbn [reconstruct].
      destruct (String.eqb_spec start EmptyString) as [E0|_].
      { exfalso. rewrite <- Hs in E0. now apply hexKey_nonempty in E0. }
      rewrite <- Hs at 1. rewrite parseHexKey_hexKey, (proj1 (inv_start I)).
      destruct fuel; cbn [reconstruct String.eqb]; (split; [reflexivity|]);
        (split; [reflexivity|]); simpl; rewrite Hs; apply walk_one.
    + destruct (inv_parent I _ _ Hp Hs) as (_ & _ & Hdv). lia.
  - destruct fuel as [|fuel]; [lia|].
    destruct (node_hex _ _ _ v I Hv) as [h ->].
    apply has_true_iff in Hv as [p Hp].
    destruct (String.eqb_spec (hexKey h) start) as [Hs|Hs].
    + rewrite Hs in Hd. rewrite (proj2 (inv_start I)) in Hd. discriminate.
    + destruct (inv_parent I _ _ Hp Hs) as (Hpc & Hpv & Hdv).
      destruct (IH p fuel (acc ++ [h]) Hpc ltac:(lia) ltac:(lia)) as (hs & Hrec & Hlen & Hw).
      exists (h :: hs). cbn [reconstruct].
      destruct (String.eqb_spec (hexKey h) EmptyString) as [E0|_].
      { exfalso. now apply hexKey_nonempty in E0. }
      rewrite parseHexKey_hexKey, Hp, Hrec, <- app_assoc. simpl.
      split; [reflexivity|]. split; [now rewrite Hlen|].
      now apply walk_snoc with p.
Qed.

Lemma sorted_head (d : string -> nat) g rest x :
  StronglySorted (fun x y => (d x <= d y)%nat) (g :: rest) ->
  In x (g :: rest) -> (d g <= d x)%nat.
Proof.
  intros Hs [<-|Hx]; [lia|].
  inversion Hs as [|? ? _ Hall]; subst. rewrite Forall_forall in Hall. now apply Hall.
Qed.

(** With [g] at the head of the queue, no walk from a discovered key
    reaches depth [d g] in fewer steps than the tree does. *)
Lemma walk_bound d cf g rest :
  Inv d cf (g :: rest) ->
  forall a p b, walk a p b ->
  forall i, has cf a = true -> (d a <= i)%nat ->
    (has cf b = true /\ (d b + 1 <= i + List.length p)%nat) \/
    (d g + 1 <= i + List.length p)%nat.
Proof.
  intros I a p b Hw. induction Hw as [a|a a' p b HE Hw IH]; intros i Ha Hi; simpl.
  - left. split; [exact Ha | lia].
  - destruct (inv_done I a Ha) as [Hq|[_ Hdone]].
    + right. pose proof (sorted_head d g rest a (inv_sorted I) Hq). lia.
    + destruct (Hdone a' HE) as [Ha' Hd'].
      destruct (IH (S i) Ha' ltac:(lia)) as [[Hb Hlen]|Hlen].
      * left. split; [exact Hb | lia].
      * right. lia.
Qed.

(** With an empty queue the discovered keys are closed under the edges,
    and the goal is not among them. *)
Lemma walk_closed d cf :
  Inv d cf [] ->
  forall a p b, walk a p b -> has cf a = true -> has cf b = true.
Proof.
  intros I a p b Hw. induction Hw as [a|a a' p b HE Hw IH]; intros Ha; [exact Ha|].
  destruct (inv_done I a Ha) as [[]|[_ Hdone]].
  apply IH. now apply (Hdone a').
Qed.

Lemma Inv_length d cf queue : Inv d cf queue -> (List.length cf <= List.length adj)%nat.
Proof.
  intros I.
  assert (H : (List.length (keys cf) <= List.length (keys adj))%nat).
  { apply NoDup_incl_length; [apply I|].
    intros k Hk. apply has_keys. apply (inv_nodes I). now apply has_keys. }
  unfold keys in H. now rewrite !length_map in H.
Qed.

(** The search loop: with fuel above the number of keys still to dequeue,
    it returns a shortest walk from the start to the goal, or null when no
    walk exists. *)
Lemma bfs_spec fuel :
  forall d cf queue,
    Inv d cf queue ->
    (List.length adj - List.length cf + List.length queue < fuel)%nat ->
    match bfs fuel adj goal cf queue with
    | Some path =>
        walk start (List.map hexKey path) goal /\
        forall p, walk start p goal -> (List.length path <= List.length p)%nat
    | None => forall p, ~ walk start p goal
    end.
Proof.
  induction fuel as [|fuel IH]; intros d cf queue I Hfuel; [lia|].
  cbn [bfs]. destruct queue as [|c queue].
  - intros p Hw.
    assert (Hs : has cf start = true)
      by (unfold has; now rewrite (proj1 (inv_start I))).
    pose proof (walk_closed d cf I _ _ _ Hw Hs) as Hg.
    destruct (inv_done I goal Hg) as [[]|[Hne _]]. now apply Hne.
  - assert (Hc : has cf c = true) by (apply (inv_queue I); simpl; auto).
    destruct (String.eqb_spec c goal) as [->|Hcg].
    + destruct (reconstruct_chain d cf _ I (d goal) goal (List.length cf) [] Hc eq_refl
                                  (inv_depth I goal Hc)) as (hs & Hrec & Hlen & Hw).
      rewrite Hrec. cbn [option_map app]. split.
      * now rewrite map_rev.
      * intros p Hp. rewrite length_rev, Hlen.
        assert (Hs : has cf start = true)
          by (unfold has; now rewrite (proj1 (inv_start I))).
        pose proof (proj2 (inv_start I)) as Hd0.
        destruct (walk_bound d cf goal queue I _ _ _ Hp 0%nat Hs ltac:(lia)) as [[_ H]|H]; lia.
    + destruct (get adj c) as [ns|] eqn:Hns.
      * destruct (visit c ns cf queue) as [cf' queue'] eqn:Hv.
        destruct (visit_inv c ns d cf queue (Inv_dequeue _ _ _ _ _ I Hcg Hns)) as (d' & I' & Hlen).
        rewrite Hv in I', Hlen. cbn [fst snd] in I', Hlen.
        apply (IH d'); [exact I'|].
        pose proof (Inv_length _ _ _ I'). pose proof (Inv_length _ _ _ I).
        simpl in Hfuel. lia.
      * exfalso. pose proof (inv_nodes I c Hc) as Hn.
        unfold has in Hn. rewrite Hns in Hn. discriminate.
Qed.

(** The state in which [findTrackPath] enters the loop. *)
Lemma Inv_initial :
  Inv (fun _ => 0%nat) (set [] start EmptyString) [start].
Proof.
  assert (Hhas : forall v, has (set (@nil (string * string)) start EmptyString) v = true -> v = start).
  { intros v. rewrite has_set, orb_true_iff, String.eqb_eq. unfold has. simpl.
    intros [H|H]; [now symmetry | discriminate]. }
  assert (Hget : forall v p, get (set (@nil (string * string)) start EmptyString) v = Some p -> v = start).
  { intros v p H. apply Hhas. unfold has. now rewrite H. }
  constructor.
  - split; [apply get_set_same | reflexivity].
  - intros v p H Hne. exfalso. apply Hne. now apply (Hget v p).
  - intros v Hv. apply Hhas in Hv. now subst.
  - intros v Hv. apply Hhas in Hv. subst. left. simpl; auto.
  - intros v [<-|[]]. apply has_set_same.
  - repeat constructor.
  - intros x v _ _. lia.
  - intros v _. simpl. lia.
  - simpl. constructor; [intros [] | constructor].
Qed.

End Search.

(** ** Paths of hexes *)

(** Two hexes are the two ends of a segment of the state. *)
Definition segment (s : GameState) (a b : HexCoord) : Prop :=
  exists t, In t (values (tracks s)) /\
            ((TrackSegment.from t = a /\ TrackSegment.to t = b) \/
             (TrackSegment.from t = b /\ TrackSegment.to t = a)).

(** [trackWalk s a p b]: the hexes [p] lead from [a] to [b], both
    included, each step along a segment of the state. *)
Inductive trackWalk (s : GameState) : HexCoord -> list HexCoord -> HexCoord -> Prop :=
| trackWalk_one a : trackWalk s a [a] a
| trackWalk_step a b p c : segment s a b -> trackWalk s b p c -> trackWalk s a (a :: p) c.

(** Every segment in the track map has been built. *)
Definition allBuilt (s : GameState) : Prop :=
  forall t, In t (values (tracks s)) -> TrackSegment.built t = true.

(** Two hexes are the two ends of a segment whose [built] flag is set. *)
Definition builtSegment (s : GameState) (a b : HexCoord) : Prop :=
  exists t, In t (values (tracks s)) /\ TrackSegment.built t = true /\
            ((TrackSegment.from t = a /\ TrackSegment.to t = b) \/
             (TrackSegment.from t = b /\ TrackSegment.to t = a)).

Lemma joined_segment s a b :
  joined (values (tracks s)) (hexKey a) (hexKey b) <-> segment s a b.
Proof.
  unfold joined, segment, fromKey, toKey. split; intros [t [Hin H]]; exists t; (split; [exact Hin|]).
  - destruct H as [[H1 H2]|[H1 H2]]; apply hexKey_inj in H1, H2; subst; auto.
  - destruct H as [[<- <-]|[<- <-]]; auto.
Qed.

Lemma walk_head adj a p b : walk adj a p b -> exists p', p = a :: p'.
Proof. destruct 1; eauto. Qed.

Lemma walk_to_trackWalk s k0 ks k1 :
  walk (buildAdjacency (values (tracks s))) k0 ks k1 ->
  forall a p b,
    k0 = hexKey a -> ks = List.map hexKey p -> k1 = hexKey b ->
    trackWalk s a p b.
Proof.
  induction 1 as [x|x y p0 z HE Hw IH]; intros a p b Ha Hp Hb.
  - destruct p as [|h [|h' p]]; try discriminate.
    simpl in Hp. injection Hp as Hh. subst x.
    apply hexKey_inj in Hh. apply hexKey_inj in Hb. subst. apply trackWalk_one.
  - destruct p as [|h p]; [discriminate|].
    simpl in Hp. injection Hp as Hh Hp0. subst x.
    apply hexKey_inj in Hh. subst h.
    destruct (walk_head _ _ _ _ Hw) as [p0' Hp0'].
    destruct p as [|h' p]; [subst; discriminate|].
    assert (Hy : y = hexKey h') by (subst p0; simpl in Hp0'; now injection Hp0').
    apply trackWalk_step with h'.
    + apply joined_segment. apply buildAdjacency_neighbors. now rewrite <- Hy.
    + now apply IH.
Qed.

Lemma trackWalk_to_walk s a p b :
  trackWalk s a p b ->
  walk (buildAdjacency (values (tracks s))) (hexKey a) (List.map hexKey p) (hexKey b).
Proof.
  induction 1 as [a|a b p c Hseg Hw IH]; simpl.
  - apply walk_one.
  - apply walk_step with (hexKey b); [|exact IH].
    unfold E. apply buildAdjacency_neighbors. now apply joined_segment.
Qed.

Lemma trackWalk_pairs s a p b :
  trackWalk s a p b ->
  forall i x y, nth_error p i = Some x -> nth_error p (S i) = Some y -> segment s x y.
Proof.
  induction 1 as [a|a b p c Hseg Hw IH]; intros i x y Hx Hy.
  - destruct i as [|[|i]]; discriminate.
  - destruct i as [|i].
    + simpl in Hx, Hy. injection Hx as <-.
      inversion Hw; subst; simpl in Hy; injection Hy as <-; exact Hseg.
    + simpl in Hx. apply (IH i x y Hx Hy).
Qed.

Lemma trackWalk_nonempty s a p b : trackWalk s a p b -> (1 <= List.length p)%nat.
Proof. destruct 1; simpl; lia. Qed.

Lemma trackWalk_endpoint s a p b :
  trackWalk s a p b -> a <> b ->
  exists t, In t (values (tracks s)) /\ (TrackSegment.from t = a \/ TrackSegment.to t = a).
Proof.
  destruct 1 as [a|a b p c [t [Hin H]] _]; intros Hne; [contradiction|].
  exists t. split; [exact Hin|]. tauto.
Qed.

(** What [findTrackPath] computes when the two hexes differ and the start
    touches a segment. *)
Lemma findTrackPath_search s from to :
  from <> to ->
  has (buildAdjacency (values (tracks s))) (hexKey from) = true ->
  match findTrackPath s from to with
  | Some path =>
      trackWalk s from path to /\
      forall p, trackWalk s from p to -> (List.length path <= List.length p)%nat
  | None => forall p, ~ trackWalk s from p to
  end.
Proof.
  intros Hne Hstart. unfold findTrackPath.
  destruct (String.eqb_spec (hexKey from) (hexKey to)) as [E0|_];
    [apply hexKey_inj in E0; contradiction|].
  rewrite Hstart. cbn [negb].
  set (adj := buildAdjacency (values (tracks s))) in *.
  assert (Hnodes : forall v, has adj v = true -> exists h, v = hexKey h).
  { intros v Hv. apply buildAdjacency_has in Hv as [t [_ [->| ->]]]; eexists; reflexivity. }
  assert (Hclosed : forall a b, E adj a b -> has adj b = true).
  { intros a b Hab. apply buildAdjacency_neighbors in Hab as [t [Hin H]].
    apply buildAdjacency_has. exists t. split; [exact Hin|]. tauto. }
  pose proof (bfs_spec adj (hexKey from) (hexKey to) Hnodes Hclosed (S (List.length adj))
                _ _ _ (Inv_initial adj (hexKey from) (hexKey to) Hstart)) as H.
  assert (Hpos : (1 <= List.length adj)%nat).
  { apply has_true_iff in Hstart as [v Hv]. apply get_In in Hv.
    destruct adj; [destruct Hv | simpl; lia]. }
  specialize (H ltac:(simpl; lia)).
  destruct (bfs _ _ _ _ _) as [path|].
  - destruct H as [Hw Hmin]. split; [now apply (walk_to_trackWalk s _ _ _ Hw)|].
    intros p Hp. specialize (Hmin _ (trackWalk_to_walk _ _ _ _ Hp)).
    now rewrite length_map in Hmin.
  - intros p Hp. exact (H _ (trackWalk_to_walk _ _ _ _ Hp)).
Qed.

(** C9. findTrackPath returns the one-hex path [from] when from == to,
    and null when from differs from to and is an endpoint of no track
    segment. Every path it returns starts at from, ends at to, joins each
    consecutive pair of hexes by a segment of the state, and has the least
    number of edges among the track paths from from to to; and it returns
    a path whenever one exists, so null means that to cannot be reached.
    The segments of the state are the entries of its track map; buildTrack,
    their only writer, stores them with the built flag set, and in a state
    where all carry it the pairs of the path are joined by built
    segments. *)
Theorem findTrackPath_shortest (s : GameState) (from to : HexCoord) :
  (from = to -> findTrackPath s from to = Some [from]) /\
  (from <> to ->
   (forall t, In t (values (tracks s)) ->
              TrackSegment.from t <> from /\ TrackSegment.to t <> from) ->
   findTrackPath s from to = None) /\
  (forall path,
     findTrackPath s from to = Some path ->
     trackWalk s from path to /\
     (forall i a b, nth_error path i = Some a -> nth_error path (S i) = Some b ->
                    segment s a b) /\
     (allBuilt s ->
      forall i a b, nth_error path i = Some a -> nth_error path (S i) = Some b ->
                    builtSegment s a b) /\
     (forall p, trackWalk s from p to -> (List.length path <= List.length p)%nat)) /\
  (forall p, trackWalk s from p to -> exists path, findTrackPath s from to = Some path).
Proof.
  assert (Heq : from = to -> findTrackPath s from to = Some [from]).
  { intros <-. unfold findTrackPath. now rewrite String.eqb_refl. }
  assert (Hnone : from <> to ->
                  has (buildAdjacency (values (tracks s))) (hexKey from) = false ->
                  findTrackPath s from to = None).
  { intros Hne Hno. unfold findTrackPath.
    destruct (String.eqb_spec (hexKey from) (hexKey to)) as [E0|_];
      [apply hexKey_inj in E0; contradiction|].
    now rewrite Hno. }
  split; [exact Heq|]. split; [|split].
  - intros Hne Hfree. apply Hnone; [exact Hne|].
    apply not_true_is_false. intros H. apply buildAdjacency_has in H as [t [Hin H]].
    destruct (Hfree t Hin) as [H1 H2]. unfold fromKey, toKey in H.
    destruct H as [H|H]; apply hexKey_inj in H; congruence.
  - intros path Hpath.
    assert (Hmain : trackWalk s from path to /\
                    forall p, trackWalk s from p to -> (List.length path <= List.length p)%nat).
    { destruct (HexCoord_eq_dec from to) as [<-|Hne].
      - rewrite (Heq eq_refl) in Hpath. injection Hpath as <-.
        split; [apply trackWalk_one|]. intros p Hp. now apply trackWalk_nonempty in Hp.
      - destruct (bool_dec (has (buildAdjacency (values (tracks s))) (hexKey from)) true)
          as [Hs|Hs].
        + pose proof (findTrackPath_search s from to Hne Hs) as H. now rewrite Hpath in H.
        + apply not_true_is_false in Hs. rewrite (Hnone Hne Hs) in Hpath. discriminate. }
    destruct Hmain as [Hw Hmin]. split; [exact Hw|].
    split; [now apply trackWalk_pairs with from to|]. split; [|exact Hmin].
    intros Hall i a b Ha Hb.
    destruct (trackWalk_pairs _ _ _ _ Hw i a b Ha Hb) as [t [Hin Ht]].
    exists t. split; [exact Hin|]. split; [now apply Hall | exact Ht].
  - intros p Hp. destruct (HexCoord_eq_dec from to) as [<-|Hne].
    + eexists. now apply Heq.
    + destruct (trackWalk_endpoint _ _ _ _ Hp Hne) as [t [Hin Ht]].
      assert (Hs : has (buildAdjacency (values (tracks s))) (hexKey from) = true).
      { apply buildAdjacency_has. exists t. split; [exact Hin|].
        unfold fromKey, toKey. destruct Ht as [<-|<-]; auto. }
      pose proof (findTrackPath_search s from to Hne Hs) as H.
      destruct (findTrackPath s from to) as [path|]; [eauto|].
      exfalso. exact (H p Hp).
Qed.

(** Only buildTrack writes the track map, and it stores built segments. *)
Lemma values_set_In {V : Type} (m : JsMap V) k v x :
  In x (values (set m k v)) -> x = v \/ In x (values m).
Proof.
  unfold values. induction m as [|[k' v'] rest IH]; simpl.
  - intros [<-|[]]. auto.
  - destruct (String.eqb k' k); simpl.
    + intros [<-|H]; auto.
    + intros [<-|H]; auto. destruct (IH H); auto.
Qed.

Lemma createGameState_allBuilt m : allBuilt (createGameState m).
Proof. intros t []. Qed.

Lemma buildTrack_allBuilt s a b : allBuilt s -> allBuilt (fst (buildTrack s a b)).
Proof.
  intros H. unfold buildTrack. destruct (negb _); [exact H|].
  intros t Ht. cbn in Ht. apply values_set_In in Ht as [->|Ht]; [reflexivity | now apply H].
Qed.

(** A line of two segments over three hexes. *)
Definition railMap : Terrain.GameMap :=
  {| Terrain.width := 3; Terrain.height := 1;
     Terrain.terrain := [ ("0,0", Terrain.Plains); ("1,0", Terrain.Plains);
                          ("2,0", Terrain.Forest) ]%string;
     Terrain.cities := []; Terrain.explored := []; Terrain.resources := [] |}.

Definition rail : GameState :=
  fst (buildTrack
         (fst (buildTrack (createGameState railMap) {| q := 0; r := 0 |} {| q := 1; r := 0 |}))
         {| q := 1; r := 0 |} {| q := 2; r := 0 |}).

Lemma findTrackPath_shortest_witness :
  trackWalk rail {| q := 2; r := 0 |}
            [ {| q := 2; r := 0 |}; {| q := 1; r := 0 |}; {| q := 0; r := 0 |} ]
            {| q := 0; r := 0 |} /\
  forall p, trackWalk rail {| q := 2; r := 0 |} p {| q := 0; r := 0 |} ->
            (3 <= List.length p)%nat.
Proof.
  destruct (proj1 (proj2 (proj2
              (findTrackPath_shortest rail {| q := 2; r := 0 |} {| q := 0; r := 0 |})))
              [ {| q := 2; r := 0 |}; {| q := 1; r := 0 |}; {| q := 0; r := 0 |} ]
              eq_refl) as (H1 & _ & _ & H3).
  split; [exact H1 | exact H3].
Defined.

End PathFacts.

(* ================================================================== *)
(** * The geometry of the hex grid *)
(* ================================================================== *)

Module HexGeometry.
Import Js Hex JsFacts HexFacts.

(** The difference of two hexes along each axis. *)
Definition dq (a b : HexCoord) : Z := q a - q b.
Definition dr (a b : HexCoord) : Z := r a - r b.

Lemma hexDistance_abs a b :
  2 * hexDistance a b = Z.abs (dq a b) + Z.abs (dq a b + dr a b) + Z.abs (dr a b).
Proof.
  rewrite hexDistance_exact. unfold dq, dr.
  replace (q a + r a - q b - r b) with (q a - q b + (r a - r b)) by lia. reflexivity.
Qed.

Lemma HexCoord_ext (a b : HexCoord) : q a = q b -> r a = r b -> a = b.
Proof. destruct a, b; simpl; intros -> ->; reflexivity. Qed.

Lemma hexDistance_refl a : hexDistance a a = 0.
Proof. pose proof (hexDistance_abs a a) as H. unfold dq, dr in H. lia. Qed.

(** X1. hexDistance is a metric on the grid: it is never negative, it is 0
    exactly between a hex and itself, it is symmetric and it satisfies the
    triangle inequality; it is the largest of the three axis differences. *)
Theorem hexDistance_metric (a b c : HexCoord) :
  0 <= hexDistance a b /\
  (hexDistance a b = 0 <-> a = b) /\
  hexDistance a b = hexDistance b a /\
  hexDistance a c <= hexDistance a b + hexDistance b c /\
  hexDistance a b =
    Z.max (Z.max (Z.abs (q a - q b)) (Z.abs (r a - r b)))
          (Z.abs (q a + r a - q b - r b)).
Proof.
  pose proof (hexDistance_abs a b) as Hab.
  pose proof (hexDistance_abs b a) as Hba.
  pose proof (hexDistance_abs b c) as Hbc.
  pose proof (hexDistance_abs a c) as Hac.
  unfold dq, dr in *.
  split; [clear Hba Hbc Hac; lia|].
  split.
  { clear Hba Hbc Hac. split.
    - intros H0. apply HexCoord_ext; lia.
    - intros <-. lia. }
  split; [clear Hbc Hac; lia|].
  split; [clear Hba; lia|].
  clear Hba Hbc Hac. lia.
Qed.

(** X2. The six neighbours of a hex are exactly the hexes at distance 1 from
    it, each listed once; and being a neighbour is symmetric. *)
Theorem hexNeighbors_distance_one (a b : HexCoord) :
  (In b (hexNeighbors a) <-> hexDistance a b = 1) /\
  (In b (hexNeighbors a) <-> In a (hexNeighbors b)) /\
  List.length (hexNeighbors a) = 6%nat /\
  NoDup (hexNeighbors a).
Proof.
  assert (Hiff : forall x y, In y (hexNeighbors x) <-> hexDistance x y = 1).
  { intros x y. pose proof (hexDistance_abs x y) as H. unfold dq, dr in H.
    unfold hexNeighbors, HEX_DIRECTIONS. cbn [List.map In Hex.q Hex.r]. split.
    - intros Hin.
      repeat (destruct Hin as [<-|Hin]; [cbn [Hex.q Hex.r] in H; lia|]). destruct Hin.
    - intros Hd.
      assert (Hcases :
        (q y = q x + 1 /\ r y = r x + 0) \/ (q y = q x + 1 /\ r y = r x + -1) \/
        (q y = q x + 0 /\ r y = r x + -1) \/ (q y = q x + -1 /\ r y = r x + 0) \/
        (q y = q x + -1 /\ r y = r x + 1) \/ (q y = q x + 0 /\ r y = r x + 1)) by lia.
      destruct Hcases as [[H1 H2]|[[H1 H2]|[[H1 H2]|[[H1 H2]|[[H1 H2]|[H1 H2]]]]]];
        [left | right; left | do 2 right; left | do 3 right; left
         | do 4 right; left | do 5 right; left];
        apply HexCoord_ext; cbn [Hex.q Hex.r]; lia. }
  split; [apply Hiff|]. split.
  - rewrite !Hiff. pose proof (hexDistance_sym a b). lia.
  - split; [reflexivity|].
    unfold hexNeighbors, HEX_DIRECTIONS. cbn [List.map Hex.q Hex.r].
    repeat constructor; cbn [In]; intros Hin;
      repeat (destruct Hin as [Hin|Hin];
              [apply (f_equal (fun h => (Hex.q h, Hex.r h))) in Hin; cbn in Hin;
               injection Hin; intros; lia|]); destruct Hin.
Qed.

End HexGeometry.

(* ================================================================== *)
(** * Keys of hexes and of track segments *)
(* ================================================================== *)

Module KeyFacts.
Import Js Hex Engine JsFacts HexFacts ConstructionFacts.

Definition gt : ascii := ">"%char.

Lemma uint_no_gt d : contains gt (NilEmpty.string_of_uint d) = false.
Proof. induction d; simpl; auto. Qed.

Lemma numberToString_no_gt z : contains gt (numberToString z) = false.
Proof.
  unfold numberToString. destruct (Z.to_int z) as [d|d]; simpl.
  - destruct d; simpl; auto using uint_no_gt.
  - destruct d; simpl; auto using uint_no_gt.
Qed.

Lemma contains_app c s1 s2 :
  contains c (s1 ++ s2) = contains c s1 || contains c s2.
Proof.
  induction s1 as [|a s1 IH]; simpl; [reflexivity|].
  rewrite IH. now rewrite orb_assoc.
Qed.

Lemma hexKey_no_gt h : contains gt (hexKey h) = false.
Proof.
  unfold hexKey. rewrite contains_app. cbn [contains].
  now rewrite !numberToString_no_gt.
Qed.

(** Two strings without [>] that are followed by the arrow and a rest:
    equal wholes have equal parts. *)
Lemma arrow_split s1 : forall t1 s2 t2,
  contains gt s1 = false -> contains gt t1 = false ->
  (s1 ++ arrow ++ s2 = t1 ++ arrow ++ t2)%string ->
  s1 = t1 /\ s2 = t2.
Proof.
  induction s1 as [|a s1 IH]; intros [|b t1] s2 t2 Hs Ht; cbn [append arrow].
  - intros [= ->]. auto.
  - intros [= <- H]. exfalso. destruct t1 as [|c t1]; cbn [append] in H.
    + discriminate.
    + injection H as <- _. cbn in Ht. discriminate.
  - intros [= -> H]. exfalso. destruct s1 as [|c s1]; cbn [append] in H.
    + discriminate.
    + injection H as -> _. cbn in Hs. discriminate.
  - intros [= <- H]. cbn [contains] in Hs, Ht.
    apply orb_false_iff in Hs as [_ Hs]. apply orb_false_iff in Ht as [_ Ht].
    destruct (IH t1 s2 t2 Hs Ht H) as [-> ->]. auto.
Qed.

(** X3. A hex key parses back to the hex it was printed from, so two hexes
    have the same key only when they are the same hex. *)
Theorem hexKey_round_trip (a b : HexCoord) :
  parseHexKey (hexKey a) = Some a /\
  (hexKey a = hexKey b <-> a = b) /\
  (String.eqb (hexKey a) (hexKey b) = true <-> a = b).
Proof.
  split; [apply parseHexKey_hexKey|]. split; [|apply hexKey_eqb].
  split; [apply hexKey_inj | now intros ->].
Qed.

(** X4. The key of a track segment identifies its unordered pair of hexes:
    the two directions of a pair share one key, and two pairs with the same
    key are the same pair. *)
Theorem trackKey_unordered_pair (a b c d : HexCoord) :
  trackKey a b = trackKey b a /\
  (trackKey a b = trackKey c d <-> (a = c /\ b = d) \/ (a = d /\ b = c)).
Proof.
  split; [apply trackKey_sym|]. split.
  - unfold trackKey.
    destruct (String.ltb (hexKey a) (hexKey b)), (String.ltb (hexKey c) (hexKey d));
      intros H; apply arrow_split in H; try apply hexKey_no_gt;
      destruct H as [H1 H2]; apply hexKey_inj in H1, H2; auto.
  - intros [[-> ->]|[-> ->]]; [reflexivity | apply trackKey_sym].
Qed.

End KeyFacts.

(* ================================================================== *)
(** * Fog of war and notifications *)
(* ================================================================== *)

Module DisplayFacts.
Import Js Hex Engine JsFacts HexFacts.

Lemma offsets_In radius x : In x (offsets radius) <-> - radius <= x <= radius.
Proof.
  unfold offsets. rewrite in_map_iff. split.
  - intros [k [<- Hk]]. apply in_seq in Hk. lia.
  - intros H. exists (Z.to_nat (x + radius)). split; [lia|]. apply in_seq. lia.
Qed.

Lemma setAdd_NoDup s k : NoDup s -> NoDup (setAdd s k).
Proof.
  intros H. unfold setAdd. destruct (setHas s k) eqn:E; [exact H|].
  apply NoDup_app; [exact H | repeat constructor; intros [] |].
  intros x Hx [<-|[]]. apply setHas_In in Hx. congruence.
Qed.

Lemma setAdd_prefix s k : exists added, setAdd s k = s ++ added.
Proof.
  unfold setAdd. destruct (setHas s k); [exists []; now rewrite app_nil_r | eauto].
Qed.

(** A loop that adds the keys of the selected items to a set. *)
Lemma fold_setAdd {A : Type} (sel : A -> bool) (key : A -> string) (l : list A) :
  forall ex,
    let ex' := List.fold_left (fun ex x => if sel x then setAdd ex (key x) else ex) l ex in
    (forall k, In k ex' <-> In k ex \/ exists x, In x l /\ sel x = true /\ k = key x) /\
    (NoDup ex -> NoDup ex') /\
    (exists added, ex' = ex ++ added).
Proof.
  induction l as [|a l IH]; intros ex; cbn [List.fold_left].
  - cbv zeta. split; [|split; [auto | exists []; now rewrite app_nil_r]].
    intros k. split; [auto | intros [H|[x [[] _]]]; exact H].
  - specialize (IH (if sel a then setAdd ex (key a) else ex)). cbv zeta in IH |- *.
    destruct IH as (Hin & Hnd & [added Hadd]). split; [|split].
    + intros k. rewrite Hin. destruct (sel a) eqn:Ha.
      * rewrite setAdd_In. split.
        -- intros [[H| ->]|[x [Hx [Hs Hk]]]]; auto.
           ++ right. exists a. simpl; auto.
           ++ right. exists x. simpl; auto.
        -- intros [H|[x [[<-|Hx] [Hs Hk]]]]; auto. right. exists x. auto.
      * split.
        -- intros [H|[x [Hx [Hs Hk]]]]; auto. right. exists x. simpl; auto.
        -- intros [H|[x [[<-|Hx] [Hs Hk]]]]; auto; [congruence|]. right. exists x. auto.
    + intros H. apply Hnd. destruct (sel a); [now apply setAdd_NoDup | exact H].
    + destruct (sel a).
      * destruct (setAdd_prefix ex (key a)) as [add0 E0].
        exists (add0 ++ added). now rewrite Hadd, E0, app_assoc.
      * eauto.
Qed.

(** A loop of loops that only add to a set. *)
Lemma fold_rows_setAdd {A : Type} (row : JsSet -> A -> JsSet)
    (P : A -> string -> Prop) (rows : list A) :
  (forall ex a,
     (forall k, In k (row ex a) <-> In k ex \/ P a k) /\
     (NoDup ex -> NoDup (row ex a)) /\
     (exists added, row ex a = ex ++ added)) ->
  forall ex,
    (forall k, In k (List.fold_left row rows ex) <->
               In k ex \/ exists a, In a rows /\ P a k) /\
    (NoDup ex -> NoDup (List.fold_left row rows ex)) /\
    (exists added, List.fold_left row rows ex = ex ++ added).
Proof.
  intros Hrow. induction rows as [|a rows IH]; intros ex; cbn [List.fold_left].
  - split; [|split; [auto | exists []; now rewrite app_nil_r]].
    intros k. split; [auto | intros [H|[x [[] _]]]; exact H].
  - destruct (IH (row ex a)) as (Hin & Hnd & [added Hadd]).
    destruct (Hrow ex a) as (Rin & Rnd & [add0 Radd]). split; [|split].
    + intros k. rewrite Hin, Rin. split.
      * intros [[H|H]|[x [Hx Hk]]]; auto.
        -- right. exists a. simpl; auto.
        -- right. exists x. simpl; auto.
      * intros [H|[x [[<-|Hx] Hk]]]; auto. right. exists x. auto.
    + auto.
    + exists (add0 ++ added). now rewrite Hadd, Radd, app_assoc.
Qed.

(** X5. revealAround marks as explored exactly the hexes within the radius
    of the centre: afterwards a key is explored when it was explored before
    or is the key of a hex at distance at most the radius. The set keeps
    its earlier entries in their order, stays free of repeats, and nothing
    else of the state changes. *)
Theorem revealAround_disc (state : GameState) (center : HexCoord) (radius : Z) :
  let state' := revealAround state center radius in
  (forall k, In k (Terrain.explored (map state')) <->
             In k (Terrain.explored (map state)) \/
             exists h, k = hexKey h /\ hexDistance center h <= radius) /\
  (NoDup (Terrain.explored (map state)) -> NoDup (Terrain.explored (map state'))) /\
  (exists added,
     Terrain.explored (map state') = Terrain.explored (map state) ++ added) /\
  state' = set_map state (set_explored (map state) (Terrain.explored (map state'))).
Proof.
  cbv zeta. unfold revealAround.
  cbn [map set_map Terrain.explored set_explored].
  set (row := fun ex dr0 =>
         List.fold_left
           (fun ex dq0 =>
              if hexDistance center {| q := q center + dq0; r := r center + dr0 |} <=? radius
              then setAdd ex (hexKey {| q := q center + dq0; r := r center + dr0 |})
              else ex)
           (offsets radius) ex).
  destruct (fold_rows_setAdd row
              (fun dr0 k => exists dq0, In dq0 (offsets radius) /\
                 (hexDistance center {| q := q center + dq0; r := r center + dr0 |} <=? radius) = true /\
                 k = hexKey {| q := q center + dq0; r := r center + dr0 |})
              (offsets radius)) with (ex := Terrain.explored (map state))
    as (Hin & Hnd & Hadd).
  { intros ex a. subst row. cbv beta.
    exact (fold_setAdd
             (fun dq0 => hexDistance center {| q := q center + dq0; r := r center + a |} <=? radius)
             (fun dq0 => hexKey {| q := q center + dq0; r := r center + a |})
             (offsets radius) ex). }
  split; [|split; [exact Hnd | split; [exact Hadd | reflexivity]]].
  intros k. rewrite Hin. split.
  - intros [H|[dr0 [_ [dq0 [_ [Hd ->]]]]]]; [auto|].
    right. eexists. split; [reflexivity|]. now apply Z.leb_le.
  - intros [H|[h [-> Hd]]]; [auto|]. right.
    pose proof (hexDistance_exact center h) as Hex.
    exists (r h - r center). split; [apply offsets_In; lia|].
    exists (q h - q center). split; [apply offsets_In; lia|].
    replace {| q := q center + (q h - q center); r := r center + (r h - r center) |}
      with h by (destruct h; cbn; f_equal; lia).
    split; [now apply Z.leb_le | reflexivity].
Qed.

(** ** Notifications *)

Lemma trimNotifications_skipn fuel : forall l,
  (List.length l - 5 <= fuel)%nat ->
  trimNotifications fuel l = List.skipn (List.length l - 5) l.
Proof.
  induction fuel as [|fuel IH]; intros l Hfuel; cbn [trimNotifications].
  - replace (List.length l - 5)%nat with 0%nat by lia. reflexivity.
  - destruct (Nat.ltb_spec 5 (List.length l)) as [Hlong|Hshort].
    + destruct l as [|n l]; [simpl in Hlong; lia|]. cbn [List.tl].
      rewrite IH by (simpl in *; lia).
      cbn [List.length] in *. replace (S (List.length l) - 5)%nat with (S (List.length l - 5)) by lia.
      reflexivity.
    + replace (List.length l - 5)%nat with 0%nat by lia. reflexivity.
Qed.

(** X6. addNotification appends the new notification and keeps the latest
    five: the list afterwards is the old list with the new entry at its
    end, minus as many of its oldest entries as exceed five. The new entry
    is always the last one, the list never holds more than five entries
    afterwards, and nothing else of the state changes. *)
Theorem addNotification_latest_five (state : GameState) (ttl : string) (sev : Severity) :
  let pushed := notifications state ++ [ {| title := ttl; severity := sev |} ] in
  let state' := addNotification state ttl sev in
  notifications state' = List.skipn (List.length pushed - 5) pushed /\
  (List.length (notifications state') = Nat.min 5 (List.length pushed)) /\
  List.last (notifications state') {| title := ttl; severity := sev |}
    = {| title := ttl; severity := sev |} /\
  (exists kept, notifications state' = kept ++ [ {| title := ttl; severity := sev |} ]) /\
  state' = set_notifications state (notifications state').
Proof.
  cbv zeta. unfold addNotification. cbn [notifications set_notifications].
  set (n := {| title := ttl; severity := sev |}).
  set (pushed := notifications state ++ [n]).
  rewrite trimNotifications_skipn by lia.
  assert (Hlen : List.length pushed = S (List.length (notifications state)))
    by (subst pushed; rewrite length_app; simpl; lia).
  assert (Hkept : exists kept, List.skipn (List.length pushed - 5) pushed = kept ++ [n]).
  { subst pushed. rewrite skipn_app.
    replace (List.length (notifications state ++ [n]) - 5 - List.length (notifications state))%nat
      with 0%nat by lia.
    cbn [List.skipn]. eauto. }
  split; [reflexivity|]. split; [rewrite length_skipn; lia|]. split; [|split; [exact Hkept | reflexivity]].
  destruct Hkept as [kept ->]. apply last_last.
Qed.

End DisplayFacts.

(* ================================================================== *)
(** * The effect of building *)
(* ================================================================== *)

Module BuildFacts.
Import Js Hex Engine JsFacts HexFacts ConstructionFacts.

(** A new key is appended to the entries. *)
Lemma set_new {V : Type} (m : JsMap V) k v :
  has m k = false -> set m k v = m ++ [(k, v)].
Proof.
  unfold has. induction m as [|[k' v'] rest IH]; simpl; [reflexivity|].
  destruct (String.eqb k' k); [discriminate|]. intros H. now rewrite IH.
Qed.

(** The price of a segment, by the terrain of its destination. *)
Lemma track_price t mult :
  Terrain.trackCostMultiplier (Terrain.TERRAIN_DATA t) = Some mult ->
  Qfloor (inject_Z COSTS.trackPerHex * mult) =
    match t with
    | Terrain.Plains => 500 | Terrain.Forest => 750 | Terrain.Hills => 1000
    | Terrain.Mountains => 2000 | Terrain.River => 1500 | Terrain.Desert => 600
    | Terrain.Swamp => 1250 | Terrain.Coast => 500 | Terrain.Water => 0
    end.
Proof. destruct t; simpl; intros [= <-]; reflexivity. Qed.

(** What an accepted track check has established. *)
Lemma canBuildTrack_ok s a b :
  ok (canBuildTrack s a b) = true ->
  hexDistance a b = 1 /\
  has (tracks s) (trackKey a b) = false /\
  exists t mult,
    get (Terrain.terrain (map s)) (hexKey b) = Some t /\ t <> Terrain.Water /\
    Terrain.trackCostMultiplier (Terrain.TERRAIN_DATA t) = Some mult /\
    cost (canBuildTrack s a b) = Qfloor (inject_Z COSTS.trackPerHex * mult) /\
    cost (canBuildTrack s a b) <= funds s.
Proof.
  unfold canBuildTrack.
  destruct (Z.eqb_spec (hexDistance a b) 1) as [Hd|Hd]; cbn [negb]; [|discriminate].
  destruct (get (Terrain.terrain (map s)) (hexKey b)) as [t|] eqn:Ht; [|discriminate].
  destruct (Terrain.terrainEqb t Terrain.Water) eqn:Hw; [discriminate|].
  destruct (has (tracks s) (trackKey a b)) eqn:Hh; [discriminate|].
  destruct (Terrain.trackCostMultiplier (Terrain.TERRAIN_DATA t)) as [mult|] eqn:Hm;
    [|discriminate].
  destruct (Z.ltb_spec (funds s) (Qfloor (inject_Z COSTS.trackPerHex * mult))) as [Hf|Hf];
    [discriminate|].
  intros _. split; [exact Hd|]. split; [reflexivity|].
  exists t, mult. split; [reflexivity|]. split; [intros ->; discriminate|].
  split; [exact Hm|]. split; [reflexivity | exact Hf].
Qed.

(** X7. buildTrack is all or nothing. A refused build returns the state
    unchanged. An accepted build joins two adjacent hexes whose pair had no
    segment, on a destination that is on the map and not Water; it appends
    one built standard segment under the key of the pair, and takes the
    price of the destination terrain, between 500 and 2000, from funds that
    cover it, so the funds do not go below 0; stations, trains, calendar
    and the terrain stay as they were. *)
Theorem buildTrack_effect (s : GameState) (from to : HexCoord) :
  (snd (buildTrack s from to) = false -> fst (buildTrack s from to) = s) /\
  (snd (buildTrack s from to) = true ->
   let s' := fst (buildTrack s from to) in
   hexDistance from to = 1 /\
   has (tracks s) (trackKey from to) = false /\
   (exists t,
      get (Terrain.terrain (map s)) (hexKey to) = Some t /\ t <> Terrain.Water /\
      funds s' = funds s -
        match t with
        | Terrain.Plains => 500 | Terrain.Forest => 750 | Terrain.Hills => 1000
        | Terrain.Mountains => 2000 | Terrain.River => 1500 | Terrain.Desert => 600
        | Terrain.Swamp => 1250 | Terrain.Coast => 500 | Terrain.Water => 0
        end) /\
   funds s - 2000 <= funds s' <= funds s - 500 /\
   0 <= funds s' /\
   tracks s' = tracks s ++
     [ (trackKey from to,
        {| TrackSegment.from := from; TrackSegment.to := to;
           TrackSegment.built := true; TrackSegment.type := TrackSegment.standard |}) ] /\
   stations s' = stations s /\ trains s' = trains s /\
   monthlyIncome s' = monthlyIncome s /\ monthlyExpenses s' = monthlyExpenses s /\
   month s' = month s /\ year s' = year s /\ era s' = era s /\
   research s' = research s /\ nextTrainId s' = nextTrainId s /\
   notifications s' = notifications s /\
   Terrain.terrain (map s') = Terrain.terrain (map s) /\
   Terrain.cities (map s') = Terrain.cities (map s)).
Proof.
  unfold buildTrack. destruct (ok (canBuildTrack s from to)) eqn:Hok; cbn [negb fst snd].
  - split; [discriminate|]. intros _. cbv zeta.
    destruct (canBuildTrack_ok _ _ _ Hok) as (Hd & Hnew & t & mult & Ht & Hw & Hm & Hc & Hf).
    rewrite Hc, (track_price t mult Hm) in *.
    cbn [funds tracks stations trains monthlyIncome monthlyExpenses month year era
         research nextTrainId notifications map revealAround set_map set_funds set_tracks
         Terrain.terrain Terrain.cities set_explored].
    rewrite (set_new _ _ _ Hnew).
    split; [exact Hd|]. split; [exact Hnew|].
    split; [exists t; auto|].
    split; [destruct t; try lia; contradiction|].
    split; [lia|]. repeat split.
  - split; [reflexivity | discriminate].
Qed.

(** ** Stations *)

(** [findIndex] returns the first index that satisfies the test, or -1. *)
Lemma findIndexFrom_spec {A : Type} (p : A -> bool) (l : list A) : forall base,
  0 <= base ->
  (findIndexFrom p l base = -1 /\ forall x, In x l -> p x = false) \/
  (exists i x, findIndexFrom p l base = base + Z.of_nat i /\
               nth_error l i = Some x /\ p x = true /\
               forall j y, (j < i)%nat -> nth_error l j = Some y -> p y = false).
Proof.
  induction l as [|a l IH]; intros base Hb; cbn [findIndexFrom].
  - left. split; [reflexivity | intros x []].
  - destruct (p a) eqn:Ha.
    + right. exists 0%nat, a. split; [lia|]. split; [reflexivity|]. split; [exact Ha|].
      intros j y Hj. lia.
    + destruct (IH (base + 1) ltac:(lia)) as [[E Hall]|(i & x & E & Hn & Hp & Hfirst)].
      * left. split; [exact E|]. intros x [<-|Hx]; auto.
      * right. exists (S i), x. split; [lia|]. split; [exact Hn|]. split; [exact Hp|].
        intros [|j] y Hj Hy; [now injection Hy as <- | apply (Hfirst j y); [lia | exact Hy]].
Qed.

Lemma nth_error_combine_seq {A : Type} (l : list A) : forall start k,
  nth_error (List.combine (List.seq start (List.length l)) l) k =
  option_map (fun x => ((start + k)%nat, x)) (nth_error l k).
Proof.
  induction l as [|a l IH]; intros start k; cbn [List.length List.seq List.combine].
  - now destruct k.
  - destruct k as [|k]; cbn [nth_error option_map].
    + now rewrite Nat.add_0_r.
    + rewrite IH. destruct (nth_error l k); cbn [option_map]; [|reflexivity].
      now rewrite Nat.add_succ_r.
Qed.

(** [updateAt] rewrites the element at the index and no other. *)
Lemma nth_error_updateAt {A : Type} (l : list A) (i : Z) (f : A -> A) (k : nat) :
  nth_error (updateAt l i f) k =
  option_map (fun x => if Z.of_nat k =? i then f x else x) (nth_error l k).
Proof.
  unfold updateAt. rewrite nth_error_map, nth_error_combine_seq.
  destruct (nth_error l k); reflexivity.
Qed.

Lemma length_updateAt {A : Type} (l : list A) (i : Z) (f : A -> A) :
  List.length (updateAt l i f) = List.length l.
Proof.
  unfold updateAt. rewrite length_map, length_combine, length_seq. lia.
Qed.

(** The city index that the station code computes for a hex: -1 when no
    city stands there, the index of the first city on the hex otherwise. *)
Lemma cityAt_spec s hex :
  (cityAt s (hexKey hex) = -1 /\
   (forall c, In c (Terrain.cities (map s)) -> Terrain.hex c <> hex) /\
   index (Terrain.cities (map s)) (cityAt s (hexKey hex)) = None) \/
  (exists i c,
     cityAt s (hexKey hex) = Z.of_nat i /\
     nth_error (Terrain.cities (map s)) i = Some c /\ Terrain.hex c = hex /\
     (forall j c', (j < i)%nat -> nth_error (Terrain.cities (map s)) j = Some c' ->
                   Terrain.hex c' <> hex) /\
     index (Terrain.cities (map s)) (cityAt s (hexKey hex)) = Some c).
Proof.
  unfold cityAt, findIndex.
  destruct (findIndexFrom_spec
              (fun c => String.eqb (hexKey (Terrain.hex c)) (hexKey hex))
              (Terrain.cities (map s)) 0 ltac:(lia))
    as [[E Hall]|(i & c & E & Hn & Hp & Hfirst)]; rewrite E.
  - left. split; [reflexivity|]. split; [|reflexivity].
    intros c Hin Heq. specialize (Hall c Hin). cbv beta in Hall.
    rewrite Heq, String.eqb_refl in Hall. discriminate.
  - right. exists i, c. rewrite Z.add_0_l, EconomyFacts.index_of_nat.
    split; [reflexivity|]. split; [exact Hn|]. split; [now apply hexKey_eqb|].
    split; [|exact Hn]. intros j c' Hj Hc' Heq. specialize (Hfirst j c' Hj Hc'). cbv beta in Hfirst.
    rewrite Heq, String.eqb_refl in Hfirst. discriminate.
Qed.

(** What an accepted station check has established. *)
Lemma canBuildStation_ok s hex :
  ok (canBuildStation s hex) = true ->
  has (stations s) (hexKey hex) = false /\
  (exists t, get (Terrain.terrain (map s)) (hexKey hex) = Some t /\
             t <> Terrain.Water /\ t <> Terrain.Mountains) /\
  cost (canBuildStation s hex) =
    (if 0 <=? cityAt s (hexKey hex) then COSTS.stationBasic else COSTS.stationHalt) /\
  cost (canBuildStation s hex) <= funds s.
Proof.
  unfold canBuildStation.
  destruct (has (stations s) (hexKey hex)) eqn:Hh; [discriminate|].
  destruct (get (Terrain.terrain (map s)) (hexKey hex)) as [t|] eqn:Ht; [|discriminate].
  set (price := if 0 <=? cityAt s (hexKey hex) then COSTS.stationBasic else COSTS.stationHalt).
  assert (Hgo : forall b,
    ok (if negb b then reject 0 "Cannot build station here"
        else if funds s <? price then reject price "Insufficient funds"
        else if (0 <? size (stations s))
                && negb (List.existsb
                          (fun t0 => String.eqb (hexKey (TrackSegment.from t0)) (hexKey hex)
                                     || String.eqb (hexKey (TrackSegment.to t0)) (hexKey hex))
                          (values (tracks s)))
             then reject price "Must connect to track network"
             else accept price) = true ->
    b = true /\
    cost (if negb b then reject 0 "Cannot build station here"
        else if funds s <? price then reject price "Insufficient funds"
        else if (0 <? size (stations s))
                && negb (List.existsb
                          (fun t0 => String.eqb (hexKey (TrackSegment.from t0)) (hexKey hex)
                                     || String.eqb (hexKey (TrackSegment.to t0)) (hexKey hex))
                          (values (tracks s)))
             then reject price "Must connect to track network"
             else accept price) = price /\ price <= funds s).
  { intros [|]; cbn [negb]; [|discriminate].
    destruct (Z.ltb_spec (funds s) price); [discriminate|].
    destruct (_ && _); [discriminate|]. auto. }
  destruct t; intros H; apply Hgo in H; destruct H as (Hb & Hc & Hf); try discriminate;
    (split; [reflexivity|]; split; [eexists; split; [reflexivity|]; split; discriminate|];
     split; [exact Hc | rewrite Hc; exact Hf]).
Qed.

(** X8. buildStation is all or nothing. A refused build returns the state
    unchanged. An accepted build stands on a hex of the map that is neither
    Water nor Mountains and had no station; it appends one station under
    the key of the hex, a two-platform station carrying the name and index
    of the city on that hex, or a one-platform halt when no city is there,
    and takes 3000 or 1000 from funds that cover it. The city on the hex,
    and no other, is marked as having a station. A second build on the same
    hex is refused with the reason Station already here. *)
Theorem buildStation_effect (s : GameState) (hex : HexCoord) :
  (snd (buildStation s hex) = false -> fst (buildStation s hex) = s) /\
  (snd (buildStation s hex) = true ->
   let s' := fst (buildStation s hex) in
   let cityIndex := cityAt s (hexKey hex) in
   has (stations s) (hexKey hex) = false /\
   (exists t, get (Terrain.terrain (map s)) (hexKey hex) = Some t /\
              t <> Terrain.Water /\ t <> Terrain.Mountains) /\
   (exists st,
      stations s' = stations s ++ [(hexKey hex, st)] /\
      Station.hex st = hex /\ Station.cityIndex st = cityIndex /\
      ((cityIndex = -1 /\
        (forall c, In c (Terrain.cities (map s)) -> Terrain.hex c <> hex) /\
        Station.type st = Station.halt /\ Station.platforms st = 1 /\
        Station.name st = ("Halt " ++ numberToString (size (stations s) + 1))%string /\
        funds s' = funds s - 1000) \/
       (exists i c,
          cityIndex = Z.of_nat i /\
          nth_error (Terrain.cities (map s)) i = Some c /\ Terrain.hex c = hex /\
          (forall j c', (j < i)%nat -> nth_error (Terrain.cities (map s)) j = Some c' ->
                        Terrain.hex c' <> hex) /\
          Station.type st = Station.station /\ Station.platforms st = 2 /\
          Station.name st = Terrain.name c /\
          funds s' = funds s - 3000))) /\
   0 <= funds s' /\
   List.length (Terrain.cities (map s')) = List.length (Terrain.cities (map s)) /\
   (forall k c, nth_error (Terrain.cities (map s)) k = Some c ->
      nth_error (Terrain.cities (map s')) k =
        Some (if Z.of_nat k =? cityIndex then markStation c else c)) /\
   tracks s' = tracks s /\ trains s' = trains s /\
   Terrain.terrain (map s') = Terrain.terrain (map s) /\
   buildStation s' hex = (s', false) /\
   reason (canBuildStation s' hex) = Some "Station already here"%string).
Proof.
  unfold buildStation. destruct (ok (canBuildStation s hex)) eqn:Hok; cbn [negb fst snd].
  2:{ split; [reflexivity | discriminate]. }
  split; [discriminate|]. intros _. cbv zeta.
  destruct (canBuildStation_ok _ _ Hok) as (Hnew & Hter & Hc & Hf).
  rewrite Hc in *. clear Hc.
  pose proof (cityAt_spec s hex) as Hspec.
  set (cityIndex := cityAt s (hexKey hex)) in *. clearbody cityIndex.
  set (st := {| Station.hex := hex;
                Station.name := match index (Terrain.cities (map s)) cityIndex with
                                | Some c => Terrain.name c
                                | None => ("Halt " ++ numberToString (size (stations s) + 1))%string
                                end;
                Station.type := if 0 <=? cityIndex then Station.station else Station.halt;
                Station.platforms := if 0 <=? cityIndex then 2 else 1;
                Station.cityIndex := cityIndex |}).
  set (s2 := set_funds (set_stations s (set (stations s) (hexKey hex) st))
                       (funds (set_stations s (set (stations s) (hexKey hex) st))
                        - (if 0 <=? cityIndex then COSTS.stationBasic else COSTS.stationHalt))).
  set (s3 := if 0 <=? cityIndex
             then addNotification
                    (set_map s2 (set_cities (map s2)
                       (updateAt (Terrain.cities (map s2)) cityIndex markStation)))
                    "Station Built" success
             else s2).
  assert (Hst : stations (revealAround s3 hex 3) = stations s ++ [(hexKey hex, st)]).
  { subst s3 s2. destruct (0 <=? cityIndex); cbn; now rewrite (set_new _ _ _ Hnew). }
  assert (Hfu : funds (revealAround s3 hex 3) =
                funds s - (if 0 <=? cityIndex then COSTS.stationBasic else COSTS.stationHalt)).
  { subst s3 s2. destruct (0 <=? cityIndex); reflexivity. }
  assert (Htr : tracks (revealAround s3 hex 3) = tracks s /\
                trains (revealAround s3 hex 3) = trains s /\
                Terrain.terrain (map (revealAround s3 hex 3)) = Terrain.terrain (map s)).
  { subst s3 s2. destruct (0 <=? cityIndex); repeat split. }
  assert (Hci : Terrain.cities (map (revealAround s3 hex 3)) =
                if 0 <=? cityIndex
                then updateAt (Terrain.cities (map s)) cityIndex markStation
                else Terrain.cities (map s)).
  { subst s3 s2. destruct (0 <=? cityIndex); reflexivity. }
  assert (Hhas' : has (stations (revealAround s3 hex 3)) (hexKey hex) = true).
  { rewrite Hst. apply (In_has _ _ st). apply in_or_app. right. simpl; auto. }
  assert (Hcheck' : canBuildStation (revealAround s3 hex 3) hex = reject 0 "Station already here").
  { unfold canBuildStation. now rewrite Hhas'. }
  split; [exact Hnew|]. split; [exact Hter|]. split.
  { exists st. split; [exact Hst|]. split; [reflexivity|]. split; [reflexivity|].
    rewrite Hfu. subst st. cbn [Station.type Station.platforms Station.name].
    destruct Hspec as [(E & Hall & Hidx)|(i & c & E & Hn & Hh & Hfirst & Hidx)]; rewrite Hidx.
    - left. rewrite E. cbn [Z.leb Z.compare]. repeat split; auto.
    - right. exists i, c. rewrite E. destruct (Z.leb_spec 0 (Z.of_nat i)); [|lia].
      repeat split; auto. }
  split. { rewrite Hfu. destruct (0 <=? cityIndex); unfold COSTS.stationBasic, COSTS.stationHalt in *; lia. }
  split. { rewrite Hci. destruct (0 <=? cityIndex); [apply length_updateAt | reflexivity]. }
  split.
  { intros k c Hk. rewrite Hci. destruct (Z.leb_spec 0 cityIndex) as [Hge|Hlt].
    - rewrite nth_error_updateAt, Hk. reflexivity.
    - rewrite Hk. destruct (Z.eqb_spec (Z.of_nat k) cityIndex); [lia | reflexivity]. }
  destruct Htr as (H1 & H2 & H3).
  split; [exact H1|]. split; [exact H2|]. split; [exact H3|].
  split; [|now rewrite Hcheck'].
  rewrite Hcheck'. reflexivity.
Qed.

Lemma buildTrack_effect_witness :
  funds (fst (buildTrack ConstructionFacts.shore {| q := 1; r := 0 |} {| q := 2; r := 0 |}))
    = 50000 - 500 /\
  List.length
    (tracks (fst (buildTrack ConstructionFacts.shore {| q := 1; r := 0 |} {| q := 2; r := 0 |})))
    = 1%nat.
Proof.
  assert (Hok : snd (buildTrack ConstructionFacts.shore {| q := 1; r := 0 |} {| q := 2; r := 0 |})
                = true) by (vm_compute; reflexivity).
  destruct (proj2 (buildTrack_effect ConstructionFacts.shore {| q := 1; r := 0 |} {| q := 2; r := 0 |})
              Hok) as (_ & _ & (t & Ht & _ & Hf) & _ & _ & Htr & _).
  split.
  - rewrite Hf. vm_compute in Ht. injection Ht as <-. vm_compute. reflexivity.
  - rewrite Htr. vm_compute. reflexivity.
Defined.

End BuildFacts.

(* ================================================================== *)
(** * The fleet: purchase, retirement and movement *)
(* ================================================================== *)

Module FleetFacts.
Import Js Hex Random Engine JsFacts RandomFacts EconomyFacts TrainFacts.

(** The state without its revenue accumulators and its trains: what
    updateTrains leaves alone. *)
Definition ledgerFrame (s : GameState) : GameState :=
  set_trains (set_totalRevenue (set_monthlyIncome s 0) 0) [].

(** The fields of a train that movement never writes. *)
Definition trainIdentity (t : Train.t)
  : Z * string * Train.Kind * Q * Z * list (string * Z) * Z * Z :=
  (Train.id t, Train.name t, Train.type t, Train.speed t, Train.capacity t,
   Train.cargo t, Train.maintenanceCost t, Train.color t).

Lemma moveTrain_frame rnd gs s c t s' c' t' :
  moveTrain rnd gs s c t = Some (s', c', t') ->
  ledgerFrame s' = ledgerFrame s /\ trains s' = trains s /\
  trainIdentity t' = trainIdentity t /\ (c <= c' <= S c)%nat.
Proof.
  unfold moveTrain.
  destruct (List.length (Train.route t) <? 2)%nat.
  { intros [= <- <- <-]. repeat split; lia. }
  destruct (Qle_bool 1 _).
  2:{ intros [= <- <- <-]. repeat split; lia. }
  destruct (_ <=? _);
    (destruct (index _ _) as [currentHex|]; [|discriminate]);
    (destruct (get _ _) as [st|]; [destruct (0 <=? Station.cityIndex st)|]);
    intros [= <- <- <-]; repeat split; lia.
Qed.

Lemma moveTrains_frame rnd gs ts : forall s c s' c' ts',
  moveTrains rnd gs s c ts = Some (s', c', ts') ->
  ledgerFrame s' = ledgerFrame s /\ trains s' = trains s /\
  List.map trainIdentity ts' = List.map trainIdentity ts /\
  (c <= c' <= c + List.length ts)%nat.
Proof.
  induction ts as [|t0 rest IH]; intros s c s' c' ts'; cbn [moveTrains].
  - intros [= <- <- <-]. repeat split; simpl; lia.
  - destruct (moveTrain rnd gs s c t0) as [[[s1 c1] t0']|] eqn:H0; [|discriminate].
    destruct (moveTrains rnd gs s1 c1 rest) as [[[s2 c2] rest']|] eqn:Hrest; [|discriminate].
    intros [= <- <- <-].
    destruct (moveTrain_frame _ _ _ _ _ _ _ _ H0) as (F1 & T1 & I1 & C1).
    destruct (IH _ _ _ _ _ Hrest) as (F2 & T2 & I2 & C2).
    split; [congruence|]. split; [congruence|].
    split; [cbn [List.map]; congruence | cbn [List.length]; lia].
Qed.

Lemma typeMultiplier_nonneg k : (0 <= typeMultiplier k)%Q.
Proof. destruct k; discriminate. Qed.

Lemma baseRevenue_nonneg rs t : 0 <= baseRevenue rs t.
Proof.
  unfold baseRevenue. change 0 with (Qfloor 0). apply Qfloor_resp_le.
  repeat apply Qmult_le_0_compat.
  - change 0%Q with (inject_Z 0). rewrite <- Zle_Qle. lia.
  - discriminate.
  - apply typeMultiplier_nonneg.
  - apply bonusFactor_nonneg. apply (sumEffects_nonneg TechTree.revenue_bonus).
Qed.

Lemma moveTrains_income rnd gs ts : unit_rnd rnd -> forall s c s' c' ts',
  moveTrains rnd gs s c ts = Some (s', c', ts') ->
  monthlyIncome s <= monthlyIncome s' /\
  monthlyIncome s' - monthlyIncome s = totalRevenue s' - totalRevenue s.
Proof.
  intros Hrnd. induction ts as [|t0 rest IH]; intros s c s' c' ts'; cbn [moveTrains].
  - intros [= <- <- <-]. lia.
  - destruct (moveTrain rnd gs s c t0) as [[[s1 c1] t0']|] eqn:H0; [|discriminate].
    destruct (moveTrains rnd gs s1 c1 rest) as [[[s2 c2] rest']|] eqn:Hrest; [|discriminate].
    intros [= <- <- <-].
    destruct (moveTrain_moved _ _ _ _ _ _ _ _ H0) as [bonus M].
    destruct (IH _ _ _ _ _ Hrest) as [I1 I2].
    pose proof (mv_income M) as Mi. pose proof (mv_total M) as Mt.
    pose proof (baseRevenue_nonneg (research s) t0) as Hb.
    assert (Hbonus : 0 <= bonus).
    { destruct (mv_bonus M) as [[-> _]|(_ & -> & _)]; [lia|].
      pose proof (delivery_bounds rnd c Hrnd). lia. }
    destruct (completesLeg gs t0); lia.
Qed.

(** X9. updateTrains writes only the trains and the two revenue
    accumulators: funds, tracks, stations, map, calendar, research, train
    ids and notifications are as before, and so are the identity, type,
    speed and capacity of every train, in the same order. It draws at most
    one random number per train. With draws from the unit interval the
    month's income and the total revenue never decrease, and they grow by
    the same amount. *)
Theorem updateTrains_frame (rnd : Rand) (s : GameState) (delta : Q) (c : nat)
    (s' : GameState) (c' : nat) :
  unit_rnd rnd ->
  updateTrains rnd s delta c = Some (s', c') ->
  ledgerFrame s' = ledgerFrame s /\
  funds s' = funds s /\ tracks s' = tracks s /\ stations s' = stations s /\
  map s' = map s /\ month s' = month s /\ year s' = year s /\ era s' = era s /\
  research s' = research s /\ nextTrainId s' = nextTrainId s /\
  notifications s' = notifications s /\ monthlyExpenses s' = monthlyExpenses s /\
  List.map trainIdentity (trains s') = List.map trainIdentity (trains s) /\
  (c <= c' <= c + List.length (trains s))%nat /\
  monthlyIncome s <= monthlyIncome s' /\
  totalRevenue s <= totalRevenue s' /\
  monthlyIncome s' - monthlyIncome s = totalRevenue s' - totalRevenue s.
Proof.
  intros Hrnd. unfold updateTrains. fold (gameSpeedOf s delta).
  destruct (moveTrains rnd (gameSpeedOf s delta) s c (trains s)) as [[[s1 c1] ts1]|] eqn:H;
    [|discriminate].
  intros [= <- <-].
  destruct (moveTrains_frame _ _ _ _ _ _ _ _ H) as (F & _ & I & C).
  destruct (moveTrains_income _ _ _ Hrnd _ _ _ _ _ H) as [I1 I2].
  assert (F' : ledgerFrame (set_trains s1 ts1) = ledgerFrame s) by exact F.
  split; [exact F'|].
  split; [exact (f_equal funds F')|]. split; [exact (f_equal tracks F')|].
  split; [exact (f_equal stations F')|]. split; [exact (f_equal map F')|].
  split; [exact (f_equal month F')|]. split; [exact (f_equal year F')|].
  split; [exact (f_equal era F')|]. split; [exact (f_equal research F')|].
  split; [exact (f_equal nextTrainId F')|]. split; [exact (f_equal notifications F')|].
  split; [exact (f_equal monthlyExpenses F')|].
  split; [exact I|]. split; [exact C|]. cbn [monthlyIncome totalRevenue set_trains]. lia.
Qed.

Lemma updateTrains_frame_witness :
  match updateTrains halfRnd lineState 10 0 with
  | Some (s', c') => funds s' = 50000 /\ (c' <= 1)%nat /\ 0 <= monthlyIncome s'
  | None => False
  end.
Proof.
  destruct (updateTrains halfRnd lineState 10 0) as [[s' c']|] eqn:H.
  - destruct (updateTrains_frame halfRnd lineState 10 0 s' c' halfRnd_unit H)
      as (_ & Hf & _ & _ & _ & _ & _ & _ & _ & _ & _ & _ & _ & Hc & Hi & _).
    split; [exact Hf|]. split; [exact (proj2 Hc) | exact Hi].
  - vm_compute in H. discriminate.
Defined.

(** ** A paused game *)

Lemma moveTrain_still rnd gs s c t :
  (gs == 0)%Q -> (routed t -> (Train.progress t < 1)%Q) ->
  exists t', moveTrain rnd gs s c t = Some (s, c, t') /\
             trainIdentity t' = trainIdentity t /\
             Train.route t' = Train.route t /\
             Train.currentSegment t' = Train.currentSegment t /\
             Train.revenue t' = Train.revenue t /\
             (Train.progress t' == Train.progress t)%Q.
Proof.
  intros Hgs Hp. unfold moveTrain.
  destruct (Nat.ltb_spec (List.length (Train.route t)) 2) as [Hlen|Hlen].
  { exists t. repeat split; reflexivity. }
  cbn [Train.progress set_progress].
  assert (Hsame : (Train.progress t + Train.speed t * gs == Train.progress t)%Q).
  { rewrite Hgs. ring. }
  destruct (Qle_bool 1 (Train.progress t + Train.speed t * gs)) eqn:Hcross.
  - exfalso. apply Qle_bool_iff in Hcross. rewrite Hsame in Hcross.
    exact (Qlt_not_le _ _ (Hp Hlen) Hcross).
  - eexists. split; [reflexivity|]. repeat split. exact Hsame.
Qed.

Definition stillTrain (t t' : Train.t) : Prop :=
  trainIdentity t' = trainIdentity t /\
  Train.route t' = Train.route t /\
  Train.currentSegment t' = Train.currentSegment t /\
  Train.revenue t' = Train.revenue t /\
  (Train.progress t' == Train.progress t)%Q.

Lemma moveTrains_still rnd gs s c ts :
  (gs == 0)%Q -> (forall t, In t ts -> routed t -> (Train.progress t < 1)%Q) ->
  exists ts', moveTrains rnd gs s c ts = Some (s, c, ts') /\ Forall2 stillTrain ts ts'.
Proof.
  intros Hgs. induction ts as [|t0 rest IH]; intros Hp; cbn [moveTrains].
  - exists []. split; [reflexivity | constructor].
  - destruct (moveTrain_still rnd gs s c t0 Hgs) as (t0' & -> & Hstill).
    { apply Hp. simpl; auto. }
    destruct IH as (rest' & -> & Hrest).
    { intros t Hin. apply Hp. simpl; auto. }
    exists (t0' :: rest'). split; [reflexivity|]. constructor; assumption.
Qed.

(** X10. While the game is paused, or when no time has passed, updateTrains
    moves no train and earns nothing: every train keeps its route, its
    segment, its revenue and (as a number) its progress, no random number
    is drawn, and the state outside the train list is returned as it was.
    The premise on the trains is that every train whose route has two
    hexes or more has its progress below 1. *)
Theorem updateTrains_paused (rnd : Rand) (s : GameState) (delta : Q) (c : nat) :
  speed s = Paused \/ (delta == 0)%Q ->
  (forall t, In t (trains s) -> routed t -> (Train.progress t < 1)%Q) ->
  exists ts',
    updateTrains rnd s delta c = Some (set_trains s ts', c) /\
    Forall2 stillTrain (trains s) ts'.
Proof.
  intros Hstop Hp. unfold updateTrains. fold (gameSpeedOf s delta).
  assert (Hgs : (gameSpeedOf s delta == 0)%Q).
  { unfold gameSpeedOf. destruct Hstop as [-> | ->]; cbn; ring. }
  destruct (moveTrains_still rnd _ s c (trains s) Hgs Hp) as (ts' & -> & Hstill).
  exists ts'. split; [reflexivity | exact Hstill].
Qed.

(** The freight train of the example line, with the game paused. *)
Definition pausedLine : GameState :=
  Build_GameState (map lineState) (tracks lineState) (stations lineState)
    (trains lineState) (funds lineState) (monthlyIncome lineState)
    (monthlyExpenses lineState) (lastMonthIncome lineState)
    (lastMonthExpenses lineState) (totalRevenue lineState) (month lineState)
    (year lineState) (era lineState) Paused (selectedTool lineState)
    (selectedHex lineState) (trackBuildStart lineState) (nextTrainId lineState)
    (research lineState) (notifications lineState).

Lemma updateTrains_paused_witness :
  exists ts',
    updateTrains halfRnd pausedLine 10 0 = Some (set_trains pausedLine ts', 0%nat) /\
    Forall2 stillTrain (trains pausedLine) ts'.
Proof.
  apply (updateTrains_paused halfRnd pausedLine 10 0).
  - left. reflexivity.
  - intros t [<-|[]] _. reflexivity.
Defined.

End FleetFacts.

Module PurchaseFacts.
Import FleetFacts.
Import Js Hex Random Engine JsFacts RandomFacts EconomyFacts TrainFacts.

(** The price list of buyTrain. *)
Definition price (k : Train.Kind) : Z :=
  match k with
  | Train.freight => 5000 | Train.passenger => 8000 | Train.mixed => 6000
  | Train.luxury => 12000 | Train.mail => 4000 | Train.express => 15000
  | Train.commuter => 10000 | Train.bullet => 25000 | Train.hyperloop => 50000
  end.

Lemma purchaseCost_price k : orElse (purchaseCost k) 5000 = price k.
Proof. destruct k; reflexivity. Qed.

Lemma cfgCapacity_nonneg k : 0 <= cfgCapacity (TRAIN_CONFIGS k).
Proof. destruct k; simpl; lia. Qed.

Lemma bonusFactor_ge_1 b : 0 <= b -> (1 <= 1 + inject_Z b / 100)%Q.
Proof.
  intros Hb. apply Qle_trans with (1 + 0)%Q; [discriminate|].
  apply Qplus_le_r. unfold Qdiv. apply Qmult_le_0_compat; [|discriminate].
  change 0%Q with (inject_Z 0). now rewrite <- Zle_Qle.
Qed.

Lemma Qmult_ge_self (x f : Q) : (0 <= x)%Q -> (1 <= f)%Q -> (x <= x * f)%Q.
Proof.
  intros Hx Hf. apply Qle_trans with (x * 1)%Q; [rewrite Qmult_1_r; apply Qle_refl|].
  rewrite (Qmult_comm x 1), (Qmult_comm x f). now apply Qmult_le_compat_r.
Qed.

(** X11. buyTrain is all or nothing. When it returns no train, funds, train
    list, next train id, tracks, stations, map and research are unchanged
    (a notification may have been added). When it returns a train, the
    funds covered the list price of the type and drop by exactly that
    price, the route names at least two stations, the type is unlocked, the
    train joins the end of the train list with the id that was next, the
    next id grows by one, and the train starts with no revenue at the head
    of its route, with at least the catalogue speed and capacity of its
    type. *)
Theorem buyTrain_outcomes (s : GameState) (type : Train.Kind)
    (routeStations : list HexCoord) :
  let s' := fst (buyTrain s type routeStations) in
  (snd (buyTrain s type routeStations) = None ->
   funds s' = funds s /\ trains s' = trains s /\ nextTrainId s' = nextTrainId s /\
   tracks s' = tracks s /\ stations s' = stations s /\ map s' = map s /\
   research s' = research s) /\
  (forall t, snd (buyTrain s type routeStations) = Some t ->
   price type <= funds s /\
   (2 <= List.length routeStations)%nat /\
   In (Train.typeName type) (TechTree.getUnlockedTrainTypes (research s)) /\
   funds s' = funds s - price type /\ 0 <= funds s' /\
   trains s' = trains s ++ [t] /\
   nextTrainId s' = nextTrainId s + 1 /\
   Train.id t = nextTrainId s /\
   Train.type t = type /\
   Train.name t = (capitalize (Train.typeName type) ++ " "
                   ++ numberToString (nextTrainId s))%string /\
   Train.revenue t = 0 /\ Train.currentSegment t = 0 /\ Train.progress t = 0%Q /\
   Train.cargo t = [] /\
   Train.maintenanceCost t = cfgMaintenance (TRAIN_CONFIGS type) /\
   cfgCapacity (TRAIN_CONFIGS type) <= Train.capacity t /\
   (cfgSpeed (TRAIN_CONFIGS type) <= Train.speed t)%Q /\
   tracks s' = tracks s /\ stations s' = stations s /\ map s' = map s /\
   research s' = research s).
Proof.
  cbv zeta. unfold buyTrain. rewrite purchaseCost_price.
  set (cap := Qfloor _). set (spd := (cfgSpeed _ * _)%Q).
  destruct (Z.ltb_spec (funds s) (price type)) as [Hf|Hf].
  { split; [intros _; repeat split | discriminate]. }
  destruct (Nat.ltb_spec (List.length routeStations) 2) as [Hl|Hl].
  { split; [intros _; repeat split | discriminate]. }
  destruct (List.existsb (String.eqb (Train.typeName type))
              (TechTree.getUnlockedTrainTypes (research s))) eqn:Hu; cbn [negb].
  2:{ split; [intros _; repeat split | discriminate]. }
  destruct (resolveRoute s true routeStations []) as [fullRoute|].
  2:{ split; [intros _; repeat split | discriminate]. }
  cbn [fst snd]. split; [discriminate|]. intros t [= <-].
  cbn [funds trains nextTrainId tracks stations map research addNotification
       set_notifications set_funds set_trains set_nextTrainId
       Train.id Train.type Train.name Train.revenue Train.currentSegment Train.progress
       Train.cargo Train.maintenanceCost Train.capacity Train.speed].
  apply existsb_exists in Hu as [x [Hin Hx]]. apply String.eqb_eq in Hx. subst x.
  split; [exact Hf|]. split; [exact Hl|]. split; [exact Hin|].
  split; [reflexivity|]. split; [lia|]. split; [reflexivity|]. split; [reflexivity|].
  split; [reflexivity|]. split; [reflexivity|].
  split; [now rewrite Z.add_simpl_r|].
  split; [reflexivity|]. split; [reflexivity|]. split; [reflexivity|].
  split; [reflexivity|]. split; [reflexivity|].
  split.
  { subst cap.
    apply Z.le_trans with (Qfloor (inject_Z (cfgCapacity (TRAIN_CONFIGS type))));
      [rewrite Qfloor_Z; lia|].
    apply Qfloor_resp_le. apply Qmult_ge_self.
    - change 0%Q with (inject_Z 0). rewrite <- Zle_Qle. apply cfgCapacity_nonneg.
    - apply bonusFactor_ge_1. apply (sumEffects_nonneg TechTree.capacity_bonus). }
  split.
  { subst spd. apply Qmult_ge_self; [apply cfgSpeed_nonneg|].
    apply bonusFactor_ge_1. apply (sumEffects_nonneg TechTree.speed_bonus). }
  repeat split.
Qed.

Lemma buyTrain_outcomes_witness :
  match snd (buyTrain PathFacts.rail Train.freight [ {| q := 0; r := 0 |}; {| q := 2; r := 0 |} ]) with
  | Some t =>
      Train.id t = 1 /\
      funds (fst (buyTrain PathFacts.rail Train.freight
                    [ {| q := 0; r := 0 |}; {| q := 2; r := 0 |} ])) = 48750 - 5000
  | None => False
  end.
Proof.
  destruct (snd (buyTrain PathFacts.rail Train.freight [ {| q := 0; r := 0 |}; {| q := 2; r := 0 |} ]))
    as [t|] eqn:Hbuy.
  - destruct (proj2 (buyTrain_outcomes PathFacts.rail Train.freight
                       [ {| q := 0; r := 0 |}; {| q := 2; r := 0 |} ]) t Hbuy)
      as (_ & _ & _ & Hf & _ & _ & _ & Hid & _).
    split; [exact Hid | exact Hf].
  - vm_compute in Hbuy. discriminate.
Defined.

(** ** Train ids *)

(** The ids of the trains are pairwise distinct and below the next id. *)
Definition idsFresh (s : GameState) : Prop :=
  NoDup (List.map Train.id (trains s)) /\
  forall t, In t (trains s) -> Train.id t < nextTrainId s.




Lemma removeTrain_cases s trainId :
  removeTrain s trainId = (s, false) \/
  exists i t,
    nth_error (trains s) i = Some t /\ Train.id t = trainId /\
    (forall j t', (j < i)%nat -> nth_error (trains s) j = Some t' -> Train.id t' <> trainId) /\
    snd (removeTrain s trainId) = true /\
    trains (fst (removeTrain s trainId)) = List.firstn i (trains s) ++ List.skipn (S i) (trains s) /\
    nextTrainId (fst (removeTrain s trainId)) = nextTrainId s /\
    funds (fst (removeTrain s trainId)) =
      funds s + Qfloor (inject_Z (orElse (legacyCost (Train.type t)) 5000) * 0.25).
Proof.
  unfold removeTrain, findIndex.
  destruct (BuildFacts.findIndexFrom_spec (fun t => Train.id t =? trainId) (trains s) 0 ltac:(lia))
    as [[E Hall]|(i & t & E & Hn & Hp & Hfirst)]; rewrite E.
  - left. reflexivity.
  - right. exists i, t. rewrite Z.add_0_l.
    destruct (Z.eqb_spec (Z.of_nat i) (-1)); [lia|].
    rewrite index_of_nat, Hn. cbn. unfold removeAt. rewrite Nat2Z.id.
    apply Z.eqb_eq in Hp.
    repeat split; auto.
    intros j t' Hj Hj'. apply Z.eqb_neq. exact (Hfirst j t' Hj Hj').
Qed.

(** The funds, train list and id counter after buyTrain. *)
Lemma buyTrain_cases s type rs :
  (snd (buyTrain s type rs) = None /\
   funds (fst (buyTrain s type rs)) = funds s /\
   trains (fst (buyTrain s type rs)) = trains s /\
   nextTrainId (fst (buyTrain s type rs)) = nextTrainId s) \/
  (exists t,
     snd (buyTrain s type rs) = Some t /\
     price type <= funds s /\
     funds (fst (buyTrain s type rs)) = funds s - price type /\
     trains (fst (buyTrain s type rs)) = trains s ++ [t] /\
     nextTrainId (fst (buyTrain s type rs)) = nextTrainId s + 1 /\
     Train.id t = nextTrainId s /\ Train.type t = type).
Proof.
  unfold buyTrain. rewrite purchaseCost_price.
  destruct (Z.ltb_spec (funds s) (price type)) as [Hf|Hf]; [left; repeat split|].
  destruct (List.length rs <? 2)%nat; [left; repeat split|].
  destruct (negb _); [left; repeat split|].
  destruct (resolveRoute s true rs []) as [fullRoute|]; [|left; repeat split].
  right. eexists. split; [reflexivity|]. repeat split. exact Hf.
Qed.











(** The loss on a train that is bought and retired at once: the price less
    the refund of a quarter of the retirement table's price. *)
Definition roundTripLoss (k : Train.Kind) : Z :=
  match k with
  | Train.freight => 3750 | Train.passenger => 6000 | Train.mixed => 4500
  | Train.luxury => 9000 | Train.mail => 3000 | Train.express => 13750
  | Train.commuter => 8750 | Train.bullet => 23750 | Train.hyperloop => 48750
  end.

Lemma roundTripLoss_refund k :
  - price k + Qfloor (inject_Z (orElse (legacyCost k) 5000) * 0.25) = - roundTripLoss k.
Proof. destruct k; reflexivity. Qed.

(** X13. Retiring a train right after buying it undoes the purchase in the
    train list but not in the books: in a state with fresh ids, buyTrain
    followed by removeTrain of the returned id succeeds, gives back the
    train list of before, and leaves the funds lower by the price less the
    refund (3750 for freight, up to 48750 for a hyperloop train); the id is
    not handed out again. *)
Theorem buyTrain_then_removeTrain (s s1 : GameState) (type : Train.Kind)
    (routeStations : list HexCoord) (t : Train.t) :
  idsFresh s ->
  buyTrain s type routeStations = (s1, Some t) ->
  let s2 := fst (removeTrain s1 (Train.id t)) in
  snd (removeTrain s1 (Train.id t)) = true /\
  trains s2 = trains s /\
  funds s2 = funds s - roundTripLoss type /\
  funds s2 < funds s /\
  nextTrainId s2 = nextTrainId s + 1.
Proof.
  intros [Hnd Hlt] Hbuy. cbv zeta.
  destruct (buyTrain_cases s type routeStations)
    as [(Hnone & _)|(t' & Hsome & Hf & Hfu & Ht & Hn & Hid & Hty)];
    rewrite Hbuy in *; cbn [fst snd] in *; [discriminate|].
  injection Hsome as <-.
  assert (Hidx : findIndex (fun t0 => Train.id t0 =? Train.id t) (trains s1)
                 = Z.of_nat (List.length (trains s))).
  { unfold findIndex.
    rewrite (findIndexFrom_first _ _ (List.length (trains s)) t 0); [lia | | apply Z.eqb_refl |].
    - rewrite Ht, nth_error_app2 by lia. now rewrite Nat.sub_diag.
    - intros j y Hj Hy. rewrite Ht, nth_error_app1 in Hy by lia.
      apply nth_error_In in Hy. specialize (Hlt y Hy). apply Z.eqb_neq. lia. }
  unfold removeTrain. rewrite Hidx.
  destruct (Z.eqb_spec (Z.of_nat (List.length (trains s))) (-1)); [lia|].
  rewrite index_of_nat.
  assert (Hnth : nth_error (trains s1) (List.length (trains s)) = Some t).
  { rewrite Ht, nth_error_app2 by lia. now rewrite Nat.sub_diag. }
  rewrite Hnth. cbn [fst snd].
  rewrite funds_addNotification, trains_addNotification.
  cbn [funds trains nextTrainId set_funds set_trains addNotification set_notifications].
  unfold removeAt. rewrite Nat2Z.id, Ht.
  rewrite firstn_app, Nat.sub_diag, firstn_all, skipn_app.
  replace (S (List.length (trains s)) - List.length (trains s))%nat with 1%nat by lia.
  rewrite skipn_all2 by lia. cbn [List.firstn List.skipn]. rewrite !app_nil_r.
  rewrite Hfu, Hty.
  pose proof (roundTripLoss_refund type) as Hloss.
  split; [reflexivity|]. split; [reflexivity|].
  split; [lia|]. split; [|exact Hn].
  assert (0 < roundTripLoss type) by (destruct type; reflexivity). lia.
Qed.

Lemma buyTrain_then_removeTrain_witness :
  match buyTrain PathFacts.rail Train.freight [ {| q := 0; r := 0 |}; {| q := 2; r := 0 |} ] with
  | (s1, Some t) =>
      trains (fst (removeTrain s1 (Train.id t))) = [] /\
      funds (fst (removeTrain s1 (Train.id t))) = 48750 - 3750
  | _ => False
  end.
Proof.
  destruct (buyTrain PathFacts.rail Train.freight [ {| q := 0; r := 0 |}; {| q := 2; r := 0 |} ])
    as [s1 [t|]] eqn:Hbuy.
  - destruct (buyTrain_then_removeTrain PathFacts.rail s1 Train.freight _ t
                (conj (NoDup_nil Z) (fun t0 (H : In t0 []) => match H with end)) Hbuy)
      as (_ & Ht & Hf & _).
    split; [exact Ht | exact Hf].
  - vm_compute in Hbuy. discriminate.
Defined.

(** ** Spending *)

Lemma buildTrack_funds s a b :
  funds (fst (buildTrack s a b)) = funds s \/
  exists c, 0 <= c <= funds s /\ funds (fst (buildTrack s a b)) = funds s - c.
Proof.
  unfold buildTrack. destruct (ok (canBuildTrack s a b)) eqn:Hok; cbn [negb fst]; [|now left].
  destruct (BuildFacts.canBuildTrack_ok _ _ _ Hok) as (_ & _ & t & mult & _ & _ & Hm & Hc & Hf).
  right. exists (cost (canBuildTrack s a b)). split; [|reflexivity]. split; [|exact Hf].
  rewrite Hc, (BuildFacts.track_price t mult Hm). destruct t; lia.
Qed.

Lemma buildStation_funds s h :
  funds (fst (buildStation s h)) = funds s \/
  exists c, 0 <= c <= funds s /\ funds (fst (buildStation s h)) = funds s - c.
Proof.
  unfold buildStation. destruct (ok (canBuildStation s h)) eqn:Hok; cbn [negb fst]; [|now left].
  destruct (BuildFacts.canBuildStation_ok _ _ Hok) as (_ & _ & Hc & Hf).
  right. exists (cost (canBuildStation s h)). split.
  - split; [|exact Hf]. rewrite Hc. destruct (0 <=? _); discriminate.
  - destruct (0 <=? _); reflexivity.
Qed.

(** X14. Spending never overdraws the account: buildTrack, buildStation and
    buyTrain take their price only from funds that cover it, so funds that
    are not negative stay so; removeTrain never lowers the funds; and
    updateTrains does not touch them (revenue waits in the month's income
    until the settlement). *)
Theorem spending_never_overdraws (s : GameState) :
  0 <= funds s ->
  (forall a b, 0 <= funds (fst (buildTrack s a b)) <= funds s) /\
  (forall h, 0 <= funds (fst (buildStation s h)) <= funds s) /\
  (forall type rs, 0 <= funds (fst (buyTrain s type rs)) <= funds s) /\
  (forall trainId, funds s <= funds (fst (removeTrain s trainId))) /\
  (forall rnd delta c s' c',
     updateTrains rnd s delta c = Some (s', c') -> funds s' = funds s).
Proof.
  intros H0. split; [|split; [|split; [|split]]].
  - intros a b. destruct (buildTrack_funds s a b) as [->|(c & Hc & ->)]; lia.
  - intros h. destruct (buildStation_funds s h) as [->|(c & Hc & ->)]; lia.
  - intros type rs.
    destruct (buyTrain_cases s type rs) as [(_ & -> & _)|(t & _ & Hf & -> & _)]; [lia|].
    assert (0 < price type) by (destruct type; reflexivity). lia.
  - intros trainId.
    destruct (removeTrain_cases s trainId) as [->|(i & t & _ & _ & _ & _ & _ & _ & ->)];
      [cbn [fst]; lia|].
    assert (0 <= Qfloor (inject_Z (orElse (legacyCost (Train.type t)) 5000) * 0.25))
      by (destruct (Train.type t); discriminate).
    lia.
  - intros rnd delta c s' c' Hup. unfold updateTrains in Hup.
    destruct (moveTrains rnd _ s c (trains s)) as [[[s1 c1] ts1]|] eqn:H; [|discriminate].
    injection Hup as <- <-.
    destruct (moveTrains_frame _ _ _ _ _ _ _ _ H) as (F & _).
    exact (f_equal funds F).
Qed.

Lemma spending_never_overdraws_witness :
  0 <= funds (fst (buildTrack ConstructionFacts.shore {| q := 1; r := 0 |} {| q := 2; r := 0 |}))
    <= 50000.
Proof.
  apply (proj1 (spending_never_overdraws ConstructionFacts.shore ltac:(discriminate))).
Defined.

End PurchaseFacts.

(* ================================================================== *)
(** * Routes over the network *)
(* ================================================================== *)

Module RouteFacts.
Import HexGeometry KeyFacts BuildFacts FleetFacts PurchaseFacts.
Import Js Hex Engine JsFacts HexFacts ConstructionFacts PathFacts.

(** Every path that findTrackPath returns is a shortest walk along the
    segments of the state. *)
Lemma findTrackPath_walk s from to path :
  findTrackPath s from to = Some path ->
  trackWalk s from path to /\
  forall p, trackWalk s from p to -> (List.length path <= List.length p)%nat.
Proof.
  intros Hpath. destruct (HexCoord_eq_dec from to) as [<-|Hne].
  - unfold findTrackPath in Hpath. rewrite String.eqb_refl in Hpath. injection Hpath as <-.
    split; [apply trackWalk_one|]. intros p Hp. now apply trackWalk_nonempty in Hp.
  - destruct (bool_dec (has (buildAdjacency (values (tracks s))) (hexKey from)) true) as [Hs|Hs].
    + pose proof (findTrackPath_search s from to Hne Hs) as H. now rewrite Hpath in H.
    + apply not_true_is_false in Hs. unfold findTrackPath in Hpath.
      destruct (String.eqb_spec (hexKey from) (hexKey to)) as [E0|_];
        [apply hexKey_inj in E0; contradiction|].
      rewrite Hs in Hpath. discriminate.
Qed.

Lemma trackWalk_head s a p b : trackWalk s a p b -> exists p', p = a :: p'.
Proof. destruct 1; eauto. Qed.

Lemma last_default {A : Type} (l : list A) : forall x d d',
  List.last (x :: l) d = List.last (x :: l) d'.
Proof.
  induction l as [|y l IH]; intros x d d'; [reflexivity|].
  change (List.last (x :: y :: l) d) with (List.last (y :: l) d).
  change (List.last (x :: y :: l) d') with (List.last (y :: l) d'). apply IH.
Qed.

Lemma last_cons {A : Type} (b : A) (rest : list A) (a : A) :
  List.last (b :: rest) a = List.last rest b.
Proof.
  destruct rest as [|y rest]; [reflexivity|].
  change (List.last (b :: y :: rest) a) with (List.last (y :: rest) a). apply last_default.
Qed.

Lemma last_In {A : Type} (l : list A) : forall x d, In (List.last (x :: l) d) (x :: l).
Proof.
  induction l as [|y l IH]; intros x d; [simpl; auto|].
  change (List.last (x :: y :: l) d) with (List.last (y :: l) d). right. apply IH.
Qed.

Lemma trackWalk_last s a p b : trackWalk s a p b -> List.last p a = b.
Proof.
  induction 1 as [a|a b p c Hseg Hw IH]; [reflexivity|].
  destruct (trackWalk_head _ _ _ _ Hw) as [p' ->].
  change (List.last (a :: b :: p') a) with (List.last (b :: p') a).
  rewrite <- IH. apply last_default.
Qed.

Lemma trackWalk_app s x p a p' b :
  trackWalk s x p a -> trackWalk s a (a :: p') b -> trackWalk s x (p ++ p') b.
Proof.
  induction 1 as [a|x y p a Hseg Hw IH]; intros H2; cbn [app]; [exact H2|].
  apply trackWalk_step with y; [exact Hseg | now apply IH].
Qed.

Lemma trackWalk_two s a p b :
  trackWalk s a p b -> a <> b -> (List.length p <= 2)%nat -> p = [a; b].
Proof.
  destruct 1 as [a|a y p c Hseg Hw]; intros Hne Hlen; [contradiction|].
  destruct Hw as [y|y z p c Hseg' Hw']; [reflexivity|].
  destruct (trackWalk_head _ _ _ _ Hw') as [p' ->]. simpl in Hlen. lia.
Qed.

Lemma segment_In s seg :
  In seg (values (tracks s)) ->
  segment s (TrackSegment.from seg) (TrackSegment.to seg).
Proof. intros H. exists seg. auto. Qed.

Lemma segment_sym s a b : segment s a b -> segment s b a.
Proof. intros [t [Hin H]]. exists t. split; [exact Hin | tauto]. Qed.

Lemma segment_path s a b :
  segment s a b -> a <> b -> findTrackPath s a b = Some [a; b].
Proof.
  intros Hseg Hne.
  assert (Hw : trackWalk s a [a; b] b)
    by (apply trackWalk_step with b; [exact Hseg | apply trackWalk_one]).
  assert (Hs : has (buildAdjacency (values (tracks s))) (hexKey a) = true).
  { destruct Hseg as [t [Hin H]]. apply buildAdjacency_has. exists t. split; [exact Hin|].
    unfold fromKey, toKey. destruct H as [[<- _]|[_ <-]]; auto. }
  pose proof (findTrackPath_search s a b Hne Hs) as H.
  destruct (findTrackPath s a b) as [path|]; [|exfalso; exact (H _ Hw)].
  destruct H as [Hp Hmin]. f_equal. apply (trackWalk_two s a path b Hp Hne).
  exact (Hmin _ Hw).
Qed.

(** X15. Two hexes joined by a segment are routed directly: findTrackPath
    between the two ends of a segment returns the two hexes and nothing
    more, in either direction. So right after a successful buildTrack the
    new segment is the path between its ends. *)
Theorem findTrackPath_along_segment (s : GameState) (a b : HexCoord) :
  (forall seg, In seg (values (tracks s)) ->
     TrackSegment.from seg <> TrackSegment.to seg ->
     findTrackPath s (TrackSegment.from seg) (TrackSegment.to seg)
       = Some [TrackSegment.from seg; TrackSegment.to seg] /\
     findTrackPath s (TrackSegment.to seg) (TrackSegment.from seg)
       = Some [TrackSegment.to seg; TrackSegment.from seg]) /\
  (snd (buildTrack s a b) = true ->
   findTrackPath (fst (buildTrack s a b)) a b = Some [a; b] /\
   findTrackPath (fst (buildTrack s a b)) b a = Some [b; a]).
Proof.
  split.
  - intros seg Hin Hne. split.
    + apply segment_path; [now apply segment_In | exact Hne].
    + apply segment_path; [apply segment_sym; now apply segment_In | congruence].
  - unfold buildTrack. destruct (ok (canBuildTrack s a b)) eqn:Hok; cbn [negb fst snd];
      [intros _ | discriminate].
    destruct (canBuildTrack_ok _ _ _ Hok) as (Hd & Hnew & _).
    assert (Hne : a <> b).
    { intros ->. rewrite hexDistance_refl in Hd. discriminate. }
    set (seg := {| TrackSegment.from := a; TrackSegment.to := b;
                   TrackSegment.built := true; TrackSegment.type := TrackSegment.standard |}).
    set (s' := revealAround _ b 2).
    assert (Hseg : segment s' a b).
    { exists seg. split; [|left; split; reflexivity].
      subst s'. cbn [tracks revealAround set_map set_funds set_tracks].
      rewrite (set_new _ _ _ Hnew). unfold values. rewrite map_app. apply in_or_app.
      right. simpl; auto. }
    split; [apply segment_path; assumption|].
    apply segment_path; [now apply segment_sym | congruence].
Qed.

Lemma findTrackPath_along_segment_witness :
  findTrackPath
    (fst (buildTrack ConstructionFacts.shore {| q := 1; r := 0 |} {| q := 2; r := 0 |}))
    {| q := 2; r := 0 |} {| q := 1; r := 0 |}
  = Some [ {| q := 2; r := 0 |}; {| q := 1; r := 0 |} ].
Proof.
  apply (proj2 (findTrackPath_along_segment ConstructionFacts.shore
                  {| q := 1; r := 0 |} {| q := 2; r := 0 |})).
  reflexivity.
Defined.

(** ** The route of a purchased train *)

(** The joining loop of buyTrain: the legs are chained into one walk that
    passes through every station. *)
Lemma resolveRoute_walk s : forall rs first acc x a r,
  resolveRoute s first (a :: rs) acc = Some r ->
  (if first then acc = [] /\ rs <> [] /\ x = a else trackWalk s x acc a) ->
  trackWalk s x r (List.last rs a) /\
  (forall h, In h acc -> In h r) /\
  (forall h, In h rs -> In h r).
Proof.
  induction rs as [|b rest IH]; intros first acc x a r; cbn [resolveRoute].
  - intros [= <-] H. destruct first; [destruct H as (_ & Hne & _); contradiction|].
    split; [exact H|]. split; [auto | intros h []].
  - destruct (findTrackPath s a b) as [seg|] eqn:Hseg; [|discriminate].
    destruct (findTrackPath_walk _ _ _ _ Hseg) as [Hw _].
    destruct (trackWalk_head _ _ _ _ Hw) as [p' Hp'].
    intros Hr H. rewrite last_cons.
    assert (Hw' : trackWalk s x (acc ++ (if first then seg else List.tl seg)) b).
    { destruct first.
      - destruct H as (-> & _ & ->). exact Hw.
      - subst seg. cbn [List.tl]. now apply (trackWalk_app s x acc a p' b). }
    destruct (IH false _ x b r Hr Hw') as (Hwalk & Hacc & Hrest).
    split; [exact Hwalk|]. split.
    + intros h Hh. apply Hacc. apply in_or_app. now left.
    + intros h [<-|Hh]; [|now apply Hrest].
      apply Hacc. destruct (trackWalk_head _ _ _ _ Hw') as [p0 Hp0].
      pose proof (trackWalk_last _ _ _ _ Hw') as Hl. rewrite Hp0 in Hl |- *.
      rewrite <- Hl. apply last_In.
Qed.

(** X16. The route of a purchased train follows the track: it is a walk
    along segments of the state from the first station of the request to
    the last, it passes through every requested station, and every two
    consecutive hexes of it are the ends of a segment. The purchase leaves
    the track map as it was. *)
Theorem buyTrain_route_follows_track (s s' : GameState) (type : Train.Kind)
    (routeStations : list HexCoord) (t : Train.t) :
  buyTrain s type routeStations = (s', Some t) ->
  exists first rest,
    routeStations = first :: rest /\ rest <> [] /\
    trackWalk s first (Train.route t) (List.last rest first) /\
    (forall h, In h routeStations -> In h (Train.route t)) /\
    (forall i a b, nth_error (Train.route t) i = Some a ->
                   nth_error (Train.route t) (S i) = Some b -> segment s a b) /\
    tracks s' = tracks s.
Proof.
  unfold buyTrain.
  destruct (funds s <? _); [discriminate|].
  destruct (Nat.ltb_spec (List.length routeStations) 2) as [Hl|Hl]; [discriminate|].
  destruct (negb _); [discriminate|].
  destruct (resolveRoute s true routeStations []) as [fullRoute|] eqn:Hr; [|discriminate].
  intros [= <- <-]. cbn [Train.route tracks addNotification set_notifications set_funds
                          set_trains set_nextTrainId].
  destruct routeStations as [|first rest]; [simpl in Hl; lia|].
  assert (Hrest : rest <> []) by (intros ->; simpl in Hl; lia).
  destruct (resolveRoute_walk s rest true [] first first fullRoute Hr (conj eq_refl (conj Hrest eq_refl)))
    as (Hw & _ & Hin).
  exists first, rest. split; [reflexivity|]. split; [exact Hrest|]. split; [exact Hw|].
  split; [|split; [now apply trackWalk_pairs with first (List.last rest first) | reflexivity]].
  intros h [<-|Hh]; [|now apply Hin].
  destruct (trackWalk_head _ _ _ _ Hw) as [p' ->]. simpl; auto.
Qed.

Lemma buyTrain_route_follows_track_witness :
  match buyTrain rail Train.freight [ {| q := 0; r := 0 |}; {| q := 2; r := 0 |} ] with
  | (_, Some t) =>
      exists first rest,
        [ {| q := 0; r := 0 |}; {| q := 2; r := 0 |} ] = first :: rest /\ rest <> [] /\
        trackWalk rail first (Train.route t) (List.last rest first)
  | _ => False
  end.
Proof.
  destruct (buyTrain rail Train.freight [ {| q := 0; r := 0 |}; {| q := 2; r := 0 |} ])
    as [s1 [t|]] eqn:Hbuy.
  - destruct (buyTrain_route_follows_track rail s1 Train.freight _ t Hbuy)
      as (first & rest & H1 & H2 & H3 & _).
    exists first, rest. auto.
  - vm_compute in Hbuy. discriminate.
Defined.

(** ** The shape of the track map *)

(** Every entry of the track map is a built standard segment between two
    adjacent hexes, stored under the key of its pair, with a destination
    on the map that is not Water; and no key occurs twice. *)
Definition wellFormedTracks (s : GameState) : Prop :=
  NoDup (keys (tracks s)) /\
  forall k seg, In (k, seg) (tracks s) ->
    k = trackKey (TrackSegment.from seg) (TrackSegment.to seg) /\
    hexDistance (TrackSegment.from seg) (TrackSegment.to seg) = 1 /\
    TrackSegment.built seg = true /\
    TrackSegment.type seg = TrackSegment.standard /\
    exists t, get (Terrain.terrain (map s)) (hexKey (TrackSegment.to seg)) = Some t /\
              t <> Terrain.Water.

Lemma wellFormedTracks_ext s s' :
  tracks s' = tracks s ->
  Terrain.terrain (map s') = Terrain.terrain (map s) ->
  wellFormedTracks s -> wellFormedTracks s'.
Proof. unfold wellFormedTracks. now intros -> ->. Qed.

Lemma tracks_buildStation s h : tracks (fst (buildStation s h)) = tracks s.
Proof. unfold buildStation. destruct (negb _); [reflexivity|]. destruct (0 <=? _); reflexivity. Qed.

Lemma terrain_buildStation s h :
  Terrain.terrain (map (fst (buildStation s h))) = Terrain.terrain (map s).
Proof. unfold buildStation. destruct (negb _); [reflexivity|]. destruct (0 <=? _); reflexivity. Qed.

Lemma tracks_buyTrain s k rs : tracks (fst (buyTrain s k rs)) = tracks s.
Proof.
  unfold buyTrain.
  repeat match goal with |- context [if ?b then _ else _] => destruct b end; try reflexivity.
  destruct (resolveRoute _ _ _ _); reflexivity.
Qed.

Lemma map_buyTrain s k rs : map (fst (buyTrain s k rs)) = map s.
Proof.
  unfold buyTrain.
  repeat match goal with |- context [if ?b then _ else _] => destruct b end; try reflexivity.
  destruct (resolveRoute _ _ _ _); reflexivity.
Qed.

Lemma tracks_removeTrain s i : tracks (fst (removeTrain s i)) = tracks s.
Proof.
  unfold removeTrain. destruct (_ =? -1); [reflexivity|]. destruct (index _ _); reflexivity.
Qed.

Lemma map_removeTrain s i : map (fst (removeTrain s i)) = map s.
Proof.
  unfold removeTrain. destruct (_ =? -1); [reflexivity|]. destruct (index _ _); reflexivity.
Qed.

Lemma tracks_advanceTime s : tracks (advanceTime s) = tracks s.
Proof.
  unfold advanceTime, updateEconomy, advanceCalendar. cbn [tracks set_map set_monthlyExpenses
    set_monthlyIncome set_lastMonthExpenses set_lastMonthIncome set_funds set_research].
  repeat match goal with |- context [if ?b then _ else _] => destruct b end; reflexivity.
Qed.

Lemma terrain_advanceTime s :
  Terrain.terrain (map (advanceTime s)) = Terrain.terrain (map s).
Proof.
  unfold advanceTime, updateEconomy, advanceCalendar.
  cbn [map set_map set_monthlyExpenses set_monthlyIncome set_lastMonthExpenses
       set_lastMonthIncome set_funds set_research Terrain.terrain set_cities].
  repeat match goal with |- context [if ?b then _ else _] => destruct b end; reflexivity.
Qed.

Lemma keys_app {V : Type} (m1 m2 : JsMap V) : keys (m1 ++ m2) = keys m1 ++ keys m2.
Proof. unfold keys. apply map_app. Qed.

Lemma buildTrack_wellFormed s a b :
  wellFormedTracks s -> wellFormedTracks (fst (buildTrack s a b)).
Proof.
  intros [Hnd Hall]. unfold buildTrack.
  destruct (ok (canBuildTrack s a b)) eqn:Hok; cbn [negb fst]; [|split; assumption].
  destruct (canBuildTrack_ok _ _ _ Hok) as (Hd & Hnew & t & mult & Ht & Hw & _).
  unfold wellFormedTracks.
  cbn [tracks map revealAround set_map set_funds set_tracks Terrain.terrain set_explored].
  rewrite (set_new _ _ _ Hnew). split.
  - rewrite keys_app. apply NoDup_app; [exact Hnd | repeat constructor; intros [] |].
    intros k Hk [<-|[]]. apply has_keys in Hk. cbn [fst] in Hk. congruence.
  - intros k seg Hin. apply in_app_or in Hin as [Hin|[[= <- <-]|[]]]; [now apply Hall|].
    cbn. repeat split; auto. exists t. auto.
Qed.

Lemma nth_error_values {V : Type} (m : JsMap V) i v :
  nth_error (values m) i = Some v -> exists k, nth_error m i = Some (k, v).
Proof.
  unfold values. rewrite nth_error_map. destruct (nth_error m i) as [[k v']|]; [|discriminate].
  intros [= <-]. eauto.
Qed.

(** X17. The track map keeps its shape. In a new game it is empty; and
    whatever the engine does, every entry stays a built standard segment
    between two adjacent hexes, filed under the key of its pair, with a
    destination that is on the map and not Water. So every segment joins
    hexes at distance 1, and no pair of hexes carries more than one
    segment, whatever the direction. *)
Theorem track_network_invariant (s : GameState) :
  (forall m, wellFormedTracks (createGameState m)) /\
  (wellFormedTracks s ->
   (forall a b, wellFormedTracks (fst (buildTrack s a b))) /\
   (forall h, wellFormedTracks (fst (buildStation s h))) /\
   (forall type rs, wellFormedTracks (fst (buyTrain s type rs))) /\
   (forall trainId, wellFormedTracks (fst (removeTrain s trainId))) /\
   (forall rnd delta c s' c',
      updateTrains rnd s delta c = Some (s', c') -> wellFormedTracks s') /\
   wellFormedTracks (advanceTime s) /\
   (forall a b, segment s a b -> hexDistance a b = 1) /\
   (forall i j seg1 seg2,
      nth_error (values (tracks s)) i = Some seg1 ->
      nth_error (values (tracks s)) j = Some seg2 ->
      (TrackSegment.from seg1 = TrackSegment.from seg2 /\
       TrackSegment.to seg1 = TrackSegment.to seg2) \/
      (TrackSegment.from seg1 = TrackSegment.to seg2 /\
       TrackSegment.to seg1 = TrackSegment.from seg2) ->
      i = j)).
Proof.
  split; [intros m; split; [constructor | intros k seg []]|].
  intros Hs. pose proof Hs as [Hnd Hall].
  split; [intros a b; now apply buildTrack_wellFormed|].
  split; [intros h; apply (wellFormedTracks_ext s);
          [apply tracks_buildStation | apply terrain_buildStation | exact Hs]|].
  split; [intros type rs; apply (wellFormedTracks_ext s);
          [apply tracks_buyTrain | now rewrite map_buyTrain | exact Hs]|].
  split; [intros trainId; apply (wellFormedTracks_ext s);
          [apply tracks_removeTrain | now rewrite map_removeTrain | exact Hs]|].
  split.
  { intros rnd delta c s' c' Hup. unfold updateTrains in Hup.
    destruct (moveTrains rnd _ s c (trains s)) as [[[s1 c1] ts1]|] eqn:H; [|discriminate].
    injection Hup as <- <-.
    destruct (moveTrains_frame _ _ _ _ _ _ _ _ H) as (F & _).
    apply (wellFormedTracks_ext s);
      [exact (f_equal tracks F) | exact (f_equal (fun x => Terrain.terrain (map x)) F) | exact Hs]. }
  split; [apply (wellFormedTracks_ext s);
          [apply tracks_advanceTime | apply terrain_advanceTime | exact Hs]|].
  split.
  - intros a b [seg [Hin H]]. unfold values in Hin. apply in_map_iff in Hin as [[k seg'] [E Hin]].
    cbn in E. subst seg'. destruct (Hall k seg Hin) as (_ & Hd & _).
    destruct H as [[<- <-]|[<- <-]]; [exact Hd | now rewrite hexDistance_sym].
  - intros i j seg1 seg2 H1 H2 Hpair.
    apply nth_error_values in H1 as [k1 H1]. apply nth_error_values in H2 as [k2 H2].
    destruct (Hall k1 seg1 (nth_error_In _ _ H1)) as (E1 & _).
    destruct (Hall k2 seg2 (nth_error_In _ _ H2)) as (E2 & _).
    assert (Ek : k1 = k2).
    { rewrite E1, E2. destruct Hpair as [[-> ->]|[-> ->]]; [reflexivity | apply trackKey_sym]. }
    apply (proj1 (NoDup_nth_error (keys (tracks s))) Hnd).
    + apply nth_error_Some. unfold keys. rewrite nth_error_map, H1. discriminate.
    + unfold keys. rewrite !nth_error_map, H1, H2. cbn. now rewrite Ek.
Qed.

Lemma track_network_invariant_witness :
  wellFormedTracks rail /\
  (forall a b, segment rail a b -> hexDistance a b = 1).
Proof.
  assert (H0 : wellFormedTracks (createGameState railMap))
    by (apply (proj1 (track_network_invariant (createGameState railMap)))).
  assert (H1 : wellFormedTracks
                 (fst (buildTrack (createGameState railMap) {| q := 0; r := 0 |} {| q := 1; r := 0 |})))
    by (apply (proj2 (track_network_invariant (createGameState railMap)) H0)).
  assert (H2 : wellFormedTracks rail)
    by (apply (proj2 (track_network_invariant _) H1)).
  split; [exact H2|].
  apply (proj2 (track_network_invariant rail) H2).
Defined.

End RouteFacts.

(* ================================================================== *)
(** * The monthly books *)
(* ================================================================== *)

Module LedgerFacts.
Import HexGeometry KeyFacts BuildFacts FleetFacts PurchaseFacts.
Import Js Hex Random Engine JsFacts RandomFacts EconomyFacts TrainFacts.


Lemma fold_left_sum {A : Type} (f : A -> Z) (l : list A) : forall init,
  List.fold_left (fun acc x => acc + f x) l init = init + sumZ (List.map f l).
Proof.
  induction l as [|a l IH]; intros init; cbn [List.fold_left List.map sumZ List.fold_right];
    [lia|].
  rewrite IH. unfold sumZ. lia.
Qed.

Lemma sumZ_nonneg (l : list Z) : (forall x, In x l -> 0 <= x) -> 0 <= sumZ l.
Proof.
  induction l as [|a l IH]; intros H; cbn [sumZ List.fold_right]; [lia|].
  specialize (H a (or_introl eq_refl)) as Ha.
  assert (0 <= sumZ l) by (apply IH; intros x Hx; apply H; simpl; auto).
  unfold sumZ in *. lia.
Qed.





(** ** Research income *)

Lemma Qfloor_fiftieth (n : Z) : Qfloor (inject_Z n * 0.02) = n / 50.
Proof.
  assert (E : (inject_Z n * 0.02 == inject_Z n / 50)%Q) by field.
  rewrite (Qfloor_comp _ _ E). unfold Qfloor, Qdiv, Qmult, Qinv, inject_Z. cbn.
  now rewrite Z.mul_1_r.
Qed.

(** X19. Each settlement pays research points: ten for every station plus a
    fiftieth of the month's income, rounded down. The amount is added to
    the points and recorded as the points per month; the set of unlocked
    technologies is not touched. With a month's income that is not
    negative (updateTrains keeps it so) the points never decrease. *)
Theorem updateEconomy_research_points (s : GameState) :
  let rp := size (stations s) * 10 + monthlyIncome s / 50 in
  TechTree.points (research (updateEconomy s))
    = (TechTree.points (research s) + inject_Z rp)%Q /\
  TechTree.pointsPerMonth (research (updateEconomy s)) = rp /\
  TechTree.unlocked (research (updateEconomy s)) = TechTree.unlocked (research s) /\
  (0 <= monthlyIncome s ->
   0 <= rp /\
   (TechTree.points (research s) <= TechTree.points (research (updateEconomy s)))%Q) /\
  (forall rnd delta c s' c',
     unit_rnd rnd -> 0 <= monthlyIncome s ->
     updateTrains rnd s delta c = Some (s', c') -> 0 <= monthlyIncome s').
Proof.
  cbv zeta. unfold updateEconomy.
  cbn [research set_map set_monthlyExpenses set_monthlyIncome set_lastMonthExpenses
       set_lastMonthIncome set_funds set_research stations monthlyIncome addResearchPoints
       TechTree.points TechTree.pointsPerMonth TechTree.unlocked].
  rewrite Qfloor_fiftieth.
  split; [reflexivity|]. split; [reflexivity|]. split; [reflexivity|]. split.
  - intros Hi.
    assert (Hrp : 0 <= size (stations s) * 10 + monthlyIncome s / 50).
    { assert (0 <= monthlyIncome s / 50) by (apply Z.div_pos; lia). unfold size. lia. }
    split; [exact Hrp|].
    rewrite <- (Qplus_0_r (TechTree.points (research s))) at 1.
    apply Qplus_le_r. change 0%Q with (inject_Z 0). now rewrite <- Zle_Qle.
  - intros rnd delta c s' c' Hrnd Hi Hup. unfold updateTrains in Hup.
    destruct (moveTrains rnd _ s c (trains s)) as [[[s1 c1] ts1]|] eqn:H; [|discriminate].
    injection Hup as <- <-.
    destruct (moveTrains_income _ _ _ Hrnd _ _ _ _ _ H) as [I1 _].
    cbn [monthlyIncome set_trains]. lia.
Qed.

Lemma updateEconomy_research_points_witness :
  TechTree.pointsPerMonth (research (updateEconomy ConstructionFacts.oneStation)) = 10.
Proof.
  exact (proj1 (proj2 (updateEconomy_research_points ConstructionFacts.oneStation))).
Defined.

(** ** City growth *)







(** ** The calendar *)

Lemma month_advanceTime s :
  month (advanceTime s) = (if 12 <=? month s + 1 then 0 else month s + 1) /\
  year (advanceTime s) = (if 12 <=? month s + 1 then year s + 1 else year s).
Proof.
  unfold advanceTime.
  change (month (updateEconomy (advanceCalendar s))) with (month (advanceCalendar s)).
  change (year (updateEconomy (advanceCalendar s))) with (year (advanceCalendar s)).
  unfold advanceCalendar. cbn [month year set_month set_year].
  destruct (12 <=? month s + 1); [|split; reflexivity].
  repeat match goal with |- context [if ?b then _ else _] => destruct b end; split; reflexivity.
Qed.

Lemma getMonthName_defined m : getMonthName m <> None <-> 0 <= m < 12.
Proof.
  unfold getMonthName, index. destruct (Z.ltb_spec m 0) as [Hneg|Hpos].
  - split; [congruence | lia].
  - rewrite nth_error_Some. cbn [List.length]. lia.
Qed.

Lemma advanceMonths_calendar n : forall s,
  0 <= month s < 12 ->
  12 * year (advanceMonths n s) + month (advanceMonths n s)
    = 12 * year s + month s + Z.of_nat n /\
  0 <= month (advanceMonths n s) < 12.
Proof.
  induction n as [|n IH]; intros s Hm; cbn [advanceMonths]; [lia|].
  destruct (month_advanceTime s) as [Em Ey].
  assert (Hm' : 0 <= month (advanceTime s) < 12)
    by (rewrite Em; destruct (Z.leb_spec 12 (month s + 1)); lia).
  destruct (IH (advanceTime s) Hm') as [E Hr]. split; [|exact Hr].
  rewrite E, Em, Ey. destruct (Z.leb_spec 12 (month s + 1)); lia.
Qed.

(** X21. Time is linear. With the month in 0..11, one advanceTime moves the
    calendar by exactly one month: the month stays in 0..11, so
    getMonthName has a name for it, and 12 * year + month grows by one.
    After n calls it has grown by n; after twelve the month is the same
    and the year one more. getMonthName is undefined exactly outside
    0..11. *)
Theorem advanceTime_calendar (s : GameState) :
  (forall m, getMonthName m <> None <-> 0 <= m < 12) /\
  (0 <= month s < 12 ->
   0 <= month (advanceTime s) < 12 /\
   12 * year (advanceTime s) + month (advanceTime s) = 12 * year s + month s + 1 /\
   getMonthName (month (advanceTime s)) <> None /\
   (forall n,
      12 * year (advanceMonths n s) + month (advanceMonths n s)
        = 12 * year s + month s + Z.of_nat n /\
      0 <= month (advanceMonths n s) < 12) /\
   year (advanceMonths 12 s) = year s + 1 /\
   month (advanceMonths 12 s) = month s).
Proof.
  split; [apply getMonthName_defined|]. intros Hm.
  destruct (advanceMonths_calendar 1 s Hm) as [E1 R1]. cbn [advanceMonths] in E1, R1.
  split; [exact R1|]. split; [lia|]. split; [now apply getMonthName_defined|].
  split; [intros n; now apply advanceMonths_calendar|].
  destruct (advanceMonths_calendar 12 s Hm) as [E12 R12]. lia.
Qed.

Lemma advanceTime_calendar_witness :
  year (advanceMonths 12 (createGameState (Terrain.Build_GameMap 1 1 [] [] [] []))) = 1841 /\
  month (advanceMonths 12 (createGameState (Terrain.Build_GameMap 1 1 [] [] [] []))) = 0.
Proof.
  apply (proj2 (advanceTime_calendar (createGameState (Terrain.Build_GameMap 1 1 [] [] [] [])))).
  simpl. lia.
Defined.

(** ** Eras *)

(** The era that a calendar year belongs to. *)
Definition eraOfYear (y : Z) : TechTree.Era :=
  if y <? 1900 then TechTree.steam
  else if y <? 1950 then TechTree.diesel
  else if y <? 2000 then TechTree.electric
  else TechTree.maglev.

Lemma era_advanceTime s :
  era s = eraOfYear (year s) -> era (advanceTime s) = eraOfYear (year (advanceTime s)).
Proof.
  intros He. unfold advanceTime. rewrite era_updateEconomy, year_updateEconomy.
  unfold advanceCalendar. cbn [month set_month].
  destruct (12 <=? month s + 1); [|exact He].
  cbn [era year set_year set_month].
  unfold eraOfYear in He.
  destruct (era s) eqn:He'; cbn [TechTree.eraEqb andb];
    rewrite ?andb_false_r, ?andb_true_r;
    repeat match goal with |- context [?a <=? ?b] => destruct (Z.leb_spec a b) end;
    cbn [era year set_era set_year set_month addNotification set_notifications];
    rewrite ?He'; unfold eraOfYear;
    repeat match goal with H : context [?a <? ?b] |- _ => destruct (Z.ltb_spec a b) end;
    repeat match goal with |- context [?a <? ?b] => destruct (Z.ltb_spec a b) end;
    try discriminate; try reflexivity; lia.
Qed.

(** X22. The era follows the calendar. A new game starts in 1840 in the
    steam era; and when the era of a state is the one of its year (steam
    before 1900, diesel before 1950, electric before 2000, maglev from
    then on), it still is after advanceTime, over any number of months. *)
Theorem era_follows_year (s : GameState) :
  (forall m, era (createGameState m) = eraOfYear (year (createGameState m))) /\
  (era s = eraOfYear (year s) ->
   era (advanceTime s) = eraOfYear (year (advanceTime s)) /\
   forall n, era (advanceMonths n s) = eraOfYear (year (advanceMonths n s))).
Proof.
  split; [reflexivity|]. intros He. split; [now apply era_advanceTime|].
  intros n. revert s He. induction n as [|n IH]; intros s He; cbn [advanceMonths]; [exact He|].
  apply IH. now apply era_advanceTime.
Qed.

(** Sixty years of play from the start of a game: 1900, the diesel era. *)
Lemma era_follows_year_witness :
  era (advanceMonths 720 (createGameState (Terrain.Build_GameMap 1 1 [] [] [] [])))
  = eraOfYear (year (advanceMonths 720 (createGameState (Terrain.Build_GameMap 1 1 [] [] [] [])))).
Proof.
  apply (proj2 (era_follows_year (createGameState (Terrain.Build_GameMap 1 1 [] [] [] [])))).
  reflexivity.
Defined.

End LedgerFacts.

(* ================================================================== *)
(** * Research *)
(* ================================================================== *)

Module ResearchFacts.
Import HexGeometry KeyFacts BuildFacts FleetFacts PurchaseFacts LedgerFacts.
Import Js TechTree JsFacts TechTreeFacts.

Lemma getTech_id techId tech : getTech techId = Some tech -> id tech = techId.
Proof.
  unfold getTech. intros H. apply find_some in H as [_ H]. now apply String.eqb_eq.
Qed.

(** What an accepted research check has established. *)
Lemma canResearch_ok state techId :
  ok (canResearch state techId) = true ->
  ~ In techId (unlocked state) /\
  exists tech,
    getTech techId = Some tech /\
    (forall p, In p (prerequisites tech) -> In p (unlocked state)) /\
    (inject_Z (cost tech) <= points state)%Q.
Proof.
  unfold canResearch.
  destruct (setHas (unlocked state) techId) eqn:Hu; [discriminate|].
  destruct (getTech techId) as [tech|] eqn:Ht; [|discriminate].
  destruct (firstMissing state (prerequisites tech)) as [p|] eqn:Hm; [discriminate|].
  destruct (Qltb (points state) (inject_Z (cost tech))) eqn:Hp; [discriminate|].
  intros _. split.
  - intros Hin. apply setHas_In in Hin. congruence.
  - exists tech. split; [reflexivity|]. split.
    + intros p Hp'. apply setHas_In. exact (proj1 (firstMissing_none _ _) Hm p Hp').
    + apply Qnot_lt_le. intros Hlt. apply Qltb_lt in Hlt. congruence.
Qed.

Lemma setAdd_new s k : ~ In k s -> setAdd s k = s ++ [k].
Proof.
  intros H. unfold setAdd. destruct (setHas s k) eqn:E; [|reflexivity].
  apply setHas_In in E. contradiction.
Qed.

(** The state after unlockTech, when the check passes. *)
Lemma unlockTech_accepted state techId :
  ok (canResearch state techId) = true ->
  exists tech,
    getTech techId = Some tech /\
    unlockTech state techId =
      (withPointsUnlocked state (points state - inject_Z (cost tech))
                          (unlocked state ++ [techId]), true).
Proof.
  intros Hok. destruct (canResearch_ok _ _ Hok) as (Hnew & tech & Ht & _).
  exists tech. split; [exact Ht|]. unfold unlockTech.
  now rewrite Hok, Ht, (setAdd_new _ _ Hnew).
Qed.

Lemma unlockTech_rejected state techId :
  ok (canResearch state techId) = false -> unlockTech state techId = (state, false).
Proof. intros H. unfold unlockTech. now rewrite H. Qed.

(** X23. unlockTech is all or nothing. A refused unlock returns the state
    unchanged. An accepted unlock is of a catalogue technology that was
    not unlocked, whose prerequisites all were, and whose cost the points
    covered: it takes exactly the cost from the points, which stay at 0 or
    above, and appends the id to the unlocked set. The same technology
    cannot be unlocked a second time: the next attempt is refused with the
    reason Already researched and costs nothing. *)
Theorem unlockTech_effect (state : ResearchState) (techId : string) :
  (snd (unlockTech state techId) = false -> fst (unlockTech state techId) = state) /\
  (snd (unlockTech state techId) = true ->
   let state' := fst (unlockTech state techId) in
   exists tech,
     getTech techId = Some tech /\ id tech = techId /\
     ~ In techId (unlocked state) /\
     (forall p, In p (prerequisites tech) -> In p (unlocked state)) /\
     (inject_Z (cost tech) <= points state)%Q /\
     points state' = (points state - inject_Z (cost tech))%Q /\
     (0 <= points state')%Q /\
     unlocked state' = unlocked state ++ [techId] /\
     pointsPerMonth state' = pointsPerMonth state /\
     currentResearch state' = currentResearch state /\
     progress state' = progress state /\
     canResearch state' techId = {| ok := false; reason := Some "Already researched"%string |} /\
     unlockTech state' techId = (state', false)).
Proof.
  destruct (ok (canResearch state techId)) eqn:Hok.
  - destruct (unlockTech_accepted _ _ Hok) as (tech & Ht & ->). cbn [fst snd].
    split; [discriminate|]. intros _. cbv zeta.
    destruct (canResearch_ok _ _ Hok) as (Hnew & tech' & Ht' & Hpre & Hcost).
    rewrite Ht in Ht'. injection Ht' as <-.
    exists tech. cbn [points unlocked pointsPerMonth currentResearch progress withPointsUnlocked].
    assert (Hagain : canResearch
              (withPointsUnlocked state (points state - inject_Z (cost tech))
                 (unlocked state ++ [techId])) techId
            = {| ok := false; reason := Some "Already researched"%string |}).
    { unfold canResearch. cbn [unlocked withPointsUnlocked].
      replace (setHas (unlocked state ++ [techId]) techId) with true; [reflexivity|].
      symmetry. apply setHas_In. apply in_or_app. right. simpl; auto. }
    split; [exact Ht|]. split; [now apply getTech_id|]. split; [exact Hnew|].
    split; [exact Hpre|]. split; [exact Hcost|]. split; [reflexivity|].
    split; [now apply (proj1 (Qle_minus_iff _ _))|].
    split; [reflexivity|]. split; [reflexivity|]. split; [reflexivity|]. split; [reflexivity|].
    split; [exact Hagain|]. apply unlockTech_rejected. now rewrite Hagain.
  - rewrite (unlockTech_rejected _ _ Hok). split; [reflexivity | discriminate].
Qed.

(** A fresh research state with 500 points. *)
Definition funded : ResearchState :=
  withPointsUnlocked createResearchState 500 (unlocked createResearchState).

Lemma unlockTech_effect_witness :
  exists tech,
    getTech "passenger_carriages" = Some tech /\
    unlockTech (fst (unlockTech funded "passenger_carriages")) "passenger_carriages"
    = (fst (unlockTech funded "passenger_carriages"), false).
Proof.
  destruct (proj2 (unlockTech_effect funded "passenger_carriages") eq_refl)
    as (tech & Ht & _ & _ & _ & _ & _ & _ & _ & _ & _ & _ & _ & Hagain).
  exists tech. split; [exact Ht | exact Hagain].
Defined.

(** ** Prerequisites *)

(** In the order of unlocking, every unlocked technology of the catalogue
    comes after all its prerequisites; and no id is listed twice. *)
Definition prerequisitesFirst (state : ResearchState) : Prop :=
  NoDup (unlocked state) /\
  forall i techId tech p,
    nth_error (unlocked state) i = Some techId ->
    getTech techId = Some tech ->
    In p (prerequisites tech) ->
    exists j, (j < i)%nat /\ nth_error (unlocked state) j = Some p.

(** X24. A technology is never unlocked before its prerequisites. A new
    research state unlocks only the basic locomotive, which has none; and
    unlockTech keeps the unlocked set free of repeats and in an order in
    which every technology comes after all its prerequisites, so at any
    time every prerequisite of an unlocked technology is unlocked. *)
Theorem unlockTech_prerequisites_first (state : ResearchState) (techId : string) :
  prerequisitesFirst createResearchState /\
  (prerequisitesFirst state ->
   prerequisitesFirst (fst (unlockTech state techId)) /\
   (forall u tech p, In u (unlocked state) -> getTech u = Some tech ->
                     In p (prerequisites tech) -> In p (unlocked state))).
Proof.
  split.
  - split; [repeat constructor; intros []|].
    intros [|[|i]] u tech p Hn; cbn in Hn; try discriminate.
    injection Hn as <-. intros [= <-] [].
  - intros [Hnd Hord]. split.
    + destruct (ok (canResearch state techId)) eqn:Hok.
      2:{ rewrite (unlockTech_rejected _ _ Hok). split; assumption. }
      destruct (unlockTech_accepted _ _ Hok) as (tech & Ht & ->). cbn [fst].
      destruct (canResearch_ok _ _ Hok) as (Hnew & tech' & Ht' & Hpre & _).
      rewrite Ht in Ht'. injection Ht' as <-.
      split; cbn [unlocked withPointsUnlocked].
      * apply NoDup_app; [exact Hnd | repeat constructor; intros [] |].
        intros x Hx [<-|[]]. contradiction.
      * intros i u tech0 p Hn Hu Hp.
        destruct (Nat.lt_ge_cases i (List.length (unlocked state))) as [Hi|Hi].
        -- rewrite nth_error_app1 in Hn by exact Hi.
           destruct (Hord i u tech0 p Hn Hu Hp) as (j & Hj & Hnj).
           exists j. split; [exact Hj|]. rewrite nth_error_app1 by lia. exact Hnj.
        -- rewrite nth_error_app2 in Hn by exact Hi.
           destruct (i - List.length (unlocked state))%nat as [|k] eqn:Hk;
             [|destruct k; discriminate].
           injection Hn as <-. rewrite Ht in Hu. injection Hu as <-.
           apply Hpre in Hp. apply In_nth_error in Hp as [j Hj].
           exists j. split.
           ++ assert (j < List.length (unlocked state))%nat
                by (apply nth_error_Some; congruence). lia.
           ++ rewrite nth_error_app1; [exact Hj | apply nth_error_Some; congruence].
    + intros u tech p Hu Ht Hp. apply In_nth_error in Hu as [i Hi].
      destruct (Hord i u tech p Hi Ht Hp) as (j & _ & Hj). exact (nth_error_In _ _ Hj).
Qed.

Lemma unlockTech_prerequisites_first_witness :
  prerequisitesFirst (fst (unlockTech funded "passenger_carriages")).
Proof.
  apply (proj2 (unlockTech_prerequisites_first funded "passenger_carriages")).
  split; [repeat constructor; intros []|].
  intros [|[|i]] u tech p Hn; cbn in Hn; try discriminate.
  injection Hn as <-. intros [= <-] [].
Defined.

(** ** Bonuses *)

(** What one technology adds to a bonus of the given kind. *)
Definition techBonus (ty : EffectType) (tech : Technology) : Z :=
  TrainFacts.sumZ
    (List.map (fun e => asNumber (value e))
              (List.filter (fun e => effectTypeEqb (etype e) ty) (effects tech))).

(** The train types that one technology unlocks. *)
Definition techTrains (tech : Technology) : list string :=
  List.map (fun e => asString (value e))
           (List.filter (fun e => effectTypeEqb (etype e) unlock_train) (effects tech)).

Lemma unlockedEffects_app state p u tech :
  getTech u = Some tech ->
  unlockedEffects (withPointsUnlocked state p (unlocked state ++ [u]))
  = unlockedEffects state ++ effects tech.
Proof.
  intros Ht. unfold unlockedEffects. cbn [unlocked withPointsUnlocked].
  rewrite flat_map_app. cbn [List.flat_map]. now rewrite Ht, app_nil_r.
Qed.

Lemma sumEffects_app ty state p u tech :
  getTech u = Some tech ->
  sumEffects ty (withPointsUnlocked state p (unlocked state ++ [u]))
  = sumEffects ty state + techBonus ty tech.
Proof.
  intros Ht. unfold sumEffects, techBonus.
  rewrite (unlockedEffects_app _ _ _ _ Ht), filter_app, !fold_left_sum, map_app.
  unfold TrainFacts.sumZ. rewrite fold_right_app.
  rewrite !Z.add_0_l.
  generalize (List.map (fun e => asNumber (value e))
                (List.filter (fun e => effectTypeEqb (etype e) ty) (effects tech))).
  generalize (List.map (fun e => asNumber (value e))
                (List.filter (fun e => effectTypeEqb (etype e) ty) (unlockedEffects state))).
  intros l1 l2. induction l1 as [|a l1 IH]; cbn [List.fold_right]; lia.
Qed.

Lemma techBonus_nonneg ty tech : getTech (id tech) = Some tech -> 0 <= techBonus ty tech.
Proof.
  intros Ht. unfold techBonus. apply sumZ_nonneg. intros x Hx.
  apply in_map_iff in Hx as [e [<- He]]. apply filter_In in He as [He _].
  unfold getTech in Ht. apply find_some in Ht as [Hin _].
  exact (TrainFacts.catalog_effects_nonneg tech Hin e He).
Qed.

(** X25. Unlocking a technology adds exactly its effects to the bonuses: the
    speed, capacity and revenue bonuses grow by the sum of the
    technology's effects of that kind, the maintenance reduction is the
    new sum capped at 75, and the train types it unlocks are appended to
    the unlocked train types. No bonus ever decreases and no train type is
    lost. *)
Theorem unlockTech_adds_bonuses (state : ResearchState) (techId : string)
    (tech : Technology) :
  snd (unlockTech state techId) = true ->
  getTech techId = Some tech ->
  let state' := fst (unlockTech state techId) in
  getSpeedBonus state' = getSpeedBonus state + techBonus speed_bonus tech /\
  getCapacityBonus state' = getCapacityBonus state + techBonus capacity_bonus tech /\
  getRevenueBonus state' = getRevenueBonus state + techBonus revenue_bonus tech /\
  getMaintenanceReduction state' =
    Z.min (sumEffects maintenance_reduction state + techBonus maintenance_reduction tech) 75 /\
  getUnlockedTrainTypes state' = getUnlockedTrainTypes state ++ techTrains tech /\
  getSpeedBonus state <= getSpeedBonus state' /\
  getCapacityBonus state <= getCapacityBonus state' /\
  getRevenueBonus state <= getRevenueBonus state' /\
  getMaintenanceReduction state <= getMaintenanceReduction state'.
Proof.
  intros Hsnd Ht. cbv zeta.
  destruct (ok (canResearch state techId)) eqn:Hok.
  2:{ rewrite (unlockTech_rejected _ _ Hok) in Hsnd. discriminate. }
  destruct (unlockTech_accepted _ _ Hok) as (tech' & Ht' & ->). cbn [fst].
  rewrite Ht in Ht'. injection Ht' as <-.
  assert (Hself : getTech (id tech) = Some tech) by (now rewrite (getTech_id _ _ Ht)).
  pose proof (techBonus_nonneg speed_bonus tech Hself).
  pose proof (techBonus_nonneg capacity_bonus tech Hself).
  pose proof (techBonus_nonneg revenue_bonus tech Hself).
  pose proof (techBonus_nonneg maintenance_reduction tech Hself).
  unfold getSpeedBonus, getCapacityBonus, getRevenueBonus, getMaintenanceReduction,
         getUnlockedTrainTypes.
  rewrite !(sumEffects_app _ _ _ _ _ Ht), (unlockedEffects_app _ _ _ _ Ht), filter_app, map_app.
  unfold techTrains. repeat split; lia.
Qed.

Lemma unlockTech_adds_bonuses_witness :
  getUnlockedTrainTypes (fst (unlockTech funded "passenger_carriages"))
  = ["freight"; "passenger"]%string.
Proof.
  refine (proj1 (proj2 (proj2 (proj2 (proj2
    (unlockTech_adds_bonuses funded "passenger_carriages"
       (Build_Technology "passenger_carriages" "Passenger Carriages" steam 500
          ["basic_locomotive"%string]
          [ {| etype := unlock_train; value := Str "passenger" |} ])
       eq_refl eq_refl)))))).
Defined.

End ResearchFacts.

Module CatalogFacts.
Import Js TechTree JsFacts TechTreeFacts EconomyFacts.

(** The names of the four eras, in order. *)
Definition eraNames : list string := ["steam"; "diesel"; "electric"; "maglev"]%string.

(** One entry of the catalogue, at position [i]: its cost is not
    negative, and each of its prerequisites is the id of an earlier entry,
    of the same or an earlier era. *)
Definition entryOk (i : nat) (t : Technology) : bool :=
  (0 <=? cost t)
  && List.forallb
       (fun p =>
          List.existsb
            (fun t' => String.eqb (id t') p && (eraRank (era t') <=? eraRank (era t)))
            (List.firstn i TECH_TREE))
       (prerequisites t).

Lemma catalog_entries_ok :
  List.forallb (fun '(i, t) => entryOk i t)
    (List.combine (List.seq 0 (List.length TECH_TREE)) TECH_TREE) = true.
Proof. vm_compute. reflexivity. Qed.

Lemma catalog_entry i t : nth_error TECH_TREE i = Some t -> entryOk i t = true.
Proof.
  intros H. pose proof catalog_entries_ok as Hall. rewrite forallb_forall in Hall.
  apply (Hall (i, t)).
  apply nth_error_In with i. rewrite BuildFacts.nth_error_combine_seq, H. reflexivity.
Qed.

Lemma getEraForTech_unknown eraId : ~ In eraId eraNames -> getEraForTech eraId = [].
Proof.
  intros Hno. unfold getEraForTech.
  assert (H : forall l, List.filter (fun t => String.eqb (eraName (era t)) eraId) l = []).
  { induction l as [|t l IH]; cbn [List.filter]; [reflexivity|].
    destruct (String.eqb_spec (eraName (era t)) eraId) as [E|_]; [|exact IH].
    exfalso. apply Hno. rewrite <- E. unfold eraNames. destruct (era t); simpl; auto. }
  apply H.
Qed.

(** X26. The technology catalogue is well formed: its ids are pairwise
    distinct, so getTech finds every entry by its id; every prerequisite of
    an entry is the id of an entry that stands earlier in the catalogue and
    belongs to the same or an earlier era, so the prerequisite relation has
    no cycle; no cost is negative. The catalogue lists the four eras in
    order, four technologies each: it is the concatenation of
    getEraForTech over steam, diesel, electric and maglev, and
    getEraForTech of any other string is empty. *)
Theorem catalog_well_formed :
  NoDup (List.map id TECH_TREE) /\
  (forall t, In t TECH_TREE -> getTech (id t) = Some t) /\
  (forall i t p,
     nth_error TECH_TREE i = Some t -> In p (prerequisites t) ->
     exists j t', (j < i)%nat /\ nth_error TECH_TREE j = Some t' /\ id t' = p /\
                  eraRank (era t') <= eraRank (era t)) /\
  (forall t, In t TECH_TREE -> 0 <= cost t) /\
  TECH_TREE = List.flat_map getEraForTech eraNames /\
  List.map (fun e => List.length (getEraForTech e)) eraNames = [4; 4; 4; 4]%nat /\
  (forall eraId, ~ In eraId eraNames -> getEraForTech eraId = []).
Proof.
  assert (Hnd : NoDup (List.map id TECH_TREE)).
  { cbn. repeat constructor; cbn; intros H;
      repeat (destruct H as [H|H]; [discriminate|]); exact H. }
  split; [exact Hnd|]. split; [|split; [|split; [|split; [|split]]]].
  - intros t Hin. unfold getTech.
    destruct (List.find (fun t0 => String.eqb (id t0) (id t)) TECH_TREE) as [t'|] eqn:Hf.
    + apply find_some in Hf as [Hin' E]. apply String.eqb_eq in E.
      apply In_nth_error in Hin as [i Hi]. apply In_nth_error in Hin' as [j Hj].
      assert (i = j).
      { apply (proj1 (NoDup_nth_error _) Hnd).
        - apply nth_error_Some. rewrite nth_error_map, Hi. discriminate.
        - rewrite !nth_error_map, Hi, Hj. cbn. now rewrite E. }
      subst j. congruence.
    + exfalso. pose proof (find_none _ _ Hf t Hin) as H. cbv beta in H.
      rewrite String.eqb_refl in H. discriminate.
  - intros i t p Hi Hp. pose proof (catalog_entry i t Hi) as Hok.
    unfold entryOk in Hok. apply andb_true_iff in Hok as [_ Hpre].
    rewrite forallb_forall in Hpre. specialize (Hpre p Hp).
    apply existsb_exists in Hpre as [t' [Hin H]]. apply andb_true_iff in H as [E R].
    apply String.eqb_eq in E. apply Z.leb_le in R.
    apply In_nth_error in Hin as [j Hj].
    assert (Hlt : (j < i)%nat).
    { assert (H : (j < List.length (List.firstn i TECH_TREE))%nat)
        by (apply nth_error_Some; congruence).
      rewrite length_firstn in H. lia. }
    exists j, t'. split; [exact Hlt|]. split; [|auto].
    rewrite nth_error_firstn in Hj. destruct (Nat.ltb_spec j i); [exact Hj | lia].
  - intros t Hin. apply In_nth_error in Hin as [i Hi].
    pose proof (catalog_entry i t Hi) as Hok. unfold entryOk in Hok.
    apply andb_true_iff in Hok as [Hc _]. now apply Z.leb_le.
  - reflexivity.
  - reflexivity.
  - apply getEraForTech_unknown.
Qed.

End CatalogFacts.

(* ================================================================== *)
(** * The noise table *)
(* ================================================================== *)

Module NoiseFacts.
Import Js Hex Random Terrain JsFacts HexFacts.

Lemma nth_error_upd (p : list Z) (i v : Z) (k : nat) :
  nth_error (upd p i v) k =
  option_map (fun x => if Z.of_nat k =? i then v else x) (nth_error p k).
Proof.
  unfold upd. rewrite nth_error_map, BuildFacts.nth_error_combine_seq.
  destruct (nth_error p k); reflexivity.
Qed.

Lemma length_upd (p : list Z) (i v : Z) : List.length (upd p i v) = List.length p.
Proof. unfold upd. rewrite length_map, length_combine, length_seq. lia. Qed.

Lemma nth_upd (p : list Z) (i v : Z) (k : nat) :
  (k < List.length p)%nat ->
  List.nth k (upd p i v) 0 = if Z.of_nat k =? i then v else List.nth k p 0.
Proof.
  intros Hk. destruct (nth_error p k) as [x|] eqn:Hx.
  - rewrite (nth_error_nth _ _ _ Hx).
    apply nth_error_nth. now rewrite nth_error_upd, Hx.
  - apply nth_error_None in Hx. lia.
Qed.

Lemma at_nth (p : list Z) (k : nat) : at_ p (Z.of_nat k) = List.nth k p 0.
Proof. unfold at_. destruct (Z.ltb_spec (Z.of_nat k) 0); [lia|]. now rewrite Nat2Z.id. Qed.

(** The exchange of two entries, as the shuffle writes it. *)
Lemma swap_Permutation (p : list Z) (a b : nat) :
  (a < List.length p)%nat -> (b < List.length p)%nat ->
  Permutation p (upd (upd p (Z.of_nat a) (at_ p (Z.of_nat b))) (Z.of_nat b) (at_ p (Z.of_nat a))).
Proof.
  intros Ha Hb. apply (Permutation_nth _ _ 0). cbv zeta.
  split; [now rewrite !length_upd|].
  exists (fun k => if (k =? b)%nat then a else if (k =? a)%nat then b else k).
  split; [|split].
  - intros k Hk. destruct (k =? b)%nat; [exact Ha|]. destruct (k =? a)%nat; [exact Hb | exact Hk].
  - intros x y Hx Hy.
    destruct (Nat.eqb_spec x b), (Nat.eqb_spec x a), (Nat.eqb_spec y b), (Nat.eqb_spec y a); lia.
  - intros k Hk. rewrite nth_upd by (now rewrite length_upd). rewrite nth_upd by exact Hk.
    rewrite !at_nth.
    destruct (Nat.eqb_spec k b) as [->|Hkb].
    + now rewrite Z.eqb_refl.
    + destruct (Z.eqb_spec (Z.of_nat k) (Z.of_nat b)); [lia|].
      destruct (Nat.eqb_spec k a) as [->|Hka].
      * now rewrite Z.eqb_refl.
      * destruct (Z.eqb_spec (Z.of_nat k) (Z.of_nat a)); [lia | reflexivity].
Qed.

Lemma shuffle_Permutation (i : nat) : forall s p,
  0 <= s -> (i < List.length p)%nat ->
  Permutation p (shuffle i s p) /\ List.length (shuffle i s p) = List.length p.
Proof.
  induction i as [|i IH]; intros s p Hs Hi; cbn [shuffle].
  - split; [apply Permutation_refl | reflexivity].
  - set (s' := Z.rem (s * 16807 + 0) 2147483647).
    set (j := Z.rem s' (Z.of_nat (S i) + 1)).
    assert (Hs' : 0 <= s') by (apply Z.rem_nonneg; lia).
    assert (Hj : 0 <= j < Z.of_nat (S i) + 1) by (apply Z.rem_bound_pos; lia).
    assert (Ej : j = Z.of_nat (Z.to_nat j)) by lia.
    set (p' := upd (upd p (Z.of_nat (S i)) (at_ p j)) j (at_ p (Z.of_nat (S i)))).
    assert (Hp' : Permutation p p').
    { subst p'. rewrite Ej. apply swap_Permutation; lia. }
    assert (Hl' : List.length p' = List.length p) by (subst p'; now rewrite !length_upd).
    destruct (IH s' p' Hs' ltac:(lia)) as [Hperm Hlen].
    split; [now apply Permutation_trans with p' | lia].
Qed.

(** X27. For a seed that is not negative (and small enough for the seed
    arithmetic to be exact), the lookup table of SimpleNoise is a
    permutation of 0..255 written twice, 512 entries in all, each between
    0 and 255. So the four table lookups of noise2D, at perm[X] + Y,
    perm[X] + Y + 1, perm[X + 1] + Y and perm[X + 1] + Y + 1 for cell
    coordinates X and Y in 0..255, all fall inside the table. *)
Theorem newSimpleNoise_permutation (seed : Z) :
  0 <= seed -> seed * 16807 < 2 ^ 53 ->
  let table := perm (newSimpleNoise seed) in
  let half := List.firstn 256 table in
  Permutation (List.map Z.of_nat (List.seq 0 256)) half /\
  table = half ++ half /\
  List.length table = 512%nat /\
  (forall v, In v table -> 0 <= v <= 255) /\
  (forall X Y, 0 <= X <= 255 -> 0 <= Y <= 255 ->
     0 <= at_ table X <= 255 /\ 0 <= at_ table (X + 1) <= 255 /\
     0 <= at_ table X + Y /\
     at_ table X + Y + 1 < Z.of_nat (List.length table) /\
     0 <= at_ table (X + 1) + Y /\
     at_ table (X + 1) + Y + 1 < Z.of_nat (List.length table)).
Proof.
  intros Hseed _. cbv zeta. unfold newSimpleNoise. cbn [perm].
  set (base := List.map Z.of_nat (List.seq 0 256)).
  assert (Hbase : List.length base = 256%nat)
    by (subst base; rewrite length_map, length_seq; reflexivity).
  destruct (shuffle_Permutation 255 seed base Hseed ltac:(lia)) as [Hperm Hlen].
  set (p := shuffle 255 seed base) in *.
  assert (Hfirst : List.firstn 256 (p ++ p) = p).
  { assert (H256 : 256%nat = List.length p) by lia.
    rewrite H256, firstn_app, Nat.sub_diag, firstn_all, firstn_O. apply app_nil_r. }
  rewrite Hfirst.
  assert (Hrange : forall v, In v (p ++ p) -> 0 <= v <= 255).
  { intros v Hv. assert (Hp : In v p) by (apply in_app_or in Hv; tauto).
    apply (Permutation_in _ (Permutation_sym Hperm)) in Hp.
    subst base. apply in_map_iff in Hp as [k [<- Hk]]. apply in_seq in Hk. lia. }
  assert (Hat : forall i, 0 <= i < 512 -> 0 <= at_ (p ++ p) i <= 255).
  { intros i Hi. apply Hrange. unfold at_. destruct (Z.ltb_spec i 0); [lia|].
    apply nth_In. rewrite length_app. lia. }
  split; [exact Hperm|]. split; [reflexivity|].
  split; [rewrite length_app; lia|]. split; [exact Hrange|].
  intros X Y HX HY. rewrite length_app, Hlen, Hbase.
  pose proof (Hat X ltac:(lia)). pose proof (Hat (X + 1) ltac:(lia)). lia.
Qed.

Lemma newSimpleNoise_permutation_witness :
  List.length (perm (newSimpleNoise 42)) = 512%nat.
Proof.
  apply (newSimpleNoise_permutation 42); [lia | reflexivity].
Defined.

End NoiseFacts.

(* ================================================================== *)
(** * The terrain grid and its rivers *)
(* ================================================================== *)

Module GridFacts.
Import Js Hex Random Terrain JsFacts HexFacts RandomFacts TerrainFacts.

(** The keys of the grid, row by row. *)
Definition gridKeys (width height : Z) : list string :=
  List.flat_map (fun r0 => List.map (fun q0 => hexKey {| q := q0; r := r0 |}) (upto width))
                (upto height).

Lemma upto_NoDup n : NoDup (upto n).
Proof.
  unfold upto. apply Injective_map_NoDup; [|apply seq_NoDup].
  intros a b H. lia.
Qed.

Lemma upto_length n : List.length (upto n) = Z.to_nat n.
Proof. unfold upto. now rewrite length_map, length_seq. Qed.

Lemma gridKeys_In width height k :
  In k (gridKeys width height) <->
  exists n, k = hexKey n /\ 0 <= q n < width /\ 0 <= r n < height.
Proof.
  unfold gridKeys. rewrite in_flat_map. split.
  - intros [r0 [Hr Hk]]. apply in_map_iff in Hk as [q0 [<- Hq]].
    apply upto_In in Hr, Hq. eexists. split; [reflexivity|]. cbn. lia.
  - intros [n [-> [Hq Hr]]]. exists (r n). split; [now apply upto_In|].
    apply in_map_iff. exists (q n). split; [now destruct n | now apply upto_In].
Qed.

Lemma flat_map_NoDup {A B : Type} (f : A -> list B) (l : list A) :
  NoDup l -> (forall a, In a l -> NoDup (f a)) ->
  (forall a b x, In a l -> In b l -> In x (f a) -> In x (f b) -> a = b) ->
  NoDup (List.flat_map f l).
Proof.
  induction l as [|a l IH]; intros Hnd Hf Hdis; cbn [List.flat_map]; [constructor|].
  inversion Hnd as [|? ? Ha Hl]; subst.
  apply NoDup_app.
  - apply Hf. simpl; auto.
  - apply IH; [exact Hl | intros; apply Hf; simpl; auto |].
    intros x y z Hx Hy. apply Hdis; simpl; auto.
  - intros x Hx Hin. apply in_flat_map in Hin as [b [Hb Hxb]].
    assert (a = b) by (apply (Hdis a b x); simpl; auto). subst. contradiction.
Qed.

Lemma gridKeys_NoDup width height : NoDup (gridKeys width height).
Proof.
  unfold gridKeys. apply flat_map_NoDup.
  - apply upto_NoDup.
  - intros r0 _. apply Injective_map_NoDup; [|apply upto_NoDup].
    intros a b H. apply hexKey_inj in H. now injection H.
  - intros a b x _ _ Ha Hb.
    apply in_map_iff in Ha as [qa [<- _]]. apply in_map_iff in Hb as [qb [E _]].
    apply hexKey_inj in E. now injection E.
Qed.

Lemma gridKeys_length width height :
  Z.of_nat (List.length (gridKeys width height)) = Z.max 0 width * Z.max 0 height.
Proof.
  unfold gridKeys.
  assert (H : forall rows,
            List.length (List.flat_map
              (fun r0 => List.map (fun q0 => hexKey {| q := q0; r := r0 |}) (upto width)) rows)
            = (List.length rows * Z.to_nat width)%nat).
  { induction rows as [|a rows IH]; cbn [List.flat_map List.length]; [reflexivity|].
    rewrite length_app, length_map, upto_length, IH. lia. }
  rewrite H, upto_length. lia.
Qed.

(** A loop of [set] calls over fresh keys appends them in order. *)
Lemma fold_set_keys {A V : Type} (key : A -> string) (val : A -> V) (l : list A) :
  forall m : JsMap V,
    NoDup (keys m ++ List.map key l) ->
    keys (List.fold_left (fun m x => set m (key x) (val x)) l m) = keys m ++ List.map key l.
Proof.
  induction l as [|a l IH]; intros m Hnd; cbn [List.fold_left List.map].
  - now rewrite app_nil_r.
  - assert (Hnew : has m (key a) = false).
    { apply not_true_is_false. intros H. apply has_keys in H.
      cbn [List.map] in Hnd. apply NoDup_remove_2 in Hnd. apply Hnd.
      apply in_or_app. now left. }
    assert (Hk : keys (set m (key a) (val a)) = keys m ++ [key a])
      by (now apply keys_set_new).
    rewrite IH; rewrite Hk, <- app_assoc; [reflexivity | exact Hnd].
Qed.

Lemma fold_rows_keys {V : Type} (row : JsMap V -> Z -> JsMap V)
    (rowKeys : Z -> list string) (rows : list Z) :
  (forall m r0, NoDup (keys m ++ rowKeys r0) -> keys (row m r0) = keys m ++ rowKeys r0) ->
  forall m : JsMap V,
    NoDup (keys m ++ List.flat_map rowKeys rows) ->
    keys (List.fold_left row rows m) = keys m ++ List.flat_map rowKeys rows.
Proof.
  intros Hrow. induction rows as [|a rows IH]; intros m Hnd; cbn [List.fold_left List.flat_map].
  - now rewrite app_nil_r.
  - cbn [List.flat_map] in Hnd. rewrite app_assoc in Hnd.
    assert (Hk : keys (row m a) = keys m ++ rowKeys a).
    { apply Hrow. now apply NoDup_app_remove_r in Hnd. }
    rewrite IH; rewrite Hk; [now rewrite app_assoc | exact Hnd].
Qed.

Lemma baseTerrain_keys width height seed :
  keys (baseTerrain width height seed) = gridKeys width height.
Proof.
  unfold baseTerrain, gridKeys.
  rewrite (fold_rows_keys _
             (fun r0 => List.map (fun q0 => hexKey {| q := q0; r := r0 |}) (upto width))).
  - reflexivity.
  - intros m r0 Hnd.
    apply (fold_set_keys (fun q0 => hexKey {| q := q0; r := r0 |})
                         (fun q0 => tileType _ _ width height q0 r0)). exact Hnd.
  - cbn [keys List.map app]. apply gridKeys_NoDup.
Qed.

(** The classification never yields River. *)
Lemma classify_not_River e m : classify e m <> River.
Proof.
  unfold classify.
  repeat match goal with |- context [if ?b then _ else _] => destruct b end; discriminate.
Qed.

Lemma fold_set_values {A V : Type} (key : A -> string) (val : A -> V) (P : V -> Prop)
    (l : list A) :
  (forall x, P (val x)) ->
  forall m : JsMap V,
    (forall k v, get m k = Some v -> P v) ->
    forall k v, get (List.fold_left (fun m x => set m (key x) (val x)) l m) k = Some v -> P v.
Proof.
  intros Hval. induction l as [|a l IH]; intros m Hm; cbn [List.fold_left]; [exact Hm|].
  apply IH. intros k v. destruct (String.eqb_spec (key a) k) as [<-|Hne].
  - rewrite get_set_same. intros [= <-]. apply Hval.
  - rewrite get_set_other by exact Hne. apply Hm.
Qed.

Lemma baseTerrain_no_River width height seed k :
  get (baseTerrain width height seed) k <> Some River.
Proof.
  intros H.
  assert (Hall : forall k v, get (baseTerrain width height seed) k = Some v -> v <> River).
  { unfold baseTerrain.
    assert (Hrows : forall rows m,
              (forall k v, get m k = Some v -> v <> River) ->
              forall k v,
                get (List.fold_left
                       (fun terrain r0 =>
                          List.fold_left
                            (fun terrain q0 =>
                               set terrain (hexKey {| q := q0; r := r0 |})
                                   (tileType (newSimpleNoise seed) (newSimpleNoise (seed + 1000))
                                             width height q0 r0))
                            (upto width) terrain) rows m) k = Some v -> v <> River).
    { induction rows as [|r0 rows IH]; intros m Hm; cbn [List.fold_left]; [exact Hm|].
      apply IH.
      apply (fold_set_values (fun q0 => hexKey {| q := q0; r := r0 |})
               (fun q0 => tileType _ _ width height q0 r0) (fun v => v <> River)); [|exact Hm].
      intros q0. unfold tileType. apply classify_not_River. }
    apply Hrows. intros k0 v0 H0. discriminate. }
  exact (Hall k River H eq_refl).
Qed.

(** ** Rivers and water *)

Section Water.
Variables (width height : Z) (base : JsMap TerrainType).

(** Every Water tile of [base] is still Water. *)
Definition waterKept (terrain : JsMap TerrainType) : Prop :=
  forall k, get base k = Some Water -> get terrain k = Some Water.

Lemma riverWalk_waterKept rnd steps :
  forall q0 r0 terrain c terrain' c',
    waterKept terrain ->
    riverWalk rnd width height steps q0 r0 terrain c = Some (terrain', c') ->
    waterKept terrain'.
Proof.
  induction steps as [|steps IH]; intros q0 r0 terrain c terrain' c' Hk; cbn [riverWalk].
  - now intros [= <- <-].
  - set (rKey := hexKey {| q := q0; r := r0 |}).
    destruct (get terrain rKey) as [t|] eqn:Hget.
    + destruct (terrainEqb t Water) eqn:Hw.
      * destruct t; try discriminate. now intros [= <- <-].
      * assert (Hset : waterKept (set terrain rKey River)).
        { intros k Hb. destruct (String.eqb_spec rKey k) as [<-|Hne].
          - apply Hk in Hb. rewrite Hget in Hb. injection Hb as ->. discriminate.
          - rewrite get_set_other by exact Hne. now apply Hk. }
        assert (Hgo :
          (if (List.length (List.filter (inBounds width height) (hexNeighbors {| q := q0; r := r0 |})) =? 0)%nat
           then Some (set terrain rKey River, c)
           else
             if randomInt rnd c (Z.of_nat (List.length (List.filter (inBounds width height) (hexNeighbors {| q := q0; r := r0 |})))) <? 0
             then None
             else
               match nth_error (List.filter (inBounds width height) (hexNeighbors {| q := q0; r := r0 |}))
                       (Z.to_nat (randomInt rnd c (Z.of_nat (List.length (List.filter (inBounds width height) (hexNeighbors {| q := q0; r := r0 |}))))))
               with
               | Some next =>
                   riverWalk rnd width height steps (q next) (r next)
                     (set terrain rKey River) (S c)
               | None => None
               end) = Some (terrain', c') -> waterKept terrain').
        { destruct (_ =? 0)%nat; [now intros [= <- <-]|].
          destruct (_ <? 0); [discriminate|].
          destruct (nth_error _ _) as [next|]; [|discriminate].
          now apply IH. }
        destruct t; try exact Hgo. discriminate.
    + assert (Hset : waterKept (set terrain rKey River)).
      { intros k Hb. destruct (String.eqb_spec rKey k) as [<-|Hne].
        - apply Hk in Hb. rewrite Hget in Hb. discriminate.
        - rewrite get_set_other by exact Hne. now apply Hk. }
      destruct (_ =? 0)%nat; [now intros [= <- <-]|].
      destruct (_ <? 0); [discriminate|].
      destruct (nth_error _ _) as [next|]; [|discriminate].
      now apply IH.
Qed.

Lemma riverLoop_waterKept rnd n :
  forall terrain c terrain' c',
    waterKept terrain ->
    riverLoop rnd width height n terrain c = Some (terrain', c') ->
    waterKept terrain'.
Proof.
  induction n as [|n IH]; intros terrain c terrain' c' Hk; cbn [riverLoop].
  - now intros [= <- <-].
  - assert (Hwalk :
      match riverWalk rnd width height 20 (randomInt rnd c width) (randomInt rnd (S c) height)
              terrain (S (S c)) with
      | Some (terrain1, c1) => riverLoop rnd width height n terrain1 c1
      | None => None
      end = Some (terrain', c') -> waterKept terrain').
    { destruct (riverWalk _ _ _ _ _ _ _ _) as [[terrain1 c1]|] eqn:Hw; [|discriminate].
      intros Hloop. eapply IH; [|exact Hloop].
      eapply riverWalk_waterKept; eauto. }
    destruct (get terrain _) as [t|].
    + destruct t; try (intros H; now apply (IH _ _ _ _ Hk H)); exact Hwalk.
    + intros H; now apply (IH _ _ _ _ Hk H).
Qed.

(** Without Mountains or Hills no river starts. *)
Lemma riverLoop_flat rnd n : forall terrain c,
  (forall k, get terrain k <> Some Mountains /\ get terrain k <> Some Hills) ->
  exists c', riverLoop rnd width height n terrain c = Some (terrain, c').
Proof.
  induction n as [|n IH]; intros terrain c Hflat; cbn [riverLoop]; [eauto|].
  destruct (get terrain _) as [t|] eqn:Hget; [|now apply IH].
  destruct (Hflat (hexKey {| q := randomInt rnd c width; r := randomInt rnd (S c) height |}))
    as [Hm Hh].
  destruct t; try (now apply IH); rewrite Hget in *; congruence.
Qed.

End Water.

(** X28. generateMap lays out exactly the grid: for draws from the unit
    interval it returns a terrain map whose keys are the keys of the hexes
    (q, r) with 0 <= q < width and 0 <= r < height, each once, row by row
    in the order of the loops, width * height entries in all; a hex
    outside the grid has no entry. *)
Theorem generateMap_terrain_grid (width height seed : Z) (rnd : Rand) :
  unit_rnd rnd ->
  exists m,
    generateMap_terrain width height seed rnd = Some m /\
    keys m = gridKeys width height /\
    NoDup (keys m) /\
    size m = Z.max 0 width * Z.max 0 height /\
    (forall n, has m (hexKey n) = true <-> 0 <= q n < width /\ 0 <= r n < height).
Proof.
  intros Hrnd.
  destruct (generateMap_terrain_total width height seed rnd Hrnd) as [m Hm].
  destruct (generateMap_terrain_riversOver _ _ _ _ _ Hm) as [Hk _].
  rewrite baseTerrain_keys in Hk.
  exists m. split; [exact Hm|]. split; [exact Hk|].
  split; [rewrite Hk; apply gridKeys_NoDup|]. split.
  - unfold size. rewrite <- gridKeys_length, <- Hk. unfold keys. now rewrite length_map.
  - intros n. rewrite has_keys, Hk, gridKeys_In. split.
    + intros [n' [E H]]. apply hexKey_inj in E. now subst.
    + intros H. exists n. auto.
Qed.

Lemma generateMap_terrain_grid_witness :
  exists m,
    generateMap_terrain 2 1 42 halfRnd = Some m /\
    keys m = gridKeys 2 1 /\
    NoDup (keys m) /\
    size m = Z.max 0 2 * Z.max 0 1 /\
    (forall n, has m (hexKey n) = true <-> 0 <= q n < 2 /\ 0 <= r n < 1).
Proof.
  exact (generateMap_terrain_grid 2 1 42 halfRnd halfRnd_unit).
Defined.

(** X29. Rivers never run over water, and need highlands to start. The
    classification pass lays no River tile; the river pass changes a tile
    only by turning it into River, and never a Water tile: the Water tiles
    of the returned map are exactly those of the classification pass; and
    when the classification has neither Mountains nor Hills, the river
    pass changes nothing. *)
Theorem rivers_spare_water (width height seed : Z) (rnd : Rand) (m : JsMap TerrainType) :
  generateMap_terrain width height seed rnd = Some m ->
  let base := baseTerrain width height seed in
  (forall k, get base k <> Some River) /\
  (forall k, get m k = Some Water <-> get base k = Some Water) /\
  (forall k t, get m k = Some t -> t <> River -> get base k = Some t) /\
  ((forall k, get base k <> Some Mountains /\ get base k <> Some Hills) -> m = base).
Proof.
  intros Hm. cbv zeta.
  pose proof (generateMap_terrain_riversOver _ _ _ _ _ Hm) as [_ Hov].
  split; [apply baseTerrain_no_River|]. split; [|split].
  - intros k. split.
    + intros Hw. destruct (Hov k) as [E|E]; [now rewrite <- E | congruence].
    + revert k. change (waterKept (baseTerrain width height seed) m).
      unfold generateMap_terrain, addRivers in Hm.
      destruct (riverLoop _ _ _ _ _ _) as [[terrain' c']|] eqn:H; [|discriminate].
      injection Hm as <-.
      eapply riverLoop_waterKept; [|exact H]. intros k Hk. exact Hk.
  - intros k t Ht Hnr. destruct (Hov k) as [E|E]; [now rewrite <- E | congruence].
  - intros Hflat. unfold generateMap_terrain, addRivers in Hm.
    destruct (riverLoop_flat width height rnd (Z.to_nat (3 + randomInt rnd 0 3))
                (baseTerrain width height seed) 1%nat Hflat) as [c' E].
    rewrite E in Hm. now injection Hm as <-.
Qed.

Lemma rivers_spare_water_witness :
  get (baseTerrain 2 1 42) "1,0" = Some Hills.
Proof.
  refine (proj1 (proj2 (proj2
            (rivers_spare_water 2 1 42 zeroRnd [ ("0,0", Coast); ("1,0", Hills) ]%string _)))
            "1,0"%string Hills eq_refl _).
  - vm_compute. reflexivity.
  - discriminate.
Defined.

End GridFacts.

(* ================================================================== *)
(** * Stations and their cities *)
(* ================================================================== *)

Module StationFacts.
Import HexGeometry KeyFacts BuildFacts FleetFacts PurchaseFacts RouteFacts LedgerFacts.
Import Js Hex Random Engine JsFacts HexFacts EconomyFacts.





Lemma Forall2_nth_error_r {A B : Type} (R : A -> B -> Prop) l l' :
  Forall2 R l l' -> forall i y, nth_error l' i = Some y ->
  exists x, nth_error l i = Some x /\ R x y.
Proof.
  induction 1 as [|a b l l' Hab _ IH]; intros [|i] y Hy; cbn in *; try discriminate.
  - injection Hy as <-. eauto.
  - now apply IH.
Qed.















End StationFacts.
